(** * publish_netcdf: synchronising a THREDDS catalog with an iRODS proxy

    A shallow embedding of [publish_netcdf.py].  The local catalog is a
    tree of directories and files addressed by paths relative to
    [catalog_path]; the iRODS zone is a tree of collections; the external
    [iget] process is a parameter.  Exceptions are values of [exn], and an
    effectful Python function becomes a computation in a state-and-error
    monad that keeps the state reached when an exception is raised.

    The tree records names, kinds, permission bits, access and
    modification times, and contents.  It has no links and no bound on
    the length of a name, and a rename leaves the times of the directory
    that holds the entry as they were.  Accordingly the statements about
    a run of the normalizer are about a run that returns, or about the
    error it ends with, and none says what the times of a directory are
    after one of its entries was renamed. *)

From Stdlib Require Import ZArith String Ascii List Bool Lia.
From stdpp Require Import base tactics option list strings gmap.

Open Scope Z_scope.
Open Scope string_scope.
Open Scope list_scope.

#[local] Set Warnings "-clear-no-such-hyp".

(** ** Strings *)

(** [c in s] for a one-character needle. *)
Fixpoint str_contains (c : ascii) (s : string) : bool :=
  match s with
  | EmptyString => false
  | String a s' => if Ascii.eqb a c then true else str_contains c s'
  end.

(** [s.replace(old, new)] for a one-character [old]. *)
Fixpoint str_replace (old : ascii) (new : string) (s : string) : string :=
  match s with
  | EmptyString => EmptyString
  | String a s' =>
      if Ascii.eqb a old then new ++ str_replace old new s'
      else String a (str_replace old new s')
  end.

Definition ascii_lower (c : ascii) : ascii :=
  let n := nat_of_ascii c in
  if ((65 <=? n)%nat && (n <=? 90)%nat)%bool then ascii_of_nat (n + 32) else c.

(** [s.lower()] *)
Fixpoint str_lower (s : string) : string :=
  match s with
  | EmptyString => EmptyString
  | String a s' => String (ascii_lower a) (str_lower s')
  end.

(** [s.endswith(suffix)] *)
Definition str_endswith (s suffix : string) : bool :=
  let n := String.length s in
  let m := String.length suffix in
  if (m <=? n)%nat then String.eqb (substring (n - m) m s) suffix else false.

(** ** Constants of the module *)

Definition RESOURCE_ID_GLOB : string := "????????????????????????????????".
Definition EXCLUDED : list string := ["bags"; "temp"; "zips"].
Definition IS_PUBLIC_KEY : string := "isPublic".
Definition IS_PUBLIC_VALUE : string := "true".
Definition NETCDF_EXTENSION : string := ".nc".

(** Permission bits of the [stat] module. *)
Definition S_IRWXU : Z := 448.
Definition S_IRGRP : Z := 32.
Definition S_IXGRP : Z := 8.
Definition S_IROTH : Z := 4.
Definition S_IXOTH : Z := 1.

Definition FILE_MODE : Z :=
  Z.lor S_IRWXU (Z.lor S_IRGRP (Z.lor S_IXGRP (Z.lor S_IROTH S_IXOTH))).

(** ** Exceptions *)

Inductive exn : Type :=
| NetCDFPublicationError (resource_id : string) (returncode : Z)
                         (stdout stderr : string)
| ValueError               (* max() of an empty sequence *)
| IndexError               (* list index out of range *)
| CollectionDoesNotExist   (* session.collections.get on a missing path *)
| FileNotFoundError
| NotADirectoryError
| IsADirectoryError
| DirectoryNotEmpty.       (* OSError(ENOTEMPTY) *)

Definition is_publication_error (e : exn) : bool :=
  match e with
  | NetCDFPublicationError _ _ _ _ => true
  | _ => false
  end.

(** ** The local filesystem below [catalog_path] *)

(** A time is one integer throughout: the [timestamp()] of line 156 and
    the [datetime.fromtimestamp] of line 220 are taken as inverse of each
    other. *)
Definition timestamp := Z.

Record stat_result := mk_stat {
  st_mode : Z;
  st_atime : timestamp;
  st_mtime : timestamp
}.

#[local] Unset Elimination Schemes.
Inductive node : Type :=
| File (st : stat_result) (data : string)
| Dir (st : stat_result) (entries : list (string * node)).
#[local] Set Elimination Schemes.

Definition path := list string.

Definition is_dir (n : node) : bool :=
  match n with Dir _ _ => true | File _ _ => false end.

Definition node_stat (n : node) : stat_result :=
  match n with Dir st _ => st | File st _ => st end.

Definition with_stat (f : stat_result -> stat_result) (n : node) : node :=
  match n with
  | File st d => File (f st) d
  | Dir st es => Dir (f st) es
  end.

Definition names (es : list (string * node)) : list string := map fst es.

Definition dirnames (es : list (string * node)) : list string :=
  names (filter (fun e => is_dir (snd e)) es).

Definition filenames (es : list (string * node)) : list string :=
  names (filter (fun e => negb (is_dir (snd e))) es).

Fixpoint lookup_entry (x : string) (es : list (string * node)) : option node :=
  match es with
  | [] => None
  | (y, n) :: es' => if String.eqb y x then Some n else lookup_entry x es'
  end.

Fixpoint remove_entry (x : string) (es : list (string * node))
  : list (string * node) :=
  match es with
  | [] => []
  | (y, n) :: es' =>
      if String.eqb y x then es' else (y, n) :: remove_entry x es'
  end.

(** Apply [f] to the entry called [x]. *)
Fixpoint update_entry (x : string) (f : node -> exn + node)
  (es : list (string * node)) : exn + list (string * node) :=
  match es with
  | [] => inl FileNotFoundError
  | (y, n) :: es' =>
      if String.eqb y x then
        match f n with
        | inl e => inl e
        | inr n' => inr ((y, n') :: es')
        end
      else
        match update_entry x f es' with
        | inl e => inl e
        | inr es'' => inr ((y, n) :: es'')
        end
  end.

Fixpoint get_node (p : path) (t : node) : option node :=
  match p with
  | [] => Some t
  | x :: p' =>
      match t with
      | File _ _ => None
      | Dir _ es =>
          match lookup_entry x es with
          | Some c => get_node p' c
          | None => None
          end
      end
  end.

(** Apply [f] to the node at path [p]; a missing component is a
    [FileNotFoundError], a file in the middle a [NotADirectoryError]. *)
Fixpoint update_at (p : path) (f : node -> exn + node) (t : node)
  : exn + node :=
  match p with
  | [] => f t
  | x :: p' =>
      match t with
      | File _ _ => inl NotADirectoryError
      | Dir st es =>
          match update_entry x (update_at p' f) es with
          | inl e => inl e
          | inr es' => inr (Dir st es')
          end
      end
  end.

(** POSIX [rename(2)] inside one directory, as [os.rename] performs it:
    an existing file target is replaced by a file, an existing empty
    directory by a directory, and every other clash is an [OSError].  A
    clash is the only failure: no name is too long. *)
Fixpoint rename_in_place (old new : string) (es : list (string * node))
  : list (string * node) :=
  match es with
  | [] => []
  | (y, n) :: es' =>
      if String.eqb y old then (new, n) :: es'
      else (y, n) :: rename_in_place old new es'
  end.

Definition rename_entry (old new : string) (es : list (string * node))
  : exn + list (string * node) :=
  match lookup_entry old es with
  | None => inl FileNotFoundError
  | Some src =>
      if String.eqb old new then inr es
      else
        match lookup_entry new es, src with
        | None, _ => inr (rename_in_place old new es)
        | Some (File _ _), File _ _ =>
            inr (rename_in_place old new (remove_entry new es))
        | Some (Dir _ []), Dir _ _ =>
            inr (rename_in_place old new (remove_entry new es))
        | Some (Dir _ (_ :: _)), Dir _ _ => inl DirectoryNotEmpty
        | Some (Dir _ _), File _ _ => inl IsADirectoryError
        | Some (File _ _), Dir _ _ => inl NotADirectoryError
        end
  end.

(** [os.walk(top)], top-down: one triple (root, dirs, files) per
    directory, the directory itself before its sub-directories. *)
Fixpoint walk (root : path) (n : node)
  : list (path * list string * list string) :=
  match n with
  | File _ _ => []
  | Dir _ es =>
      (root, dirnames es, filenames es) ::
      (fix walk_below (l : list (string * node)) :=
         match l with
         | [] => []
         | (x, c) :: l' => walk (root ++ [x]) c ++ walk_below l'
         end) es
  end.

Definition walk_entries (root : path) (es : list (string * node))
  : list (path * list string * list string) :=
  flat_map (fun e => walk (root ++ [fst e]) (snd e)) es.

(** ** A state-and-error monad

    A computation takes the state and returns either a value or the
    exception raised, together with the state reached at that point: what
    was written before an exception stays written. *)

Definition ST (S A : Type) : Type := S -> (exn + A) * S.

Definition ret {S A} (a : A) : ST S A := fun s => (inr a, s).

Definition raise {S A} (e : exn) : ST S A := fun s => (inl e, s).

Definition bind {S A B} (m : ST S A) (k : A -> ST S B) : ST S B :=
  fun s =>
    match m s with
    | (inl e, s') => (inl e, s')
    | (inr a, s') => k a s'
    end.

Declare Scope st_scope.
Delimit Scope st_scope with st.
Notation "x <- m ;; k" := (bind m (fun x => k))
  (at level 100, m at next level, right associativity) : st_scope.
Notation "m ;;; k" := (bind m (fun _ => k))
  (at level 100, right associativity) : st_scope.
Open Scope st_scope.

(** A [for] loop that carries the loop's local variables in [b]. *)
Fixpoint foldM {S A B} (f : B -> A -> ST S B) (l : list A) (b : B)
  : ST S B :=
  match l with
  | [] => ret b
  | a :: l' => b' <- f b a ;; foldM f l' b'
  end.

(** [try: m  except NetCDFPublicationError: handler] *)
Definition try_except_publication {S A} (m : ST S A) (handler : exn -> ST S A)
  : ST S A :=
  fun s =>
    match m s with
    | (inl e, s') =>
        if is_publication_error e then handler e s' else (inl e, s')
    | (inr a, s') => (inr a, s')
    end.

(** Computations on the filesystem alone. *)
Definition FS (A : Type) : Type := ST node A.

(** A system call either changes the tree or fails and leaves it as it was. *)
Definition syscall (f : node -> exn + node) : FS unit :=
  fun t =>
    match f t with
    | inl e => (inl e, t)
    | inr t' => (inr tt, t')
    end.

(** The mode is stored as it is given: the module passes [FILE_MODE],
    which is within the permission bits. *)
Definition set_mode (mode : Z) (st : stat_result) : stat_result :=
  mk_stat mode (st_atime st) (st_mtime st).

Definition set_times (times : timestamp * timestamp) (st : stat_result)
  : stat_result :=
  mk_stat (st_mode st) (fst times) (snd times).

Definition os_chmod (p : path) (mode : Z) : FS unit :=
  syscall (update_at p (fun n => inr (with_stat (set_mode mode) n))).

Definition os_utime (p : path) (times : timestamp * timestamp) : FS unit :=
  syscall (update_at p (fun n => inr (with_stat (set_times times) n))).

(** [os.rename(os.path.join(root, old), os.path.join(root, new))].  The
    entry moves with what it holds; the times of the directory at [root]
    are left as they were. *)
Definition os_rename (root : path) (old new : string) : FS unit :=
  syscall (update_at root (fun n =>
    match n with
    | File _ _ => inl NotADirectoryError
    | Dir st es =>
        match rename_entry old new es with
        | inl e => inl e
        | inr es' => inr (Dir st es')
        end
    end)).

(** [list(os.walk(p))]: nothing for a path that is not a directory. *)
Definition os_walk (p : path) : FS (list (path * list string * list string)) :=
  fun t =>
    match get_node p t with
    | Some n => (inr (walk p n), t)
    | None => (inr [], t)
    end.

(** ** The filesystem normalizer *)

(** The body of the loop of lines 46-50. *)
Definition rchmod_entry (mode : Z) (_ : unit)
  (leaf : path * list string * list string) : FS unit :=
  let '(root, dirs, files) := leaf in
  foldM (fun (_ : unit) d => os_chmod (root ++ [d]) mode) dirs tt ;;;
  foldM (fun (_ : unit) f => os_chmod (root ++ [f]) mode) files tt.

Definition rchmod (p : path) (mode : Z) : FS unit :=
  os_chmod p mode ;;;
  tree <- os_walk p ;;
  foldM (rchmod_entry mode) tree tt.

Definition dunder (name : string) : string := str_replace " " "__" name.

Definition has_space (name : string) : bool := str_contains " " name.

(** The body shared by the two inner loops of [replace_spaces_in_names]. *)
Definition rename_spaced (root : path) (replaced : nat) (name : string)
  : FS nat :=
  if has_space name then
    os_rename root name (dunder name) ;;; ret (S replaced)
  else ret replaced.

Definition replace_spaces_entry (replaced : nat)
  (leaf : path * list string * list string) : FS nat :=
  let '(root, dirs, files) := leaf in
  replaced <- foldM (rename_spaced root) files replaced ;;
  foldM (rename_spaced root) dirs replaced.

(** Lines 70-81: the walk is taken in full, reversed, and replayed. *)
Definition replace_spaces_loop (p : path) : FS nat :=
  walk <- os_walk p ;;
  foldM replace_spaces_entry (rev walk) 0%nat.

(** [glob.glob(os.path.join(catalog_path, pattern))] for a pattern made of
    [?] and literal characters: the names directly below the catalog root
    that match it.  A name with a leading dot matches only a pattern with
    a leading dot. *)
Fixpoint fnmatch (pattern name : string) : bool :=
  match pattern, name with
  | EmptyString, EmptyString => true
  | String c pattern', String d name' =>
      (Ascii.eqb c "?" || Ascii.eqb c d) && fnmatch pattern' name'
  | _, _ => false
  end.

Definition ishidden (s : string) : bool :=
  match s with
  | String "." _ => true
  | _ => false
  end.

Definition glob_match (pattern name : string) : bool :=
  (ishidden pattern || negb (ishidden name)) && fnmatch pattern name.

Definition glob (pattern : string) : FS (list string) :=
  fun t =>
    match t with
    | Dir _ es => (inr (List.filter (glob_match pattern) (names es)), t)
    | File _ _ => (inr [], t)
    end.

(** [os.path.getmtime(p)].  The tree has no links, so a name that
    [glob] has listed is found. *)
Definition os_path_getmtime (p : path) : FS timestamp :=
  fun t =>
    match get_node p t with
    | Some n => (inr (st_mtime (node_stat n)), t)
    | None => (inl FileNotFoundError, t)
    end.

(** [shutil.rmtree(p)]: the entry must exist and be a directory. *)
Fixpoint rmtree_at (p : path) (t : node) : exn + node :=
  match p with
  | [] => inl NotADirectoryError
  | x :: p' =>
      match t with
      | File _ _ => inl NotADirectoryError
      | Dir st es =>
          match p' with
          | [] =>
              match lookup_entry x es with
              | None => inl FileNotFoundError
              | Some (File _ _) => inl NotADirectoryError
              | Some (Dir _ _) => inr (Dir st (remove_entry x es))
              end
          | _ :: _ =>
              match update_entry x (rmtree_at p') es with
              | inl e => inl e
              | inr es' => inr (Dir st es')
              end
          end
      end
  end.

Definition shutil_rmtree (p : path) : FS unit := syscall (rmtree_at p).

(** ** The iRODS zone below [proxy_path] *)

Record data_object := mk_data_object {
  obj_name : string;
  modify_time : timestamp
}.

#[local] Unset Elimination Schemes.
Inductive collection : Type :=
| Collection (name : string) (metadata : gmap string string)
             (subcollections : list collection)
             (data_objects : list data_object).
#[local] Set Elimination Schemes.

Definition coll_name (c : collection) : string :=
  match c with Collection n _ _ _ => n end.
Definition coll_metadata (c : collection) : gmap string string :=
  match c with Collection _ m _ _ => m end.
Definition coll_subcollections (c : collection) : list collection :=
  match c with Collection _ _ s _ => s end.
Definition coll_data_objects (c : collection) : list data_object :=
  match c with Collection _ _ _ o => o end.

(** [collection.walk()], top-down. *)
Fixpoint coll_walk (c : collection)
  : list (collection * list collection * list data_object) :=
  match c with
  | Collection _ _ subs objs =>
      (c, subs, objs) ::
      (fix below (l : list collection) :=
         match l with
         | [] => []
         | s :: l' => coll_walk s ++ below l'
         end) subs
  end.

(** A data object somewhere inside a collection. *)
Inductive contains : collection -> data_object -> Prop :=
| contains_here c o : In o (coll_data_objects c) -> contains c o
| contains_below c s o :
    In s (coll_subcollections c) -> contains s o -> contains c o.

(** ** Processes, logging and the world *)

Record completed_process := mk_process {
  returncode : Z;
  stdout : string;
  stderr : string
}.

Inductive level := INFO | WARNING | ERROR.

(** One constructor per message of the module, with the values it
    interpolates. *)
Inductive message : Type :=
| MsgReplaced (replaced : nat) (p : path)
| MsgPublishing (resource_id : string)
| MsgPublishFailed (resource_id : string) (returncode : Z)
                   (stdout stderr : string)
| MsgPublished (resource_id : string) (ts : timestamp)
| MsgNumIncluded (n : nat)
| MsgNumPublic (n : nat)
| MsgSubcollection (name : string) (n : nat)
| MsgNumPublicNetcdf (n : nat)
| MsgNumDestination (n : nat)
| MsgRemoved (resource_id : string)
| MsgSyncing
| MsgNotInDestination (resource_id : string)
| MsgStale (resource_id : string) (source_ts destination_ts : timestamp)
| MsgIncomplete
| MsgNoLongerInSource (resource_id : string)
| MsgSynced.

Record world := mk_world {
  fs : node;                        (* the tree at catalog_path *)
  logs : list (level * message)     (* what the logger has written *)
}.

Definition M (A : Type) : Type := ST world A.

Definition logger (lv : level) (msg : message) : M unit :=
  fun w => (inr tt, mk_world (fs w) (logs w ++ [(lv, msg)])).

Definition lift_fs {A} (m : FS A) : M A :=
  fun w => let '(r, t) := m (fs w) in (r, mk_world t (logs w)).

Definition lift_result {A} (r : exn + A) : M A := fun w => (r, w).

(** ** The module's functions *)

Definition replace_spaces_in_names (p : path) : M unit :=
  replaced <- lift_fs (replace_spaces_loop p) ;;
  if (0 <? replaced)%nat then logger WARNING (MsgReplaced replaced p)
  else ret tt.

(** [max(timestamps)] *)
Definition py_max (l : list timestamp) : exn + timestamp :=
  match l with
  | [] => inl ValueError
  | x :: l' => inr (fold_left Z.max l' x)
  end.

Section program.
(** The collection at [proxy_path], and the effect of
    [iget -rf proxy_path/resource_id catalog_path] on the catalog. *)
Variable proxy : collection.
Variable iget : string -> node -> completed_process * node.

(** [session.collections.get(os.path.join(proxy_path, resource_id))] *)
Definition collections_get (resource_id : string) : option collection :=
  List.find (fun c => String.eqb (coll_name c) resource_id)
            (coll_subcollections proxy).

Definition get_latest_resource_timestamp (resource_id : string)
  : exn + timestamp :=
  match collections_get resource_id with
  | None => inl CollectionDoesNotExist
  | Some collection =>
      let tree := coll_walk collection in
      let data_objects := flat_map (fun leaf => snd leaf) tree in
      let timestamps := map modify_time data_objects in
      py_max timestamps
  end.

Definition popen_iget (resource_id : string) : M completed_process :=
  fun w =>
    let '(proc, t) := iget resource_id (fs w) in
    (inr proc, mk_world t (logs w)).

Definition publish_resource (resource_id : string) : M unit :=
  logger INFO (MsgPublishing resource_id) ;;;
  let destination := [resource_id] in
  timestamp <- lift_result (get_latest_resource_timestamp resource_id) ;;
  proc <- popen_iget resource_id ;;
  if negb (Z.eqb (returncode proc) 0) then
    logger ERROR (MsgPublishFailed resource_id (returncode proc)
                                   (stdout proc) (stderr proc)) ;;;
    raise (NetCDFPublicationError resource_id (returncode proc)
                                  (stdout proc) (stderr proc))
  else
    lift_fs (rchmod destination FILE_MODE) ;;;
    replace_spaces_in_names destination ;;;
    lift_fs (os_utime destination (timestamp, timestamp)) ;;;
    logger INFO (MsgPublished resource_id timestamp).

Definition is_public (subcollection : collection) : bool :=
  bool_decide (is_Some (coll_metadata subcollection !! "isPublic")) &&
  match coll_metadata subcollection !! IS_PUBLIC_KEY with
  | Some value => String.eqb value IS_PUBLIC_VALUE
  | None => false
  end.

Definition netcdf_objects (subcollection : collection) : list data_object :=
  let public_objects :=
    map (fun leaf => snd leaf) (coll_walk subcollection) in
  let data_objects := concat public_objects in
  List.filter
    (fun obj => str_endswith (str_lower (obj_name obj)) NETCDF_EXTENSION)
    data_objects.

(** The body of the loop of lines 187-196. *)
Definition keep_netcdf (public_netcdf : list string)
  (subcollection : collection) : M (list string) :=
  let netcdf := netcdf_objects subcollection in
  match netcdf with
  | [] => ret public_netcdf
  | _ :: _ =>
      logger INFO (MsgSubcollection (coll_name subcollection)
                                    (length netcdf)) ;;;
      ret (public_netcdf ++ [coll_name subcollection])
  end.

(** One element of the comprehension of lines 199-200. *)
Definition with_timestamp (source_netcdf : list (string * timestamp))
  (resource_id : string) : M (list (string * timestamp)) :=
  ts <- lift_result (get_latest_resource_timestamp resource_id) ;;
  ret (source_netcdf ++ [(resource_id, ts)]).

Definition scan_source : M (list (string * timestamp)) :=
  let subcollections :=
    List.filter
      (fun subcollection =>
         negb (bool_decide (coll_name subcollection ∈ EXCLUDED)))
      (coll_subcollections proxy) in
  logger INFO (MsgNumIncluded (length subcollections)) ;;;
  let public := List.filter is_public subcollections in
  logger INFO (MsgNumPublic (length public)) ;;;
  public_netcdf <- foldM keep_netcdf public [] ;;
  logger INFO (MsgNumPublicNetcdf (length public_netcdf)) ;;;
  foldM with_timestamp public_netcdf [].

(** One element of the comprehension of lines 220-221. *)
Definition with_mtime (destination_netcdf : list (string * timestamp))
  (resource : string) : M (list (string * timestamp)) :=
  mtime <- lift_fs (os_path_getmtime [resource]) ;;
  ret (destination_netcdf ++ [(resource, mtime)]).

Definition scan_destination : M (list (string * timestamp)) :=
  resources <- lift_fs (glob RESOURCE_ID_GLOB) ;;
  logger INFO (MsgNumDestination (length resources)) ;;;
  foldM with_mtime resources [].

(** [resource_id] is one path component, as the names of the inventory
    are: [os.path.join] puts it directly below [catalog_path]. *)
Definition remove_resource (resource_id : string) : M unit :=
  lift_fs (shutil_rmtree [resource_id]) ;;;
  logger INFO (MsgRemoved resource_id).

(** [l.index(x)] for an [x] known to be in [l]. *)
Fixpoint py_index (x : string) (l : list string) : nat :=
  match l with
  | [] => 0
  | y :: l' => if String.eqb y x then 0 else S (py_index x l')
  end.

(** Lines 267-278: the body of the first loop with its [try]. *)
Definition sync_source_item
  (destination_ids : list string) (destination_timestamps : list timestamp)
  (_ : unit) (source : string * timestamp) : M unit :=
  let '(source_id, source_timestamp) := source in
  try_except_publication
    (if negb (bool_decide (source_id ∈ destination_ids)) then
       logger INFO (MsgNotInDestination source_id) ;;;
       publish_resource source_id
     else
       let index := py_index source_id destination_ids in
       match destination_timestamps !! index with
       | None => raise IndexError
       | Some destination_timestamp =>
           if Z.gtb source_timestamp destination_timestamp then
             logger INFO (MsgStale source_id source_timestamp
                                   destination_timestamp) ;;;
             publish_resource source_id
           else ret tt
       end)
    (fun e => logger WARNING MsgIncomplete).

(** Lines 264-278. *)
Definition sync_publish_phase
  (source_netcdf destination_netcdf : list (string * timestamp)) : M unit :=
  let destination_ids := map fst destination_netcdf in
  let destination_timestamps := map snd destination_netcdf in
  foldM (sync_source_item destination_ids destination_timestamps)
        source_netcdf tt.

(** Lines 282-284: the body of the second loop. *)
Definition remove_orphan (source_ids : list string) (_ : unit)
  (destination : string * timestamp) : M unit :=
  let destination_id := fst destination in
  if negb (bool_decide (destination_id ∈ source_ids)) then
    logger INFO (MsgNoLongerInSource destination_id) ;;;
    remove_resource destination_id
  else ret tt.

(** Lines 279-284. *)
Definition sync_remove_phase (source_netcdf : list (string * timestamp))
  : M unit :=
  destination_netcdf <- scan_destination ;;
  let source_ids := map fst source_netcdf in
  foldM (remove_orphan source_ids) destination_netcdf tt.

Definition sync_resources : M unit :=
  logger INFO MsgSyncing ;;;
  source_netcdf <- scan_source ;;
  destination_netcdf <- scan_destination ;;
  sync_publish_phase source_netcdf destination_netcdf ;;;
  sync_remove_phase source_netcdf ;;;
  logger INFO MsgSynced.
End program.

(** ** Well-formed trees and the expected result of normalisation *)

(** A directory holds each name once. *)
Fixpoint wfb (n : node) : bool :=
  match n with
  | File _ _ => true
  | Dir _ es =>
      bool_decide (NoDup (names es)) &&
      (fix all (l : list (string * node)) :=
         match l with
         | [] => true
         | (_, c) :: l' => wfb c && all l'
         end) es
  end.

Definition wf (n : node) : Prop := wfb n = true.

(** No two names of a directory are sent to the same name by [dunder]. *)
Fixpoint collision_freeb (n : node) : bool :=
  match n with
  | File _ _ => true
  | Dir _ es =>
      bool_decide (NoDup (map dunder (names es))) &&
      (fix all (l : list (string * node)) :=
         match l with
         | [] => true
         | (_, c) :: l' => collision_freeb c && all l'
         end) es
  end.

Definition collision_free (n : node) : Prop := collision_freeb n = true.

(** Every name strictly below the node is free of spaces. *)
Fixpoint no_spaceb (n : node) : bool :=
  match n with
  | File _ _ => true
  | Dir _ es =>
      (fix all (l : list (string * node)) :=
         match l with
         | [] => true
         | (x, c) :: l' => negb (has_space x) && no_spaceb c && all l'
         end) es
  end.

(** The tree with [dunder] applied to every name below the root. *)
Fixpoint rename_all (n : node) : node :=
  match n with
  | File _ _ => n
  | Dir st es =>
      Dir st ((fix below (l : list (string * node)) :=
                 match l with
                 | [] => []
                 | (x, c) :: l' => (dunder x, rename_all c) :: below l'
                 end) es)
  end.

(** The tree with [mode] set on the node and on everything below it. *)
Fixpoint chmod_all (mode : Z) (n : node) : node :=
  match n with
  | File st d => File (set_mode mode st) d
  | Dir st es =>
      Dir (set_mode mode st)
          ((fix below (l : list (string * node)) :=
              match l with
              | [] => []
              | (x, c) :: l' => (x, chmod_all mode c) :: below l'
              end) es)
  end.

(** As [chmod_all], but the node itself keeps its mode. *)
Definition chmod_below (mode : Z) (n : node) : node :=
  match n with
  | File _ _ => n
  | Dir st es => Dir st (map (fun e => (fst e, chmod_all mode (snd e))) es)
  end.

(** Every node of the tree has permission bits [mode]. *)
Fixpoint all_mode (mode : Z) (n : node) : bool :=
  match n with
  | File st _ => Z.eqb (st_mode st) mode
  | Dir st es =>
      Z.eqb (st_mode st) mode &&
      (fix all (l : list (string * node)) :=
         match l with
         | [] => true
         | (_, c) :: l' => all_mode mode c && all l'
         end) es
  end.

(** Replace the node at [p] (nothing happens if [p] does not exist). *)
Fixpoint set_entry (x : string) (c : node) (es : list (string * node))
  : list (string * node) :=
  match es with
  | [] => []
  | (y, n) :: es' =>
      if String.eqb y x then (y, c) :: es' else (y, n) :: set_entry x c es'
  end.

Fixpoint put (p : path) (c : node) (t : node) : node :=
  match p with
  | [] => c
  | x :: p' =>
      match t with
      | File _ _ => t
      | Dir st es =>
          match lookup_entry x es with
          | Some ch => Dir st (set_entry x (put p' c ch) es)
          | None => t
          end
      end
  end.

(** One step of the inner loops, seen from inside the directory. *)
Definition rename_spaced_entry (replaced : nat) (name : string)
  : ST (list (string * node)) nat :=
  if has_space name then
    fun es =>
      match rename_entry name (dunder name) es with
      | inl e => (inl e, es)
      | inr es' => (inr (S replaced), es')
      end
  else ret replaced.

(** [replace_spaces_loop] by recursion on the tree: the sub-directories
    from the last to the first, each one completely, then the files and
    the directories of the node itself. *)
Fixpoint norm (n : node) (k : nat) : (exn + nat) * node :=
  match n with
  | File _ _ => (inr k, n)
  | Dir st es =>
      let '(r, es1) :=
        (fix below (l : list (string * node)) (k : nat) :=
           match l with
           | [] => (inr k, [])
           | (x, c) :: l' =>
               match below l' k with
               | (inl e, l1) => (inl e, (x, c) :: l1)
               | (inr k1, l1) =>
                   let '(r2, c') := norm c k1 in (r2, (x, c') :: l1)
               end
           end) es k in
      match r with
      | inl e => (inl e, Dir st es1)
      | inr k1 =>
          match foldM rename_spaced_entry (filenames es) k1 es1 with
          | (inl e, es2) => (inl e, Dir st es2)
          | (inr k2, es2) =>
              let '(r3, es3) :=
                foldM rename_spaced_entry (dirnames es) k2 es2 in
              (r3, Dir st es3)
          end
      end
  end.

Fixpoint norm_below (l : list (string * node)) (k : nat)
  : (exn + nat) * list (string * node) :=
  match l with
  | [] => (inr k, [])
  | (x, c) :: l' =>
      match norm_below l' k with
      | (inl e, l1) => (inl e, (x, c) :: l1)
      | (inr k1, l1) => let '(r2, c') := norm c k1 in (r2, (x, c') :: l1)
      end
  end.

(** A walk entry that names nothing with a space. *)
Definition quiet (leaf : path * list string * list string) : Prop :=
  Forall (fun x => has_space x = false) (snd (fst leaf)) /\
  Forall (fun x => has_space x = false) (snd leaf).

(** ** Induction on trees *)

Section node_induction.
Variable P : node -> Prop.
Hypothesis HFile : forall st d, P (File st d).
Hypothesis HDir :
  forall st es, Forall (fun e => P (snd e)) es -> P (Dir st es).

Fixpoint node_ind (n : node) : P n :=
  match n with
  | File st d => HFile st d
  | Dir st es =>
      HDir st es
        ((fix go (l : list (string * node))
            : Forall (fun e => P (snd e)) l :=
            match l with
            | [] => List.Forall_nil _
            | (x, c) :: l' => List.Forall_cons _ (x, c) l' (node_ind c) (go l')
            end) es)
  end.
End node_induction.


(** ** Statements about the normalizer *)

(** A property of the tree found at [p]; vacuous when [p] does not exist. *)
Definition under (p : path) (f : node -> bool) (t : node) : bool :=
  match get_node p t with
  | Some c => f c
  | None => true
  end.




(** ** Example trees *)

Definition example_stat : stat_result := mk_stat 420 0 0.



(** ** Induction on collections *)

Section collection_induction.
Variable P : collection -> Prop.
Hypothesis HColl :
  forall n m subs objs, Forall P subs -> P (Collection n m subs objs).

Fixpoint collection_ind (c : collection) : P c :=
  match c with
  | Collection n m subs objs =>
      HColl n m subs objs
        ((fix go (l : list collection) : Forall P l :=
            match l with
            | [] => List.Forall_nil _
            | s :: l' => List.Forall_cons _ s l' (collection_ind s) (go l')
            end) subs)
  end.
End collection_induction.

(** ** Statements about the scanners *)

(** The data objects that [collection.walk()] goes through. *)
Definition walked_objects (c : collection) : list data_object :=
  flat_map (fun leaf => snd leaf) (coll_walk c).

(** A name that ends in [.nc], whatever the case of its letters. *)
Definition ends_with_nc (s : string) : Prop :=
  exists stem ext : string,
    s = (stem ++ ext)%string /\ In ext [".nc"; ".nC"; ".Nc"; ".NC"].

Definition has_netcdf (c : collection) : bool :=
  match netcdf_objects c with
  | [] => false
  | _ :: _ => true
  end.

(** What the specification asks of an inventoried collection. *)
Definition eligible (c : collection) : Prop :=
  ~ In (coll_name c) EXCLUDED /\
  coll_metadata c !! IS_PUBLIC_KEY = Some IS_PUBLIC_VALUE /\
  exists o, contains c o /\ ends_with_nc (obj_name o).

(** ** Statements about the sync driver *)

Definition root_entries (t : node) : list (string * node) :=
  match t with
  | Dir _ es => es
  | File _ _ => []
  end.

Definition mtime_of (x : string) (es : list (string * node)) : timestamp :=
  match lookup_entry x es with
  | Some n => st_mtime (node_stat n)
  | None => 0
  end.

(** What [scan_destination] reads off a catalog. *)
Definition destination_inventory (t : node) : list (string * timestamp) :=
  map (fun x => (x, mtime_of x (root_entries t)))
      (List.filter (glob_match RESOURCE_ID_GLOB) (names (root_entries t))).

(** The timestamp that an inventory records for an identifier. *)
Fixpoint recorded (id : string) (inventory : list (string * timestamp))
  : option timestamp :=
  match inventory with
  | [] => None
  | (x, ts) :: inventory' =>
      if String.eqb x id then Some ts else recorded id inventory'
  end.

(** The test of lines 268-274: is the source item to be published? *)
Definition due (destination_netcdf : list (string * timestamp))
  (source : string * timestamp) : bool :=
  let destination_ids := map fst destination_netcdf in
  let destination_timestamps := map snd destination_netcdf in
  if negb (bool_decide (fst source ∈ destination_ids)) then true
  else
    match destination_timestamps !! py_index (fst source) destination_ids with
    | Some destination_timestamp => Z.gtb (snd source) destination_timestamp
    | None => false
    end.

(** The resources for which [publish_resource] was entered, oldest first,
    as the log shows them. *)
Definition publishing_ids (lg : list (level * message)) : list string :=
  flat_map (fun r => match snd r with
                     | MsgPublishing id => [id]
                     | _ => []
                     end) lg.

(** The resources that [remove_resource] has removed, as the log shows. *)
Definition removed_ids (lg : list (level * message)) : list string :=
  flat_map (fun r => match snd r with
                     | MsgRemoved id => [id]
                     | _ => []
                     end) lg.

(** A destination entry that the removal phase is to delete. *)
Definition orphan (source_netcdf : list (string * timestamp)) (x : string)
  : bool :=
  glob_match RESOURCE_ID_GLOB x &&
  negb (bool_decide (x ∈ map fst source_netcdf)).

(** The message logged before a due item is published. *)
Definition due_message (destination_netcdf : list (string * timestamp))
  (source : string * timestamp) : message :=
  match recorded (fst source) destination_netcdf with
  | None => MsgNotInDestination (fst source)
  | Some destination_timestamp =>
      MsgStale (fst source) (snd source) destination_timestamp
  end.

Definition log_append (w : world) (lg : list (level * message)) : world :=
  mk_world (fs w) (logs w ++ lg).

(** ** An example zone, catalogs and transfers *)

Definition public_metadata : gmap string string :=
  {[ "isPublic" := "true" ]}.

Definition id_a : string := "0123456789abcdef0123456789abcdef".
Definition id_b : string := "fedcba9876543210fedcba9876543210".
Definition id_c : string := "00000000000000000000000000000000".

(** Two public resources with NetCDF files, the housekeeping collection
    [bags], and a resource that is not public. *)
Definition example_proxy : collection :=
  Collection "proxy" ∅
    [Collection id_a public_metadata [] [mk_data_object "flow.nc" 50];
     Collection id_b public_metadata
       [Collection "my data" ∅ [] [mk_data_object "run 1.NC" 70]]
       [mk_data_object "readme.txt" 60];
     Collection "bags" public_metadata [] [mk_data_object "old.nc" 10];
     Collection id_c ∅ [] [mk_data_object "hidden.nc" 20]]
    [].

(** As [example_proxy], but the first resource holds two folders whose
    names clash once the space is replaced. *)
Definition clash_proxy : collection :=
  Collection "proxy" ∅
    [Collection id_a public_metadata
       [Collection "a b" ∅ [] [mk_data_object "u.nc" 50];
        Collection "a__b" ∅ [] [mk_data_object "v.nc" 40]]
       [];
     Collection id_b public_metadata [] [mk_data_object "w.nc" 70]]
    [].

(** The local copy of a collection. *)
Fixpoint node_of_collection (st : stat_result) (c : collection) : node :=
  match c with
  | Collection _ _ subs objs =>
      Dir st
        (map (fun o => (obj_name o, File st "")) objs ++
         (fix below (l : list collection) :=
            match l with
            | [] => []
            | s :: l' => (coll_name s, node_of_collection st s) :: below l'
            end) subs)
  end.

Definition fresh_stat : stat_result := mk_stat 384 1000 1000.

(** An [iget] that copies the collection into the catalog and exits 0, or
    exits 3 when there is nothing to copy from or to. *)
Definition iget_copy (proxy : collection) (resource_id : string) (t : node)
  : completed_process * node :=
  match List.find (fun c => String.eqb (coll_name c) resource_id)
                  (coll_subcollections proxy), t with
  | Some c, Dir st es =>
      let copy := node_of_collection fresh_stat c in
      (mk_process 0 "" "",
       Dir st (match lookup_entry resource_id es with
               | Some _ => set_entry resource_id copy es
               | None => es ++ [(resource_id, copy)]
               end))
  | _, _ => (mk_process 3 "" "remote addresses: ERROR", t)
  end.

(** An [iget] that fails on one resource and copies the others. *)
Definition iget_failing_on (bad : string) (proxy : collection)
  (resource_id : string) (t : node) : completed_process * node :=
  if String.eqb resource_id bad
  then (mk_process 3 "" "remote addresses: ERROR", t)
  else iget_copy proxy resource_id t.

(** A catalog that holds an up-to-date copy of [id_b], a directory for
    [id_c], and a directory whose name is not an identifier. *)
Definition example_catalog : node :=
  Dir example_stat
    [(id_b, Dir (mk_stat 493 70 70) [("readme.txt", File example_stat "")]);
     (id_c, Dir example_stat [("hidden.nc", File example_stat "")]);
     ("lost+found", Dir example_stat [])].

(** A catalog in which the entry for [id_c] is a regular file. *)
Definition file_catalog : node :=
  Dir example_stat
    [(id_c, File example_stat "stray");
     (id_b, Dir (mk_stat 493 10 10) [])].

Definition empty_catalog : node := Dir example_stat [].

(** A zone whose only resource holds no data object. *)
Definition hollow_proxy : collection :=
  Collection "proxy" ∅ [Collection id_a public_metadata [] []] [].

(** The names of a list that contain a space, in order. *)
Definition spaced (l : list string) : list string := List.filter has_space l.

(** The names that the loops of one directory still have to rename. *)
Definition pending (es : list (string * node)) : list string :=
  spaced (filenames es) ++ spaced (dirnames es).


(** ** Further statements about the normalizer *)



(** Neither path leads to the other. *)
Definition apart (p q : path) : Prop :=
  ~ p `prefix_of` q /\ ~ q `prefix_of` p.



(** A catalog with a resource whose folder and file names have spaces,
    beside a second resource. *)
Definition spaced_catalog : node :=
  Dir example_stat
    [(id_a, Dir example_stat
              [("my data", Dir example_stat
                             [("run 1.nc", File example_stat "one");
                              ("run2.nc", File example_stat "two")]);
               ("read me.txt", File example_stat "text")]);
     (id_b, Dir example_stat [("w.nc", File example_stat "w")])].
(** ** Further statements about the scanners *)

(** The three tests of [scan_source], in the order it applies them. *)
Definition inventoried (c : collection) : bool :=
  negb (bool_decide (coll_name c ∈ EXCLUDED)) && is_public c && has_netcdf c.
(** ** A transfer that does what [iget -rf] is for *)

(** On a well-formed catalog directory, and for the resources [ids], the
    transfer exits 0, leaves a well-formed catalog directory, and writes
    to the entry of the resource only. *)
Definition well_behaved (ids : list string)
  (iget : string -> node -> completed_process * node) : Prop :=
  forall id t,
    In id ids -> wf t -> is_dir t = true ->
    returncode (fst (iget id t)) = 0 /\
    wf (snd (iget id t)) /\ is_dir (snd (iget id t)) = true /\
    forall y, y <> id ->
      lookup_entry y (root_entries (snd (iget id t))) =
      lookup_entry y (root_entries t).
(** ** The script

    The block under [if __name__ == "__main__"].  [environ] is
    [os.environ] once [dotenv.load_dotenv] has run, [args] what
    [parser.parse_args()] returned.  The values of the four variables
    name the log file, the zone and the catalog, which are the log, the
    [proxy] and the tree of this development. *)

Record namespace := mk_args {
  args_dotenv_path : string;
  args_resource_id : string     (* [nargs="?"], [default=""] *)
}.

Inductive script_exn : Type :=
| KeyError (key : string)                (* [os.environ[key]] *)
| AttributeError (attribute : string)    (* [args.attribute] *)
| Uncaught (e : exn).                    (* raised inside the module *)

(** The one message that only the script writes, beside the module's. *)
Inductive script_message : Type :=
| Logged (msg : message)
| MsgResourceIncomplete (resource_id src_path dest_path : string).

Record script_world := mk_script {
  catalog : node;
  log_file : list (level * script_message)
}.

Definition SM (A : Type) : Type :=
  script_world -> (script_exn + A) * script_world.

(** [os.environ[key]] *)
Definition environ_get (environ : gmap string string) (key : string)
  : SM string :=
  fun s =>
    match environ !! key with
    | Some value => (inr value, s)
    | None => (inl (KeyError key), s)
    end.

(** [args.attribute] on the namespace of the two declared arguments. *)
Definition getattr (args : namespace) (attribute : string) : SM string :=
  fun s =>
    if String.eqb attribute "dotenv_path" then (inr (args_dotenv_path args), s)
    else if String.eqb attribute "resource_id"
         then (inr (args_resource_id args), s)
         else (inl (AttributeError attribute), s).

Definition script_bind {A B} (m : SM A) (k : A -> SM B) : SM B :=
  fun s =>
    match m s with
    | (inl e, s') => (inl e, s')
    | (inr a, s') => k a s'
    end.

Definition script_warning (msg : script_message) : SM unit :=
  fun s => (inr tt, mk_script (catalog s) (log_file s ++ [(WARNING, msg)])).

(** A call into the module: it works on the catalog and appends its
    lines to the log. *)
Definition call {A} (m : M A) : SM A :=
  fun s =>
    let '(r, w) := m (mk_world (catalog s) []) in
    (match r with
     | inl e => inl (Uncaught e)
     | inr a => inr a
     end,
     mk_script (fs w)
       (log_file s ++ map (fun line => (fst line, Logged (snd line)))
                          (logs w))).

(** [try: m  except NetCDFPublicationError: handler], in the script. *)
Definition script_try {A} (m : SM A) (handler : SM A) : SM A :=
  fun s =>
    match m s with
    | (inl (Uncaught e), s') =>
        if is_publication_error e then handler s'
        else (inl (Uncaught e), s')
    | other => other
    end.

Section script.
Variable proxy : collection.
Variable iget : string -> node -> completed_process * node.

(** Lines 314-339. *)
Definition main (environ : gmap string string) (args : namespace)
  : SM unit :=
  script_bind (environ_get environ "PUBLIC_NETCDF_LOG_FILE") (fun log_file =>
  script_bind (environ_get environ "PUBLIC_NETCDF_IRODS_ENVIRONMENT_FILE")
    (fun irods_env =>
  script_bind (environ_get environ "PUBLIC_NETCDF_IRODS_PROXY_PATH")
    (fun proxy_path =>
  script_bind (environ_get environ "PUBLIC_NETCDF_THREDDS_CATALOG_PATH")
    (fun catalog_path =>
  if negb (String.eqb (args_resource_id args) "") then
    script_try
      (call (publish_resource proxy iget (args_resource_id args)))
      (script_bind (getattr args "resource_id") (fun resource_id =>
       script_bind (getattr args "src_path") (fun src_path =>
       script_bind (getattr args "dest_path") (fun dest_path =>
       script_warning
         (MsgResourceIncomplete resource_id src_path dest_path)))))
  else
    call (sync_resources proxy iget))))).
End script.

(** The variables that the script reads, in the order it reads them. *)
Definition REQUIRED : list string :=
  ["PUBLIC_NETCDF_LOG_FILE"; "PUBLIC_NETCDF_IRODS_ENVIRONMENT_FILE";
   "PUBLIC_NETCDF_IRODS_PROXY_PATH"; "PUBLIC_NETCDF_THREDDS_CATALOG_PATH"].

Definition example_environ : gmap string string :=
  {[ "PUBLIC_NETCDF_LOG_FILE" := "/var/log/public_netcdf.log";
     "PUBLIC_NETCDF_IRODS_ENVIRONMENT_FILE" := "/etc/irods_environment.json";
     "PUBLIC_NETCDF_IRODS_PROXY_PATH" := "/zone/home/proxy";
     "PUBLIC_NETCDF_THREDDS_CATALOG_PATH" := "/srv/thredds/public" ]}.


(** ** Attempts of the first loop *)

Section attempts.
Variable proxy : collection.
Variable iget : string -> node -> completed_process * node.

(** What the first loop does for an item that is due: the line that says
    why, then [publish_resource] under the [try] of lines 267-278. *)
Definition publish_attempt (destination_netcdf : list (string * timestamp))
  (_ : unit) (source : string * timestamp) : M unit :=
  logger INFO (due_message destination_netcdf source) ;;;
  try_except_publication
    (publish_resource proxy iget (fst source))
    (fun e => logger WARNING MsgIncomplete).
End attempts.



(** * Proofs *)

Lemma walk_Dir root st es :
  walk root (Dir st es) =
  (root, dirnames es, filenames es) :: walk_entries root es.
Proof.
  simpl. f_equal. unfold walk_entries.
  induction es as [|[x c] es IH]; simpl; [done|]. by rewrite IH.
Qed.

Lemma norm_Dir st es k :
  norm (Dir st es) k =
  match norm_below es k with
  | (inl e, es1) => (inl e, Dir st es1)
  | (inr k1, es1) =>
      match foldM rename_spaced_entry (filenames es) k1 es1 with
      | (inl e, es2) => (inl e, Dir st es2)
      | (inr k2, es2) =>
          let '(r3, es3) := foldM rename_spaced_entry (dirnames es) k2 es2 in
          (r3, Dir st es3)
      end
  end.
Proof.
  simpl.
  match goal with
  | |- (let '(_, _) := ?f es k in _) = _ =>
      replace (f es k) with (norm_below es k)
  end.
  - by destruct (norm_below es k) as [[e|k1] es1].
  - clear. revert k. induction es as [|[x c] es IH]; intros k; simpl; [done|].
    by rewrite IH.
Qed.

Lemma wf_Dir st es :
  wf (Dir st es) <->
  NoDup (names es) /\ Forall (fun e => wf (snd e)) es.
Proof.
  unfold wf. simpl. rewrite andb_true_iff, bool_decide_eq_true.
  apply and_iff_compat_l.
  induction es as [|[x c] es IH]; simpl.
  - split; [constructor | done].
  - rewrite andb_true_iff, IH, Forall_cons. done.
Qed.

Lemma collision_free_Dir st es :
  collision_free (Dir st es) <->
  NoDup (map dunder (names es)) /\
  Forall (fun e => collision_free (snd e)) es.
Proof.
  unfold collision_free. simpl. rewrite andb_true_iff, bool_decide_eq_true.
  apply and_iff_compat_l.
  induction es as [|[x c] es IH]; simpl.
  - split; [constructor | done].
  - rewrite andb_true_iff, IH, Forall_cons. done.
Qed.

Lemma no_space_Dir st es :
  no_spaceb (Dir st es) = true <->
  Forall (fun e => has_space (fst e) = false /\ no_spaceb (snd e) = true) es.
Proof.
  simpl. induction es as [|[x c] es IH]; simpl.
  - split; [constructor | done].
  - rewrite !andb_true_iff, IH, Forall_cons, negb_true_iff. simpl. tauto.
Qed.

Lemma rename_all_Dir st es :
  rename_all (Dir st es) =
  Dir st (map (fun e => (dunder (fst e), rename_all (snd e))) es).
Proof.
  simpl. f_equal. induction es as [|[x c] es IH]; simpl; [done|].
  by rewrite IH.
Qed.

(** ** Paths, lookups and replacement *)

Lemma lookup_entry_app_fresh x c pre post :
  x ∉ names pre -> lookup_entry x (pre ++ (x, c) :: post) = Some c.
Proof.
  induction pre as [|[y n] pre IH]; simpl; intros Hx.
  - by rewrite String.eqb_refl.
  - apply not_elem_of_cons in Hx as [Hne Hx].
    destruct (String.eqb_spec y x); [congruence | auto].
Qed.

Lemma set_entry_app_fresh x c c' pre post :
  x ∉ names pre ->
  set_entry x c' (pre ++ (x, c) :: post) = pre ++ (x, c') :: post.
Proof.
  induction pre as [|[y n] pre IH]; simpl; intros Hx.
  - by rewrite String.eqb_refl.
  - apply not_elem_of_cons in Hx as [Hne Hx].
    destruct (String.eqb_spec y x); [congruence | by rewrite IH].
Qed.

Lemma lookup_set_entry x c es :
  is_Some (lookup_entry x es) -> lookup_entry x (set_entry x c es) = Some c.
Proof.
  induction es as [|[y n] es IH]; simpl; intros [v Hv]; [done|].
  destruct (String.eqb_spec y x) as [->|Hne]; simpl.
  - by rewrite String.eqb_refl.
  - destruct (String.eqb_spec y x); [done | eauto].
Qed.

Lemma set_set_entry x a b es :
  set_entry x b (set_entry x a es) = set_entry x b es.
Proof.
  induction es as [|[y n] es IH]; simpl; [done|].
  destruct (String.eqb_spec y x) as [->|Hne]; simpl.
  - by rewrite String.eqb_refl.
  - destruct (String.eqb_spec y x); [done | by rewrite IH].
Qed.

Lemma set_entry_id x c es :
  lookup_entry x es = Some c -> set_entry x c es = es.
Proof.
  induction es as [|[y n] es IH]; simpl; [done|].
  destruct (String.eqb_spec y x) as [->|Hne]; [naive_solver|].
  intros H. by rewrite IH.
Qed.

Lemma lookup_remove_entry_ne x y es :
  x <> y -> lookup_entry x (remove_entry y es) = lookup_entry x es.
Proof.
  intros Hne. induction es as [|[z n] es IH]; simpl; [done|].
  destruct (String.eqb_spec z y) as [->|Hzy]; simpl.
  - destruct (String.eqb_spec y x); [congruence | done].
  - by rewrite IH.
Qed.

Lemma update_entry_lookup x f es c :
  lookup_entry x es = Some c ->
  update_entry x f es =
  match f c with inl e => inl e | inr c' => inr (set_entry x c' es) end.
Proof.
  induction es as [|[y n] es IH]; simpl; [done|].
  destruct (String.eqb_spec y x) as [->|Hne].
  - intros [= ->]. done.
  - intros H. rewrite (IH H). by destruct (f c).
Qed.

Lemma update_entry_missing x f es :
  lookup_entry x es = None -> update_entry x f es = inl FileNotFoundError.
Proof.
  induction es as [|[y n] es IH]; simpl; [done|].
  destruct (String.eqb_spec y x) as [->|Hne]; [done|].
  intros H. by rewrite (IH H).
Qed.

Lemma get_node_app p q t :
  get_node (p ++ q) t =
  match get_node p t with Some c => get_node q c | None => None end.
Proof.
  revert t. induction p as [|x p IH]; intros t; simpl; [done|].
  destruct t as [|st es]; [done|]. destruct (lookup_entry x es); auto.
Qed.

Lemma put_app p q v t c :
  get_node p t = Some c -> put (p ++ q) v t = put p (put q v c) t.
Proof.
  revert t. induction p as [|x p IH]; intros t; simpl.
  - by intros [= ->].
  - destruct t as [|st es]; [done|].
    destruct (lookup_entry x es) as [ch|]; [|done].
    intros H. by rewrite (IH _ H).
Qed.

Lemma get_put p c t :
  is_Some (get_node p t) -> get_node p (put p c t) = Some c.
Proof.
  revert t. induction p as [|x p IH]; intros t; simpl; [done|].
  destruct t as [|st es]; [by intros [? ?]|].
  destruct (lookup_entry x es) as [ch|] eqn:E; [|by intros [? ?]].
  intros H. simpl. rewrite lookup_set_entry by eauto. auto.
Qed.

Lemma put_put p c1 c2 t : put p c2 (put p c1 t) = put p c2 t.
Proof.
  revert t. induction p as [|x p IH]; intros t; simpl; [done|].
  destruct t as [|st es]; [done|].
  destruct (lookup_entry x es) as [ch|] eqn:E; simpl; [|by rewrite E].
  rewrite lookup_set_entry by eauto. by rewrite IH, set_set_entry.
Qed.

Lemma put_get_id p c t : get_node p t = Some c -> put p c t = t.
Proof.
  revert t. induction p as [|x p IH]; intros t; simpl; [congruence|].
  destruct t as [|st es]; [done|].
  destruct (lookup_entry x es) as [ch|] eqn:E; [|done].
  intros H. by rewrite (IH _ H), set_entry_id.
Qed.

Lemma update_at_get p f t c :
  get_node p t = Some c ->
  update_at p f t =
  match f c with inl e => inl e | inr c' => inr (put p c' t) end.
Proof.
  revert t. induction p as [|x p IH]; intros t; simpl.
  - intros [= ->]. by destruct (f c).
  - destruct t as [|st es]; [done|].
    destruct (lookup_entry x es) as [ch|] eqn:E; [|done].
    intros H. rewrite (update_entry_lookup _ _ _ _ E), (IH _ H).
    by destruct (f c).
Qed.

Lemma update_at_missing p f t :
  get_node p t = None -> exists e, update_at p f t = inl e.
Proof.
  revert t. induction p as [|x p IH]; intros t; simpl; [done|].
  destruct t as [|st es]; [eauto|].
  destruct (lookup_entry x es) as [ch|] eqn:E.
  - intros H. destruct (IH _ H) as [e He].
    rewrite (update_entry_lookup _ _ _ _ E), He. eauto.
  - rewrite update_entry_missing by done. eauto.
Qed.

(** ** The replayed walk and the recursion on the tree agree *)

Lemma os_rename_at p old new t st es :
  get_node p t = Some (Dir st es) ->
  os_rename p old new t =
  match rename_entry old new es with
  | inl e => (inl e, t)
  | inr es' => (inr tt, put p (Dir st es') t)
  end.
Proof.
  intros H. unfold os_rename, syscall. rewrite (update_at_get _ _ _ _ H).
  by destruct (rename_entry old new es).
Qed.

Lemma foldM_app {S A B} (f : B -> A -> ST S B) l1 l2 b s :
  foldM f (l1 ++ l2) b s =
  match foldM f l1 b s with
  | (inl e, s') => (inl e, s')
  | (inr b', s') => foldM f l2 b' s'
  end.
Proof.
  revert b s. induction l1 as [|a l1 IH]; intros b s; simpl; [done|].
  unfold bind. destruct (f b a s) as [[e|b'] s']; [done | apply IH].
Qed.

Lemma rename_loop_at p todo k t st es :
  get_node p t = Some (Dir st es) ->
  foldM (rename_spaced p) todo k t =
  let '(r, es') := foldM rename_spaced_entry todo k es in
  (r, put p (Dir st es') t).
Proof.
  revert k t es. induction todo as [|a todo IH]; intros k t es H; simpl.
  - unfold ret. by rewrite (put_get_id _ _ _ H).
  - unfold rename_spaced, rename_spaced_entry.
    destruct (has_space a); unfold bind.
    + rewrite (os_rename_at _ _ _ _ _ _ H).
      destruct (rename_entry a (dunder a) es) as [e|es'].
      * by rewrite (put_get_id _ _ _ H).
      * unfold ret at 1.
        rewrite (IH _ _ es') by (apply get_put; eauto).
        destruct (foldM _ todo (S k) es') as [r es'']. by rewrite put_put.
    + unfold ret at 1 2. by apply IH.
Qed.

Lemma replay_below p st es :
  Forall (fun e => forall p t k, wf (snd e) -> get_node p t = Some (snd e) ->
            foldM replace_spaces_entry (rev (walk p (snd e))) k t =
            let '(r, c') := norm (snd e) k in (r, put p c' t)) es ->
  forall pre t k,
    NoDup (names (pre ++ es)) ->
    Forall (fun e => wf (snd e)) es ->
    get_node p t = Some (Dir st (pre ++ es)) ->
    foldM replace_spaces_entry (rev (walk_entries p es)) k t =
    let '(r, es') := norm_below es k in (r, put p (Dir st (pre ++ es')) t).
Proof.
  induction 1 as [|[x c] es Hc Hes IH]; intros pre t k Hnd Hwf Hget; simpl.
  - unfold ret. by rewrite (put_get_id _ _ _ Hget).
  - apply Forall_cons in Hwf as [Hwfc Hwf].
    rewrite rev_app_distr, foldM_app.
    rewrite (IH (pre ++ [(x, c)])).
    2:{ by rewrite <- app_assoc. }
    2:{ done. }
    2:{ by rewrite <- app_assoc. }
    destruct (norm_below es k) as [[e|k1] es1];
      rewrite <- app_assoc; simpl app; [done|].
    simpl in Hc.
    assert (Hx : x ∉ names pre).
    { unfold names in Hnd. rewrite map_app in Hnd. simpl in Hnd.
      apply NoDup_app in Hnd as (_ & Hnd & _). intros Hin.
      apply (Hnd _ Hin). left. }
    set (t1 := put p (Dir st (pre ++ (x, c) :: es1)) t).
    assert (Hg1 : get_node p t1 = Some (Dir st (pre ++ (x, c) :: es1))).
    { apply get_put. eauto. }
    rewrite (Hc (p ++ [x]) t1 k1 Hwfc).
    + destruct (norm c k1) as [r c']. f_equal.
      rewrite (put_app _ _ _ _ _ Hg1). simpl.
      rewrite lookup_entry_app_fresh, set_entry_app_fresh by done.
      apply put_put.
    + rewrite get_node_app, Hg1. simpl.
      by rewrite lookup_entry_app_fresh.
Qed.

Lemma replay_norm c :
  forall p t k, wf c -> get_node p t = Some c ->
    foldM replace_spaces_entry (rev (walk p c)) k t =
    let '(r, c') := norm c k in (r, put p c' t).
Proof.
  induction c as [st d|st es IH] using node_ind; intros p t k Hwf Hget.
  - simpl. unfold ret. by rewrite (put_get_id _ _ _ Hget).
  - apply wf_Dir in Hwf as [Hnd Hwf].
    rewrite walk_Dir, norm_Dir. simpl rev. rewrite foldM_app.
    rewrite (replay_below p st es IH [] t k); try done.
    simpl app.
    destruct (norm_below es k) as [[e|k1] es1]; [done|].
    set (t1 := put p (Dir st es1) t).
    assert (Hg1 : get_node p t1 = Some (Dir st es1)).
    { apply get_put. eauto. }
    simpl. unfold bind at 1. unfold bind at 1.
    rewrite (rename_loop_at _ _ _ _ _ _ Hg1).
    destruct (foldM rename_spaced_entry (filenames es) k1 es1)
      as [[e|k2] es2]; [unfold t1; by rewrite put_put|].
    rewrite (rename_loop_at _ _ _ _ st es2) by (apply get_put; eauto).
    destruct (foldM rename_spaced_entry (dirnames es) k2 es2) as [r3 es3].
    unfold t1. rewrite !put_put. by destruct r3.
Qed.

(** ** What a completed run leaves behind *)

Lemma has_space_dunder s : has_space (dunder s) = false.
Proof.
  unfold has_space, dunder. induction s as [|a s IH]; simpl; [done|].
  destruct (Ascii.eqb_spec a " "%char) as [->|Hne]; simpl; [done|].
  destruct (Ascii.eqb_spec a " "%char); done.
Qed.



Lemma has_space_dunder_ne s : has_space s = true -> s <> dunder s.
Proof.
  intros H E. rewrite E in H. by rewrite has_space_dunder in H.
Qed.

Lemma lookup_entry_None x es : lookup_entry x es = None <-> x ∉ names es.
Proof.
  induction es as [|[y n] es IH]; simpl.
  - split; [intros _; apply not_elem_of_nil | done].
  - rewrite not_elem_of_cons.
    destruct (String.eqb_spec y x) as [->|Hne]; [naive_solver|].
    rewrite IH. naive_solver.
Qed.

Lemma lookup_entry_Some_names x es c :
  lookup_entry x es = Some c -> x ∈ names es.
Proof.
  intros H. destruct (decide (x ∈ names es)) as [|Hn]; [done|].
  apply lookup_entry_None in Hn. congruence.
Qed.

Section preserved.
Variable P : node -> Prop.

Lemma remove_entry_spec x es :
  NoDup (names es) -> Forall (fun e => P (snd e)) es ->
  NoDup (names (remove_entry x es)) /\
  Forall (fun e => P (snd e)) (remove_entry x es) /\
  (forall y, y ∈ names (remove_entry x es) <-> y ∈ names es /\ y <> x).
Proof.
  induction es as [|[y n] es IH]; simpl; intros Hnd HP.
  - split_and!; [done..|]. intros y. rewrite elem_of_nil. naive_solver.
  - apply NoDup_cons in Hnd as [Hy Hnd]. apply Forall_cons in HP as [Hn HP].
    destruct (String.eqb_spec y x) as [->|Hne].
    + split_and!; [done..|]. intros z. rewrite elem_of_cons.
      split; [intros Hz; split; [by right | by intros ->] | naive_solver].
    + destruct (IH Hnd HP) as (IH1 & IH2 & IH3). simpl. split_and!.
      * apply NoDup_cons. split; [|done]. rewrite IH3. naive_solver.
      * by apply Forall_cons.
      * intros z. rewrite !elem_of_cons, IH3. naive_solver.
Qed.

Lemma rename_in_place_spec old new es :
  NoDup (names es) -> Forall (fun e => P (snd e)) es ->
  new ∉ names es ->
  NoDup (names (rename_in_place old new es)) /\
  Forall (fun e => P (snd e)) (rename_in_place old new es) /\
  (forall y, y ∈ names (rename_in_place old new es) ->
             y = new \/ (y ∈ names es /\ y <> old)).
Proof.
  induction es as [|[y n] es IH]; simpl; intros Hnd HP Hnew.
  - split_and!; [done..|]. intros y. by rewrite elem_of_nil.
  - apply NoDup_cons in Hnd as [Hy Hnd]. apply Forall_cons in HP as [Hn HP].
    apply not_elem_of_cons in Hnew as [Hne Hnew].
    destruct (String.eqb_spec y old) as [->|Hne']; simpl.
    + split_and!.
      * by apply NoDup_cons.
      * by apply Forall_cons.
      * intros z. rewrite !elem_of_cons. intros [->|Hz]; [by left|].
        right. split; [by right | by intros ->].
    + destruct (IH Hnd HP Hnew) as (IH1 & IH2 & IH3). split_and!.
      * apply NoDup_cons. split; [|done]. intros Hin.
        destruct (IH3 _ Hin) as [->|[? ?]]; done.
      * by apply Forall_cons.
      * intros z. rewrite !elem_of_cons. intros [->|Hz]; [naive_solver|].
        destruct (IH3 _ Hz); naive_solver.
Qed.

Lemma rename_entry_spec old new es es' :
  NoDup (names es) -> Forall (fun e => P (snd e)) es ->
  old <> new ->
  rename_entry old new es = inr es' ->
  NoDup (names es') /\
  Forall (fun e => P (snd e)) es' /\
  (forall y, y ∈ names es' -> y = new \/ (y ∈ names es /\ y <> old)).
Proof.
  intros Hnd HP Hne. unfold rename_entry.
  destruct (lookup_entry old es) as [src|]; [|done].
  destruct (String.eqb_spec old new); [done|].
  destruct (remove_entry_spec new es Hnd HP) as (R1 & R2 & R3).
  assert (Hfresh : new ∉ names (remove_entry new es)).
  { rewrite R3. naive_solver. }
  pose proof (rename_in_place_spec old new _ R1 R2 Hfresh) as (S1 & S2 & S3).
  assert (Hcase : es' = rename_in_place old new (remove_entry new es) ->
    NoDup (names es') /\ Forall (fun e => P (snd e)) es' /\
    (forall y, y ∈ names es' -> y = new \/ (y ∈ names es /\ y <> old))).
  { intros ->. split_and!; [done..|]. intros y Hy.
    destruct (S3 _ Hy) as [->|[Hy' ?]]; [by left|].
    apply R3 in Hy'. naive_solver. }
  destruct (lookup_entry new es) as [[? ?|? [|? ?]]|] eqn:E;
    destruct src; intros [= <-]; try by apply Hcase.
  all: apply lookup_entry_None in E;
    by apply rename_in_place_spec.
Qed.

Lemma rename_loop_spec todo k es r es' :
  NoDup (names es) -> Forall (fun e => P (snd e)) es ->
  (forall x, x ∈ names es -> has_space x = true -> x ∈ todo) ->
  foldM rename_spaced_entry todo k es = (inr r, es') ->
  NoDup (names es') /\ Forall (fun e => P (snd e)) es' /\
  Forall (fun x => has_space x = false) (names es').
Proof.
  revert k es. induction todo as [|a todo IH]; intros k es Hnd HP Hall; simpl.
  - intros [= <- <-]. split_and!; [done..|]. apply Forall_forall.
    intros x Hx. destruct (has_space x) eqn:E; [|done].
    by apply Hall, elem_of_nil in E.
  - unfold bind, rename_spaced_entry.
    destruct (has_space a) eqn:Ha.
    + destruct (rename_entry a (dunder a) es) as [e|es1] eqn:E; [done|].
      apply rename_entry_spec in E as (E1 & E2 & E3);
        [|done..|by apply has_space_dunder_ne].
      apply IH; [done..|]. intros x Hx Hsp.
      destruct (E3 _ Hx) as [->|[Hx' Hne]].
      * by rewrite has_space_dunder in Hsp.
      * specialize (Hall _ Hx' Hsp). apply elem_of_cons in Hall.
        naive_solver.
    + unfold ret. apply IH; [done..|]. intros x Hx Hsp.
      specialize (Hall _ Hx Hsp). apply elem_of_cons in Hall.
      destruct Hall as [->|]; [congruence | done].
Qed.
End preserved.

Lemma names_split es x :
  x ∈ names es -> x ∈ filenames es ++ dirnames es.
Proof.
  unfold filenames, dirnames, names. rewrite elem_of_app, !list_elem_of_fmap.
  intros ([y n] & -> & Hin). simpl.
  destruct (is_dir n) eqn:E.
  - right. exists (y, n). split; [done|]. apply list_elem_of_filter.
    split; [by simpl; rewrite E | done].
  - left. exists (y, n). split; [done|]. apply list_elem_of_filter.
    split; [by simpl; rewrite E | done].
Qed.

Lemma norm_below_spec (Q : node -> Prop) es :
  Forall (fun e => forall k k' c', norm (snd e) k = (inr k', c') -> Q c') es ->
  forall k k1 es1, norm_below es k = (inr k1, es1) ->
    names es1 = names es /\ Forall (fun e => Q (snd e)) es1.
Proof.
  induction 1 as [|[x c] es Hc Hes IH]; intros k k1 es1; simpl.
  - intros [= <- <-]. done.
  - destruct (norm_below es k) as [[e|k0] es0] eqn:E; [done|].
    destruct (norm c k0) as [r c'] eqn:Ec. intros [= -> <-].
    destruct (IH _ _ _ E) as [IH1 IH2]. simpl. split; [by rewrite IH1|].
    apply Forall_cons. split; [|done]. simpl. eapply Hc, Ec.
Qed.

Lemma norm_no_space c :
  wf c -> forall k k' c', norm c k = (inr k', c') -> no_spaceb c' = true.
Proof.
  induction c as [st d|st es IH] using node_ind; intros Hwf k k' c'.
  - simpl. by intros [= <- <-].
  - apply wf_Dir in Hwf as [Hnd Hwf]. rewrite norm_Dir.
    destruct (norm_below es k) as [[e|k1] es1] eqn:E1; [done|].
    apply (norm_below_spec (fun c => no_spaceb c = true)) in E1 as [N1 N2].
    2:{ rewrite Forall_forall in IH, Hwf. apply Forall_forall.
        intros e He k0 k0' c0. apply IH; auto. }
    pose proof (foldM_app rename_spaced_entry (filenames es) (dirnames es)
                  k1 es1) as Happ.
    destruct (foldM rename_spaced_entry (filenames es) k1 es1)
      as [[e|k2] es2]; [done|].
    destruct (foldM rename_spaced_entry (dirnames es) k2 es2) as [r3 es3].
    intros [= -> <-].
    apply (rename_loop_spec (fun c => no_spaceb c = true)) in Happ
      as (_ & R2 & R3).
    + apply no_space_Dir. unfold names in R3. rewrite Forall_fmap in R3.
      rewrite Forall_forall in R2, R3. apply Forall_forall.
      intros e He. split; [by apply R3 | by apply R2].
    + by rewrite N1.
    + done.
    + rewrite N1. intros x Hx _. by apply names_split.
Qed.

Lemma rename_spaced_quiet root todo k t :
  Forall (fun x => has_space x = false) todo ->
  foldM (rename_spaced root) todo k t = (inr k, t).
Proof.
  induction 1 as [|a todo Ha _ IH]; simpl; [done|].
  unfold bind, rename_spaced. by rewrite Ha.
Qed.

Lemma replay_quiet l k t :
  Forall quiet l -> foldM replace_spaces_entry l k t = (inr k, t).
Proof.
  induction 1 as [|[[root dirs] files] l [Hd Hf] _ IH]; simpl; [done|].
  unfold bind. simpl in Hd, Hf.
  by rewrite (rename_spaced_quiet _ _ _ _ Hf), (rename_spaced_quiet _ _ _ _ Hd).
Qed.

Lemma walk_quiet c :
  no_spaceb c = true -> forall p, Forall quiet (walk p c).
Proof.
  induction c as [st d|st es IH] using node_ind; intros Hns p.
  - constructor.
  - apply no_space_Dir in Hns. rewrite walk_Dir. apply Forall_cons. split.
    + rewrite Forall_forall in Hns.
      split; simpl; unfold dirnames, filenames, names;
        rewrite Forall_fmap; apply Forall_forall; intros e He;
        apply list_elem_of_filter in He as [_ He]; by apply Hns.
    + unfold walk_entries. clear st.
      induction es as [|[x c] es IHes]; simpl; [constructor|].
      apply Forall_cons in Hns as [[_ Hc] Hns].
      apply Forall_cons in IH as [IHc IH].
      apply Forall_app. split; [by apply IHc | by apply IHes].
Qed.

Lemma replay_no_space c p k t :
  no_spaceb c = true ->
  foldM replace_spaces_entry (rev (walk p c)) k t = (inr k, t).
Proof.
  intros H. apply replay_quiet. apply Forall_forall. intros leaf Hin.
  apply list_elem_of_In, in_rev, list_elem_of_In in Hin.
  revert leaf Hin. apply Forall_forall. by apply walk_quiet.
Qed.

(** [replace_spaces_loop] on a well-formed tree is [norm] at the path. *)
Lemma replace_spaces_loop_norm p t c :
  get_node p t = Some c -> wf c ->
  replace_spaces_loop p t = let '(r, c') := norm c 0 in (r, put p c' t).
Proof.
  intros Hget Hwf. unfold replace_spaces_loop, bind, os_walk. rewrite Hget.
  by apply replay_norm.
Qed.

Lemma replace_spaces_loop_missing p t :
  get_node p t = None -> replace_spaces_loop p t = (inr 0%nat, t).
Proof.
  intros Hget. unfold replace_spaces_loop, bind, os_walk. by rewrite Hget.
Qed.

Lemma replace_spaces_loop_clean p t c :
  get_node p t = Some c -> no_spaceb c = true ->
  replace_spaces_loop p t = (inr 0%nat, t).
Proof.
  intros Hget Hns. unfold replace_spaces_loop, bind, os_walk. rewrite Hget.
  by apply replay_no_space.
Qed.

(** ** Trees without clashes are renamed completely *)

Lemma names_unique es x n1 n2 :
  NoDup (names es) -> (x, n1) ∈ es -> (x, n2) ∈ es -> n1 = n2.
Proof.
  induction es as [|[y n] es IH]; simpl; intros Hnd H1 H2.
  - by apply elem_of_nil in H1.
  - apply NoDup_cons in Hnd as [Hy Hnd].
    assert (Hin : forall m, (x, m) ∈ es -> x ∈ names es).
    { intros m Hm. apply list_elem_of_fmap. by exists (x, m). }
    apply elem_of_cons in H1 as [H1|H1];
      apply elem_of_cons in H2 as [H2|H2]; simplify_eq; try done.
    + destruct Hy. eauto.
    + destruct Hy. eauto.
    + eauto.
Qed.

Lemma todo_NoDup es : NoDup (names es) -> NoDup (filenames es ++ dirnames es).
Proof.
  intros Hnd. apply NoDup_app. unfold filenames, dirnames, names. split_and!.
  - eapply sublist_NoDup; [exact Hnd|].
    apply fmap_sublist, sublist_filter.
  - intros x Hf Hd.
    apply list_elem_of_fmap in Hf as ([y1 n1] & -> & Hf).
    apply list_elem_of_fmap in Hd as ([y2 n2] & Hy & Hd). simpl in Hy. subst.
    apply list_elem_of_filter in Hf as [Hf1 Hf2].
    apply list_elem_of_filter in Hd as [Hd1 Hd2]. simpl in *.
    rewrite (names_unique _ _ _ _ Hnd Hf2 Hd2) in Hf1.
    by destruct (is_dir n2).
  - eapply sublist_NoDup; [exact Hnd|].
    apply fmap_sublist, sublist_filter.
Qed.

Lemma todo_names es x : x ∈ filenames es ++ dirnames es -> x ∈ names es.
Proof.
  unfold filenames, dirnames, names.
  rewrite elem_of_app, !list_elem_of_fmap.
  intros [(e & -> & He)|(e & -> & He)];
    apply list_elem_of_filter in He as [_ He]; eauto.
Qed.



Lemma foldM_cons {S A B} (f : B -> A -> ST S B) a l b s :
  foldM f (a :: l) b s =
  match f b a s with
  | (inl e, s') => (inl e, s')
  | (inr b', s') => foldM f l b' s'
  end.
Proof. done. Qed.






(** ** Deepest first *)








(** ** A second run repeats the outcome of the first *)

Section loop_invariant.
Variable P : node -> Prop.

(** Whatever its outcome, the loop keeps the names distinct and the
    nodes as they were. *)
Lemma rename_loop_inv todo k es r es' :
  NoDup (names es) -> Forall (fun e => P (snd e)) es ->
  foldM rename_spaced_entry todo k es = (r, es') ->
  NoDup (names es') /\ Forall (fun e => P (snd e)) es'.
Proof.
  revert k es. induction todo as [|a todo IH]; intros k es Hnd HP.
  - simpl. by intros [= <- <-].
  - rewrite foldM_cons. unfold rename_spaced_entry at 1.
    destruct (has_space a) eqn:Ha.
    + destruct (rename_entry a (dunder a) es) as [e|es1] eqn:E.
      * by intros [= <- <-].
      * apply (rename_entry_spec P) in E as (E1 & E2 & _);
          [|done..|by apply has_space_dunder_ne].
        by apply IH.
    + unfold ret. by apply IH.
Qed.
End loop_invariant.

Lemma norm_is_dir c k : is_dir (snd (norm c k)) = is_dir c.
Proof.
  destruct c as [st d|st es]; [done|]. rewrite norm_Dir.
  destruct (norm_below es k) as [[e|k1] es1]; [done|].
  destruct (foldM _ (filenames es) k1 es1) as [[e|k2] es2]; [done|].
  by destruct (foldM _ (dirnames es) k2 es2).
Qed.

Lemma norm_below_shape es k :
  names (snd (norm_below es k)) = names es /\
  filenames (snd (norm_below es k)) = filenames es /\
  dirnames (snd (norm_below es k)) = dirnames es.
Proof.
  revert k. induction es as [|[x c] es IH]; intros k; simpl; [done|].
  destruct (IH k) as (I1 & I2 & I3).
  destruct (norm_below es k) as [[e|k1] es1]; simpl in *.
  - unfold filenames, dirnames in *. simpl.
    rewrite !filter_cons. simpl.
    destruct (is_dir c); simpl; rewrite ?decide_True, ?decide_False by done;
      simpl; by rewrite ?I1, ?I2, ?I3.
  - pose proof (norm_is_dir c k1) as Hd.
    destruct (norm c k1) as [r c']. simpl in *.
    unfold filenames, dirnames in *. simpl.
    rewrite !filter_cons. simpl. rewrite Hd.
    destruct (is_dir c); simpl; rewrite ?decide_True, ?decide_False by done;
      simpl; by rewrite ?I1, ?I2, ?I3.
Qed.

Lemma filenames_cons x n es :
  filenames ((x, n) :: es) =
  if is_dir n then filenames es else x :: filenames es.
Proof.
  unfold filenames. rewrite filter_cons. simpl.
  destruct (is_dir n); simpl; by rewrite ?decide_True, ?decide_False by done.
Qed.

Lemma dirnames_cons x n es :
  dirnames ((x, n) :: es) =
  if is_dir n then x :: dirnames es else dirnames es.
Proof.
  unfold dirnames. rewrite filter_cons. simpl.
  destruct (is_dir n); simpl; by rewrite ?decide_True, ?decide_False by done.
Qed.

Lemma loop_spaced todo k es :
  foldM rename_spaced_entry todo k es =
  foldM rename_spaced_entry (spaced todo) k es.
Proof.
  revert k es. induction todo as [|a todo IH]; intros k es; [done|].
  unfold spaced. simpl List.filter. destruct (has_space a) eqn:Ha.
  - rewrite !foldM_cons.
    destruct (rename_spaced_entry k a es) as [[e|k'] es']; [done | apply IH].
  - rewrite foldM_cons. unfold rename_spaced_entry at 1. rewrite Ha.
    apply IH.
Qed.

Lemma spaced_cons x l :
  spaced (x :: l) = if has_space x then x :: spaced l else spaced l.
Proof. done. Qed.

Lemma spaced_app l1 l2 : spaced (l1 ++ l2) = spaced l1 ++ spaced l2.
Proof. apply List.filter_app. Qed.

Lemma pending_remove x es :
  has_space x = false -> pending (remove_entry x es) = pending es.
Proof.
  intros Hx. unfold pending.
  assert (H : spaced (filenames (remove_entry x es)) = spaced (filenames es) /\
              spaced (dirnames (remove_entry x es)) = spaced (dirnames es)).
  { induction es as [|[y n] es [IH1 IH2]]; simpl; [done|].
    destruct (String.eqb_spec y x) as [->|Hne].
    - rewrite filenames_cons, dirnames_cons. unfold spaced.
      destruct (is_dir n); simpl; by rewrite Hx.
    - rewrite !filenames_cons, !dirnames_cons. unfold spaced in *.
      destruct (is_dir n); simpl; destruct (has_space y);
        by rewrite ?IH1, ?IH2. }
  destruct H as [-> ->]. done.
Qed.

Lemma spaced_absent a l :
  ~ a ∈ l ->
  List.filter (fun y => negb (String.eqb y a)) (spaced l) = spaced l.
Proof.
  intros Ha. apply forallb_filter_id, forallb_forall. intros y Hy.
  apply filter_In in Hy as [Hy _]. apply negb_true_iff, String.eqb_neq.
  intros ->. by apply Ha, list_elem_of_In.
Qed.

Lemma filenames_names es x : x ∈ filenames es -> x ∈ names es.
Proof. intros H. apply todo_names, elem_of_app. by left. Qed.

Lemma dirnames_names es x : x ∈ dirnames es -> x ∈ names es.
Proof. intros H. apply todo_names, elem_of_app. by right. Qed.

Lemma pending_rename a new es :
  NoDup (names es) -> has_space new = false ->
  pending (rename_in_place a new es) =
  List.filter (fun y => negb (String.eqb y a)) (pending es).
Proof.
  intros Hnd Hnew. unfold pending. rewrite List.filter_app.
  assert (H :
    spaced (filenames (rename_in_place a new es)) =
      List.filter (fun y => negb (String.eqb y a)) (spaced (filenames es)) /\
    spaced (dirnames (rename_in_place a new es)) =
      List.filter (fun y => negb (String.eqb y a)) (spaced (dirnames es))).
  { induction es as [|[y n] es IH]; simpl; [done|].
    apply NoDup_cons in Hnd as [Hy Hnd].
    destruct (String.eqb_spec y a) as [->|Hne].
    - rewrite !filenames_cons, !dirnames_cons.
      assert (Hf : ~ a ∈ filenames es)
        by (intros ?; by apply Hy, filenames_names).
      assert (Hd : ~ a ∈ dirnames es)
        by (intros ?; by apply Hy, dirnames_names).
      destruct (is_dir n); rewrite ?spaced_cons, ?Hnew;
        destruct (has_space a); simpl; rewrite ?String.eqb_refl; simpl;
        by rewrite ?spaced_absent.
    - destruct (IH Hnd) as [IH1 IH2].
      rewrite !filenames_cons, !dirnames_cons. unfold spaced in *.
      destruct (is_dir n); simpl; destruct (has_space y); simpl;
        rewrite ?IH1, ?IH2; try done;
        by destruct (String.eqb_spec y a).
  }
  destruct H as [-> ->]. done.
Qed.

Lemma pending_step es a es' :
  NoDup (names es) -> has_space a = true ->
  rename_entry a (dunder a) es = inr es' ->
  pending es' = List.filter (fun y => negb (String.eqb y a)) (pending es).
Proof.
  intros Hnd Ha. unfold rename_entry.
  destruct (lookup_entry a es) as [src|]; [|done].
  destruct (String.eqb_spec a (dunder a)) as [E|_].
  { by apply has_space_dunder_ne in Ha. }
  pose proof (has_space_dunder a) as Hd.
  destruct (remove_entry_spec (fun _ => True) (dunder a) es Hnd) as (R1 & _).
  { apply Forall_forall. done. }
  assert (Hcase : es' = rename_in_place a (dunder a)
                          (remove_entry (dunder a) es) ->
                  pending es' =
                  List.filter (fun y => negb (String.eqb y a)) (pending es)).
  { intros ->. by rewrite pending_rename, pending_remove. }
  destruct (lookup_entry (dunder a) es) as [[? ?|? [|? ?]]|];
    destruct src; intros [= <-]; try by apply Hcase.
  all: by apply pending_rename.
Qed.

Lemma list_filter_NoDup {A} (f : A -> bool) l :
  NoDup l -> NoDup (List.filter f l).
Proof.
  induction 1 as [|a l Ha Hl IH]; simpl; [constructor|].
  destruct (f a); [|done]. constructor; [|done].
  intros Hin%list_elem_of_In%filter_In. apply Ha, list_elem_of_In. tauto.
Qed.

Lemma pending_NoDup es : NoDup (names es) -> NoDup (pending es).
Proof.
  intros Hnd. unfold pending. rewrite <- spaced_app.
  apply list_filter_NoDup. by apply todo_NoDup.
Qed.

(** A loop that has failed fails again, in the same way, when it is run
    on the names that are left. *)
Lemma fail_again S :
  forall es k e es_cur,
    NoDup (names es) -> pending es = S ->
    foldM rename_spaced_entry S k es = (inl e, es_cur) ->
    forall k2,
      foldM rename_spaced_entry (pending es_cur) k2 es_cur = (inl e, es_cur).
Proof.
  induction S as [|a S IH]; intros es k e es_cur Hnd HS; [done|].
  assert (Ha : has_space a = true).
  { assert (Hin : In a (pending es)) by (rewrite HS; by left).
    unfold pending in Hin. rewrite <- spaced_app in Hin.
    by apply filter_In in Hin as [_ ?]. }
  rewrite foldM_cons. unfold rename_spaced_entry at 1. rewrite Ha.
  destruct (rename_entry a (dunder a) es) as [e'|es'] eqn:E.
  - intros [= <- <-] k2. rewrite HS, foldM_cons.
    unfold rename_spaced_entry at 1. by rewrite Ha, E.
  - intros Hrest. pose proof (pending_step _ _ _ Hnd Ha E) as Hstep.
    apply (rename_entry_spec (fun _ => True)) in E as (E1 & _);
      [|done|by apply Forall_forall|by apply has_space_dunder_ne].
    apply (IH es' (Datatypes.S k)); [done| |done].
    rewrite Hstep, HS. simpl. rewrite String.eqb_refl. simpl.
    pose proof (pending_NoDup _ Hnd) as HndS. rewrite HS in HndS.
    apply NoDup_cons in HndS as [HaS _].
    fold (List.filter (fun y => negb (String.eqb y a)) S).
    apply forallb_filter_id, forallb_forall. intros y Hy.
    apply negb_true_iff, String.eqb_neq. intros ->.
    by apply HaS, list_elem_of_In.
Qed.

Lemma rename_loop_quiet todo k es :
  Forall (fun x => has_space x = false) todo ->
  foldM rename_spaced_entry todo k es = (inr k, es).
Proof.
  induction 1 as [|a todo Ha _ IH]; [done|].
  rewrite foldM_cons. unfold rename_spaced_entry at 1. by rewrite Ha.
Qed.

(** A tree without spaces is left as it is. *)
Lemma norm_clean c : no_spaceb c = true -> forall k, norm c k = (inr k, c).
Proof.
  induction c as [st d|st es IH] using node_ind; intros Hns k; [done|].
  apply no_space_Dir in Hns. rewrite norm_Dir.
  assert (Hbelow : norm_below es k = (inr k, es)).
  { clear st. induction es as [|[x c] es IHes]; simpl; [done|].
    apply Forall_cons in IH as [IHc IH].
    apply Forall_cons in Hns as [[_ Hc] Hns]. simpl in *.
    by rewrite (IHes IH Hns), (IHc Hc). }
  rewrite Hbelow.
  assert (Hq : forall l, (forall x, x ∈ l -> x ∈ names es) ->
                         Forall (fun x => has_space x = false) l).
  { intros l Hl. apply Forall_forall. intros x Hx.
    apply Hl, list_elem_of_fmap in Hx as (e & -> & He).
    rewrite Forall_forall in Hns. by apply Hns. }
  rewrite rename_loop_quiet by (apply Hq, filenames_names).
  by rewrite rename_loop_quiet by (apply Hq, dirnames_names).
Qed.

Lemma norm_Dir_loops st es k :
  norm (Dir st es) k =
  match norm_below es k with
  | (inl e, es1) => (inl e, Dir st es1)
  | (inr k1, es1) =>
      let '(r, es3) :=
        foldM rename_spaced_entry (filenames es ++ dirnames es) k1 es1 in
      (r, Dir st es3)
  end.
Proof.
  rewrite norm_Dir. destruct (norm_below es k) as [[e|k1] es1]; [done|].
  rewrite foldM_app.
  by destruct (foldM rename_spaced_entry (filenames es) k1 es1)
    as [[e|k2] es2].
Qed.

Lemma below_twice es :
  Forall (fun e => wf (snd e) -> forall k r c1,
            norm (snd e) k = (r, c1) ->
            wf c1 /\
            forall k2,
              norm c1 k2 =
              (match r with inl e => inl e | inr _ => inr k2 end, c1)) es ->
  Forall (fun e => wf (snd e)) es ->
  forall k r es1,
    norm_below es k = (r, es1) ->
    Forall (fun e => wf (snd e)) es1 /\
    match r with
    | inl e => forall k2, norm_below es1 k2 = (inl e, es1)
    | inr _ => Forall (fun e => no_spaceb (snd e) = true) es1
    end.
Proof.
  induction 1 as [|[x c] es Hc _ IH]; intros Hwf k r es1; simpl.
  - by intros [= <- <-].
  - apply Forall_cons in Hwf as [Hwfc Hwf]. simpl in *.
    destruct (norm_below es k) as [[e|k1] l1] eqn:E.
    + intros [= <- <-]. destruct (IH Hwf _ _ _ E) as [W Hagain]. split.
      * by apply Forall_cons.
      * intros k2. simpl. by rewrite Hagain.
    + destruct (IH Hwf _ _ _ E) as [W Hclean].
      destruct (norm c k1) as [r2 c'] eqn:Ec. intros [= <- <-].
      destruct (Hc Hwfc _ _ _ Ec) as [Wc Hcagain]. split.
      * by apply Forall_cons.
      * destruct r2 as [e|k2'].
        -- intros k2. simpl.
           assert (Hl1 : norm_below l1 k2 = (inr k2, l1)).
           { clear -Hclean. induction l1 as [|[y m] l1 IHl]; simpl; [done|].
             apply Forall_cons in Hclean as [Hm Hclean]. simpl in *.
             by rewrite (IHl Hclean), (norm_clean _ Hm). }
           by rewrite Hl1, Hcagain.
        -- apply Forall_cons. split; [|done]. simpl.
           exact (norm_no_space c Hwfc _ _ _ Ec).
Qed.

(** The tree left by a run is well formed, and a second run on it ends
    as the first did without changing it. *)
Lemma norm_twice c :
  wf c -> forall k r c1,
    norm c k = (r, c1) ->
    wf c1 /\
    forall k2,
      norm c1 k2 = (match r with inl e => inl e | inr _ => inr k2 end, c1).
Proof.
  induction c as [st d|st es IH] using node_ind; intros Hwf k r c1.
  - simpl. by intros [= <- <-].
  - intros Hrun. pose proof Hwf as Hwf0.
    apply wf_Dir in Hwf as [Hnd Hwf].
    pose proof Hrun as Hrun0. rewrite norm_Dir_loops in Hrun.
    pose proof (norm_below_shape es k) as (N1 & N2 & N3).
    destruct (norm_below es k) as [[e|k1] es1] eqn:E1; simpl in N1, N2, N3.
    + (* a sub-directory failed *)
      injection Hrun as <- <-.
      destruct (below_twice es IH Hwf _ _ _ E1) as [W Hagain]. split.
      * apply wf_Dir. by rewrite N1.
      * intros k2. by rewrite norm_Dir_loops, Hagain.
    + destruct (below_twice es IH Hwf _ _ _ E1) as [W Hclean].
      destruct (foldM rename_spaced_entry (filenames es ++ dirnames es)
                  k1 es1) as [rr es3] eqn:E3.
      injection Hrun as <- <-.
      assert (Hnd1 : NoDup (names es1)) by by rewrite N1.
      destruct (rename_loop_inv (fun c => wf c) _ _ _ _ _ Hnd1 W E3)
        as [Hnd3 W3].
      split; [by apply wf_Dir|].
      destruct rr as [e|k3].
      * (* a rename failed *)
        intros k2. rewrite norm_Dir_loops.
        destruct (rename_loop_inv (fun c => no_spaceb c = true)
                    _ _ _ _ _ Hnd1 Hclean E3) as [_ Hclean3].
        assert (Hl3 : norm_below es3 k2 = (inr k2, es3)).
        { clear -Hclean3.
          induction es3 as [|[y m] l IHl]; simpl; [done|].
          apply Forall_cons in Hclean3 as [Hm Hclean3]. simpl in *.
          by rewrite (IHl Hclean3), (norm_clean _ Hm). }
        rewrite Hl3, loop_spaced, spaced_app.
        fold (pending es3).
        rewrite loop_spaced, spaced_app, <- N2, <- N3 in E3.
        fold (pending es1) in E3.
        by rewrite (fail_again _ _ _ _ _ Hnd1 eq_refl E3).
      * intros k2. apply norm_clean.
        exact (norm_no_space _ Hwf0 _ _ _ Hrun0).
Qed.

(** ** What becomes of an entry whose name has a space *)






(** ** [replace_spaces_in_names] *)

Lemma world_eta w : mk_world (fs w) (logs w) = w.
Proof. by destruct w. Qed.

Lemma replace_spaces_in_names_run p w :
  replace_spaces_in_names p w =
  match replace_spaces_loop p (fs w) with
  | (inl e, t) => (inl e, mk_world t (logs w))
  | (inr k, t) =>
      (inr tt,
       mk_world t (if (0 <? k)%nat
                   then logs w ++ [(WARNING, MsgReplaced k p)]
                   else logs w))
  end.
Proof.
  unfold replace_spaces_in_names, bind, lift_fs.
  destruct (replace_spaces_loop p (fs w)) as [[e|k] t]; [done|].
  by destruct (0 <? k)%nat.
Qed.

Lemma replace_spaces_in_names_clean p w :
  under p no_spaceb (fs w) = true ->
  replace_spaces_in_names p w = (inr tt, w).
Proof.
  unfold under. intros H. rewrite replace_spaces_in_names_run.
  destruct (get_node p (fs w)) as [c|] eqn:E.
  - rewrite (replace_spaces_loop_clean _ _ _ E H). simpl. by rewrite world_eta.
  - rewrite (replace_spaces_loop_missing _ _ E). simpl. by rewrite world_eta.
Qed.





Lemma lookup_entry_wf x ch st es :
  wf (Dir st es) -> lookup_entry x es = Some ch -> wf ch.
Proof.
  intros [_ Hwf]%wf_Dir. induction es as [|[y c] es IH]; simpl; [done|].
  apply Forall_cons in Hwf as [Hc Hwf].
  destruct (String.eqb_spec y x); [by intros [= <-] | by apply IH].
Qed.









(** ** The latest-timestamp resolver *)

Lemma coll_walk_unfold n m subs objs :
  coll_walk (Collection n m subs objs) =
  (Collection n m subs objs, subs, objs) :: flat_map coll_walk subs.
Proof.
  reflexivity.
Qed.

Lemma walked_objects_unfold n m subs objs :
  walked_objects (Collection n m subs objs) =
  objs ++ flat_map walked_objects subs.
Proof.
  unfold walked_objects. rewrite coll_walk_unfold. simpl. f_equal.
  induction subs as [|s subs IH]; simpl; [done|].
  by rewrite flat_map_app, IH.
Qed.

Lemma walked_objects_contains c o : In o (walked_objects c) <-> contains c o.
Proof.
  induction c as [n m subs objs IH] using collection_ind.
  rewrite walked_objects_unfold, in_app_iff, in_flat_map. split.
  - intros [Ho|(s & Hs & Ho)].
    + by apply contains_here.
    + apply contains_below with s; [done|].
      rewrite Forall_forall in IH. apply IH; [|done]. by apply list_elem_of_In.
  - inversion 1 as [? ? Ho|? s ? Hs Ho]; subst; simpl in *; [by left|].
    right. exists s. split; [done|].
    rewrite Forall_forall in IH. apply IH; [|done]. by apply list_elem_of_In.
Qed.

Lemma fold_max_spec l x :
  (x <= fold_left Z.max l x) /\
  (forall y, In y l -> y <= fold_left Z.max l x) /\
  (fold_left Z.max l x = x \/ In (fold_left Z.max l x) l).
Proof.
  revert x. induction l as [|a l IH]; intros x; simpl.
  - split_and!; [lia | done | by left].
  - destruct (IH (Z.max x a)) as (H1 & H2 & H3). split_and!.
    + lia.
    + intros y [->|Hy]; [lia | by apply H2].
    + destruct H3 as [H3|H3]; [|by right; right].
      rewrite H3. destruct (Z.max_spec x a) as [[_ ->]|[_ ->]]; auto.
Qed.

Lemma py_max_spec l :
  match py_max l with
  | inl e => e = ValueError /\ l = []
  | inr m => In m l /\ forall y, In y l -> y <= m
  end.
Proof.
  destruct l as [|x l]; simpl; [done|].
  destruct (fold_max_spec l x) as (H1 & H2 & H3). split.
  - destruct H3 as [->|H3]; auto.
  - intros y [<-|Hy]; auto.
Qed.

(** C6. On a collection without data objects the resolver raises (the
    [ValueError] of [max] on an empty sequence); otherwise it returns the
    modification time of one of the contained objects, and none is later. *)
Theorem latest_timestamp_empty_fails proxy resource_id c :
  collections_get proxy resource_id = Some c ->
  ((forall o, ~ contains c o) ->
   get_latest_resource_timestamp proxy resource_id = inl ValueError) /\
  (forall o, contains c o ->
   exists ts,
     get_latest_resource_timestamp proxy resource_id = inr ts /\
     (exists o', contains c o' /\ modify_time o' = ts) /\
     (forall o', contains c o' -> modify_time o' <= ts)).
Proof.
  intros Hget. unfold get_latest_resource_timestamp. rewrite Hget.
  fold (walked_objects c).
  pose proof (py_max_spec (map modify_time (walked_objects c))) as Hmax.
  split.
  - intros Hnone. destruct (walked_objects c) as [|o l] eqn:E; [done|].
    destruct (Hnone o). apply walked_objects_contains. rewrite E. by left.
  - intros o Ho. apply walked_objects_contains in Ho.
    destruct (py_max _) as [e|ts].
    + destruct Hmax as [_ Hnil]. apply map_eq_nil in Hnil.
      rewrite Hnil in Ho. done.
    + destruct Hmax as [Hin Hle]. exists ts. split_and!; [done|..].
      * apply in_map_iff in Hin as (o' & <- & Ho'). exists o'.
        split; [by apply walked_objects_contains | done].
      * intros o' Ho'. apply Hle, in_map. by apply walked_objects_contains.
Qed.

(** ** Names that end in [.nc] *)

Lemma substring_all s : substring 0 (String.length s) s = s.
Proof. induction s as [|a s IH]; simpl; [done|]. by rewrite IH. Qed.

Lemma substring_skip (pre suf : string) :
  substring (String.length pre) (String.length suf) (pre ++ suf) = suf.
Proof. induction pre as [|a pre IH]; simpl; [apply substring_all | done]. Qed.

Lemma substring_split k s :
  (k <= String.length s)%nat ->
  s = (substring 0 k s ++ substring k (String.length s - k) s)%string.
Proof.
  revert s. induction k as [|k IH]; intros s Hk.
  - rewrite Nat.sub_0_r, substring_all. by destruct s.
  - destruct s as [|a s]; simpl in *; [lia|].
    change (String a s =
            String a (substring 0 k s ++
                      substring k (String.length s - k) s)%string).
    f_equal. apply IH. lia.
Qed.

Lemma string_length_app (a b : string) :
  String.length (a ++ b) = (String.length a + String.length b)%nat.
Proof. induction a as [|c a IH]; simpl; [done|]. by rewrite IH. Qed.

Lemma str_endswith_spec s suf :
  str_endswith s suf = true <-> exists pre : string, s = (pre ++ suf)%string.
Proof.
  unfold str_endswith. split.
  - destruct (Nat.leb_spec (String.length suf) (String.length s)) as [Hle|];
      [|done].
    intros E%String.eqb_eq.
    exists (substring 0 (String.length s - String.length suf) s).
    rewrite (substring_split (String.length s - String.length suf) s) at 1
      by lia.
    f_equal.
    replace (String.length s - (String.length s - String.length suf))%nat
      with (String.length suf) by lia.
    exact E.
  - intros [pre ->]. rewrite string_length_app.
    destruct (Nat.leb_spec (String.length suf)
                (String.length pre + String.length suf)) as [_|]; [|lia].
    replace (String.length pre + String.length suf - String.length suf)%nat
      with (String.length pre) by lia.
    rewrite substring_skip. apply String.eqb_refl.
Qed.

Lemma str_lower_app (a b : string) :
  str_lower (a ++ b) = (str_lower a ++ str_lower b)%string.
Proof. induction a as [|c a IH]; simpl; [done|]. by rewrite IH. Qed.

Lemma str_lower_split s (a b : string) :
  str_lower s = (a ++ b)%string ->
  exists a' b' : string,
    s = (a' ++ b')%string /\ str_lower a' = a /\ str_lower b' = b.
Proof.
  revert s. induction a as [|c a IH]; intros s; simpl.
  - intros E. by exists EmptyString, s.
  - destruct s as [|d s]; simpl; [done|]. intros [= Hd Hs].
    destruct (IH _ Hs) as (a' & b' & -> & Ha & Hb).
    exists (String d a'), b'. simpl. by rewrite Hd, Ha.
Qed.

Lemma ascii_lower_dot a : ascii_lower a = "."%char -> a = "."%char.
Proof.
  destruct a as [[] [] [] [] [] [] [] []]; vm_compute; intros H;
    first [discriminate H | reflexivity].
Qed.

Lemma ascii_lower_n a :
  ascii_lower a = "n"%char -> a = "n"%char \/ a = "N"%char.
Proof.
  destruct a as [[] [] [] [] [] [] [] []]; vm_compute; intros H;
    first [discriminate H | by left | by right].
Qed.

Lemma ascii_lower_c a :
  ascii_lower a = "c"%char -> a = "c"%char \/ a = "C"%char.
Proof.
  destruct a as [[] [] [] [] [] [] [] []]; vm_compute; intros H;
    first [discriminate H | by left | by right].
Qed.

Lemma netcdf_name_spec s :
  str_endswith (str_lower s) NETCDF_EXTENSION = true <-> ends_with_nc s.
Proof.
  rewrite str_endswith_spec. unfold ends_with_nc, NETCDF_EXTENSION. split.
  - intros [pre E]. apply str_lower_split in E as (stem & ext & -> & _ & E).
    exists stem, ext. split; [done|].
    destruct ext as [|c1 [|c2 [|c3 [|c4 ext]]]]; simpl in E; try done.
    injection E as E1%ascii_lower_dot E2%ascii_lower_n E3%ascii_lower_c.
    subst c1. destruct E2 as [-> | ->], E3 as [-> | ->]; simpl; auto.
  - intros (stem & ext & -> & Hext). exists (str_lower stem).
    rewrite str_lower_app. f_equal.
    simpl in Hext. destruct Hext as [<-|[<-|[<-|[<-|[]]]]]; reflexivity.
Qed.

(** ** The source inventory *)

Lemma logger_run lv msg w :
  logger lv msg w = (inr tt, mk_world (fs w) (logs w ++ [(lv, msg)])).
Proof. done. Qed.

Lemma keep_netcdf_loop public acc w :
  exists lg,
    foldM keep_netcdf public acc w =
    (inr (acc ++ map coll_name (List.filter has_netcdf public)),
     mk_world (fs w) (logs w ++ lg)).
Proof.
  revert acc w. induction public as [|c public IH]; intros acc w.
  - exists []. simpl. unfold ret. by rewrite !app_nil_r, world_eta.
  - rewrite foldM_cons. unfold keep_netcdf at 1, has_netcdf. simpl.
    destruct (netcdf_objects c) as [|o l].
    + unfold ret. apply IH.
    + unfold bind, logger, ret. simpl.
      match goal with
      | |- context [foldM keep_netcdf public ?a ?w'] =>
          destruct (IH a w') as [lg ->]
      end.
      simpl. eexists. by rewrite <- !app_assoc.
Qed.

Lemma with_timestamp_loop proxy ids acc w :
  (forall id, In id ids ->
     exists ts, get_latest_resource_timestamp proxy id = inr ts) ->
  exists inv,
    foldM (with_timestamp proxy) ids acc w = (inr (acc ++ inv), w) /\
    map fst inv = ids.
Proof.
  revert acc. induction ids as [|id ids IH]; intros acc Hts.
  - exists []. simpl. unfold ret. by rewrite app_nil_r.
  - rewrite foldM_cons. unfold with_timestamp at 1, bind, lift_result, ret.
    destruct (Hts id) as [ts ->]; [by left|].
    destruct (IH (acc ++ [(id, ts)])) as (inv & -> & Hinv).
    { intros id' Hid'. apply Hts. by right. }
    exists ((id, ts) :: inv). rewrite <- app_assoc. simpl. by rewrite Hinv.
Qed.

Lemma find_by_name subs c :
  NoDup (map coll_name subs) -> In c subs ->
  List.find (fun c' => String.eqb (coll_name c') (coll_name c)) subs = Some c.
Proof.
  induction subs as [|s subs IH]; simpl; intros Hnd Hin; [done|].
  apply NoDup_cons in Hnd as [Hs Hnd].
  destruct Hin as [->|Hin]; [by rewrite String.eqb_refl|].
  destruct (String.eqb_spec (coll_name s) (coll_name c)) as [E|_]; [|auto].
  destruct Hs. rewrite E. apply list_elem_of_In. by apply in_map.
Qed.

Lemma has_netcdf_spec c :
  has_netcdf c = true <->
  exists o, contains c o /\ ends_with_nc (obj_name o).
Proof.
  unfold has_netcdf, netcdf_objects. rewrite <- flat_map_concat_map.
  fold (walked_objects c).
  set (f := fun obj => str_endswith (str_lower (obj_name obj)) NETCDF_EXTENSION).
  split.
  - destruct (List.filter f (walked_objects c)) as [|o l] eqn:E; [done|].
    intros _. assert (Ho : In o (List.filter f (walked_objects c))).
    { rewrite E. by left. }
    apply filter_In in Ho as [Ho Hf]. exists o.
    split; [by apply walked_objects_contains | by apply netcdf_name_spec].
  - intros (o & Ho & Hnc).
    assert (Hin : In o (List.filter f (walked_objects c))).
    { apply filter_In. split; [by apply walked_objects_contains|].
      by apply netcdf_name_spec. }
    by destruct (List.filter f (walked_objects c)).
Qed.

Lemma is_public_spec c :
  is_public c = true <->
  coll_metadata c !! IS_PUBLIC_KEY = Some IS_PUBLIC_VALUE.
Proof.
  unfold is_public, IS_PUBLIC_KEY.
  destruct (coll_metadata c !! "isPublic") as [v|] eqn:E; simpl.
  - rewrite String.eqb_eq. naive_solver.
  - naive_solver.
Qed.

Lemma has_netcdf_timestamp proxy c :
  NoDup (map coll_name (coll_subcollections proxy)) ->
  In c (coll_subcollections proxy) -> has_netcdf c = true ->
  exists ts, get_latest_resource_timestamp proxy (coll_name c) = inr ts.
Proof.
  intros Hnd Hin (o & Ho & _)%has_netcdf_spec.
  unfold get_latest_resource_timestamp, collections_get.
  rewrite (find_by_name _ _ Hnd Hin). fold (walked_objects c).
  apply walked_objects_contains in Ho.
  destruct (walked_objects c) as [|o' l]; [done|]. simpl. eauto.
Qed.

(** C5. With the names of the collections below the proxy root distinct,
    the scan returns, leaves the catalog alone, and lists a collection if
    and only if its name is not excluded, its [isPublic] annotation is
    exactly ["true"], and it contains an object whose name ends in [.nc]
    in any case. *)
Theorem scan_source_inventory proxy w :
  NoDup (map coll_name (coll_subcollections proxy)) ->
  exists inv w',
    scan_source proxy w = (inr inv, w') /\
    fs w' = fs w /\
    forall c, In c (coll_subcollections proxy) ->
      (In (coll_name c) (map fst inv) <-> eligible c).
Proof.
  intros Hnd. unfold scan_source.
  set (included := List.filter _ (coll_subcollections proxy)).
  set (public := List.filter is_public included).
  unfold bind at 1. rewrite logger_run.
  unfold bind at 1. rewrite logger_run.
  unfold bind at 1.
  match goal with
  | |- context [foldM keep_netcdf public [] ?w'] =>
      destruct (keep_netcdf_loop public [] w') as [lg ->]
  end.
  simpl app. unfold bind at 1. rewrite logger_run.
  set (ids := map coll_name (List.filter has_netcdf public)).
  assert (Hids : forall id, In id ids <->
            exists c, In c (coll_subcollections proxy) /\ coll_name c = id /\
                      eligible c).
  { intros id. unfold ids, public, included.
    rewrite in_map_iff. split.
    - intros (c & <- & Hc). exists c.
      apply filter_In in Hc as [Hc ?%has_netcdf_spec].
      apply filter_In in Hc as [Hc ?%is_public_spec].
      apply filter_In in Hc as [Hc Hex].
      unfold eligible. split_and!; try done.
      apply negb_true_iff, bool_decide_eq_false in Hex.
      intros Hin. by apply Hex, list_elem_of_In.
    - intros (c & Hc & <- & Hex & Hpub & Hnc). exists c. split; [done|].
      apply filter_In. split; [|by apply has_netcdf_spec].
      apply filter_In. split; [|by apply is_public_spec].
      apply filter_In. split; [done|].
      apply negb_true_iff, bool_decide_eq_false.
      intros Hin. by apply Hex, list_elem_of_In. }
  match goal with
  | |- context [foldM (with_timestamp proxy) ids [] ?w'] =>
      destruct (with_timestamp_loop proxy ids [] w') as (inv & -> & Hinv)
  end.
  { intros id (c & Hc & <- & _ & _ & Hnc)%Hids.
    apply has_netcdf_timestamp; [done..|]. by apply has_netcdf_spec. }
  exists inv. eexists. split; [done|]. split; [done|].
  intros c Hc. simpl. rewrite Hinv, Hids. split.
  - intros (c' & Hc' & Hn & Hel). replace c with c'; [done|].
    pose proof (find_by_name _ _ Hnd Hc) as F1.
    pose proof (find_by_name _ _ Hnd Hc') as F2.
    rewrite Hn in F2. congruence.
  - intros Hel. eauto.
Qed.

(** ** The decision of the first loop *)

Lemma publishing_ids_app l1 l2 :
  publishing_ids (l1 ++ l2) = publishing_ids l1 ++ publishing_ids l2.
Proof. unfold publishing_ids. apply flat_map_app. Qed.

Lemma recorded_None id dest :
  recorded id dest = None <-> ~ In id (map fst dest).
Proof.
  induction dest as [|[x ts] dest IH]; simpl; [naive_solver|].
  destruct (String.eqb_spec x id) as [->|Hne]; [naive_solver|].
  rewrite IH. naive_solver.
Qed.

Lemma index_recorded id dest :
  In id (map fst dest) ->
  map snd dest !! py_index id (map fst dest) = recorded id dest.
Proof.
  induction dest as [|[x ts] dest IH]; simpl; [done|].
  destruct (String.eqb_spec x id) as [->|Hne]; [done|].
  intros [?|Hin]; [done | by apply IH].
Qed.

Lemma due_recorded dest source :
  due dest source =
  match recorded (fst source) dest with
  | None => true
  | Some destination_timestamp => Z.gtb (snd source) destination_timestamp
  end.
Proof.
  unfold due. case_bool_decide as Hin; simpl.
  - apply list_elem_of_In in Hin. rewrite index_recorded by done.
    destruct (recorded (fst source) dest) eqn:E; [done|].
    by apply recorded_None in E.
  - assert (E : recorded (fst source) dest = None).
    { apply recorded_None. intros ?. by apply Hin, list_elem_of_In. }
    by rewrite E.
Qed.

Lemma due_spec dest id ts :
  due dest (id, ts) = true <->
  ~ In id (map fst dest) \/
  exists destination_ts, recorded id dest = Some destination_ts /\
                         destination_ts < ts.
Proof.
  rewrite due_recorded. simpl.
  destruct (recorded id dest) as [dts|] eqn:E.
  - rewrite Z.gtb_lt. split; [eauto|].
    intros [Hn|(? & [= <-] & ?)]; [|done].
    apply recorded_None in Hn. congruence.
  - apply recorded_None in E. naive_solver.
Qed.

(** ** The publisher *)

Section publisher_proofs.
Variable proxy : collection.
Variable iget : string -> node -> completed_process * node.

(** [publish_resource], step by step. *)
Lemma publish_resource_run resource_id w :
  publish_resource proxy iget resource_id w =
  let lg0 := logs w ++ [(INFO, MsgPublishing resource_id)] in
  match get_latest_resource_timestamp proxy resource_id with
  | inl e => (inl e, mk_world (fs w) lg0)
  | inr ts =>
      let '(proc, t1) := iget resource_id (fs w) in
      if negb (Z.eqb (returncode proc) 0) then
        (inl (NetCDFPublicationError resource_id (returncode proc)
                                     (stdout proc) (stderr proc)),
         mk_world t1
           (lg0 ++ [(ERROR, MsgPublishFailed resource_id (returncode proc)
                                             (stdout proc) (stderr proc))]))
      else
        match rchmod [resource_id] FILE_MODE t1 with
        | (inl e, t2) => (inl e, mk_world t2 lg0)
        | (inr _, t2) =>
            match replace_spaces_loop [resource_id] t2 with
            | (inl e, t3) => (inl e, mk_world t3 lg0)
            | (inr k, t3) =>
                let lg3 :=
                  if (0 <? k)%nat
                  then lg0 ++ [(WARNING, MsgReplaced k [resource_id])]
                  else lg0 in
                match os_utime [resource_id] (ts, ts) t3 with
                | (inl e, t4) => (inl e, mk_world t4 lg3)
                | (inr _, t4) =>
                    (inr tt,
                     mk_world t4
                       (lg3 ++ [(INFO, MsgPublished resource_id ts)]))
                end
            end
        end
  end.
Proof.
  unfold publish_resource. unfold bind at 1. rewrite logger_run.
  unfold bind at 1. unfold lift_result at 1.
  destruct (get_latest_resource_timestamp proxy resource_id) as [e|ts];
    [done|].
  unfold bind at 1. unfold popen_iget at 1. simpl fs. simpl logs.
  destruct (iget resource_id (fs w)) as [proc t1].
  destruct (negb (Z.eqb (returncode proc) 0)); [done|].
  unfold bind at 1. unfold lift_fs at 1. simpl fs. simpl logs.
  destruct (rchmod [resource_id] FILE_MODE t1) as [[e|[]] t2]; [done|].
  unfold bind at 1. rewrite replace_spaces_in_names_run. simpl fs. simpl logs.
  destruct (replace_spaces_loop [resource_id] t2) as [[e|k] t3]; [done|].
  unfold bind at 1. unfold lift_fs at 1. simpl fs. simpl logs.
  destruct (os_utime [resource_id] (ts, ts) t3) as [[e|[]] t4]; [done|].
  by rewrite logger_run.
Qed.

(** Each call of [publish_resource] shows once in the log. *)
Lemma publish_resource_logged resource_id w :
  publishing_ids (logs (snd (publish_resource proxy iget resource_id w))) =
  publishing_ids (logs w) ++ [resource_id].
Proof.
  rewrite publish_resource_run. cbv zeta.
  destruct (get_latest_resource_timestamp proxy resource_id) as [e|ts];
    simpl; [by rewrite publishing_ids_app|].
  destruct (iget resource_id (fs w)) as [proc t1].
  destruct (negb (Z.eqb (returncode proc) 0)); simpl.
  { rewrite !publishing_ids_app. simpl. by rewrite app_nil_r. }
  destruct (rchmod [resource_id] FILE_MODE t1) as [[e|[]] t2]; simpl;
    [by rewrite publishing_ids_app|].
  destruct (replace_spaces_loop [resource_id] t2) as [[e|k] t3]; simpl;
    [by rewrite publishing_ids_app|].
  destruct (os_utime [resource_id] (ts, ts) t3) as [[e|[]] t4];
    destruct (0 <? k)%nat; simpl;
    rewrite !publishing_ids_app; simpl; by rewrite ?app_nil_r.
Qed.

(** One iteration of the first loop. *)
Lemma sync_source_item_run dest source w :
  sync_source_item proxy iget (map fst dest) (map snd dest) tt source w =
  if due dest source then
    match publish_resource proxy iget (fst source)
            (log_append w [(INFO, due_message dest source)]) with
    | (inl e, w') =>
        if is_publication_error e
        then (inr tt, log_append w' [(WARNING, MsgIncomplete)])
        else (inl e, w')
    | (inr _, w') => (inr tt, w')
    end
  else (inr tt, w).
Proof.
  destruct source as [id ts]. rewrite due_recorded.
  unfold sync_source_item, try_except_publication, due_message. simpl.
  case_bool_decide as Hin; simpl.
  - apply list_elem_of_In in Hin. rewrite index_recorded by done.
    destruct (recorded id dest) as [dts|] eqn:E.
    + destruct (Z.gtb ts dts); [|done].
      unfold bind at 1. rewrite logger_run. fold (log_append w [(INFO, MsgStale id ts dts)]).
      by destruct (publish_resource _ _ _ _) as [[e|[]] w'].
    + by apply recorded_None in E.
  - assert (E : recorded id dest = None).
    { apply recorded_None. intros ?. by apply Hin, list_elem_of_In. }
    rewrite E. unfold bind at 1. rewrite logger_run.
    fold (log_append w [(INFO, MsgNotInDestination id)]).
    by destruct (publish_resource _ _ _ _) as [[e|[]] w'].
Qed.
End publisher_proofs.

Lemma due_message_silent dest source :
  publishing_ids [(INFO, due_message dest source)] = [].
Proof. unfold due_message. by destruct (recorded _ _). Qed.


Section publish_phase_proofs.
Variable proxy : collection.
Variable iget : string -> node -> completed_process * node.

Lemma publish_phase_trace source dest w :
  exists k,
    (k <= length source)%nat /\
    publishing_ids
      (logs (snd (sync_publish_phase proxy iget source dest w))) =
    publishing_ids (logs w) ++
    map fst (List.filter (due dest) (firstn k source)) /\
    match fst (sync_publish_phase proxy iget source dest w) with
    | inr _ => k = length source
    | inl e => is_publication_error e = false
    end.
Proof.
  unfold sync_publish_phase. revert w.
  induction source as [|a source IH]; intros w.
  - exists 0%nat. simpl. by rewrite app_nil_r.
  - rewrite foldM_cons, sync_source_item_run.
    destruct (due dest a) eqn:Hdue.
    + pose proof (publish_resource_logged proxy iget (fst a)
                    (log_append w [(INFO, due_message dest a)])) as Hlog.
      simpl in Hlog. rewrite publishing_ids_app, due_message_silent,
        app_nil_r in Hlog.
      destruct (publish_resource proxy iget (fst a) _) as [[e|[]] w'].
      * destruct (is_publication_error e) eqn:He.
        -- destruct (IH (log_append w' [(WARNING, MsgIncomplete)]))
             as (k & Hk & Hids & Hres).
           exists (S k). split; [simpl; lia|].
           split; [|revert Hres; destruct (fst (foldM _ _ _ _)); simpl; congruence].
           rewrite Hids. simpl. rewrite Hdue, publishing_ids_app. simpl.
           simpl in Hlog. rewrite Hlog, app_nil_r, <- app_assoc. done.
        -- exists 1%nat. split; [simpl; lia|]. simpl. rewrite Hdue.
           split; [|done]. simpl in Hlog. by rewrite Hlog.
      * destruct (IH w') as (k & Hk & Hids & Hres).
        exists (S k). split; [simpl; lia|].
        split; [|revert Hres; destruct (fst (foldM _ _ _ _)); simpl; congruence].
        rewrite Hids. simpl. rewrite Hdue. simpl in Hlog.
        rewrite Hlog, <- app_assoc. done.
    + destruct (IH w) as (k & Hk & Hids & Hres).
      exists (S k). split; [simpl; lia|].
      split; [|revert Hres; destruct (fst (foldM _ _ _ _)); simpl; congruence].
      rewrite Hids. simpl. by rewrite Hdue.
Qed.

Lemma sync_source_item_attempt dest source w :
  sync_source_item proxy iget (map fst dest) (map snd dest) tt source w =
  if due dest source then publish_attempt proxy iget dest tt source w
  else (inr tt, w).
Proof.
  rewrite sync_source_item_run. destruct (due dest source); [|done].
  unfold publish_attempt, bind. rewrite logger_run.
  unfold try_except_publication, log_append.
  destruct (publish_resource proxy iget (fst source) _) as [[e|[]] w'];
    [|done].
  by destruct (is_publication_error e).
Qed.

(** The first loop is the loop of the attempts over the items that are
    due: an item that is not due is passed over without a call, a line in
    the log or a change. *)
Lemma publish_phase_attempts source dest : forall w,
  sync_publish_phase proxy iget source dest w =
  foldM (publish_attempt proxy iget dest) (List.filter (due dest) source) tt w.
Proof.
  unfold sync_publish_phase.
  induction source as [|s source IH]; intros w; [done|].
  rewrite foldM_cons, sync_source_item_attempt. simpl List.filter.
  destruct (due dest s); [|apply IH].
  rewrite foldM_cons.
  destruct (publish_attempt proxy iget dest tt s w) as [[e|[]] w']; [done|].
  apply IH.
Qed.

(** C1, as amended. A source item is due exactly when its identifier is
    missing from the destination inventory or its timestamp is strictly
    greater than the recorded one.  The first loop is the sequence of the
    publish attempts for the due items, in order: an item that is not due
    is never published.  It enters [publish_resource] for the due items
    among the first [k] items, and [k] is the whole list unless an
    attempt raises an error other than a publication error, which ends
    the loop before the items that follow. *)
Theorem publish_iff_due source dest w :
  (forall id ts,
     due dest (id, ts) = true <->
     ~ In id (map fst dest) \/
     exists destination_ts,
       recorded id dest = Some destination_ts /\ destination_ts < ts) /\
  sync_publish_phase proxy iget source dest w =
    foldM (publish_attempt proxy iget dest)
          (List.filter (due dest) source) tt w /\
  exists k,
    (k <= length source)%nat /\
    publishing_ids
      (logs (snd (sync_publish_phase proxy iget source dest w))) =
    publishing_ids (logs w) ++
    map fst (List.filter (due dest) (firstn k source)) /\
    match fst (sync_publish_phase proxy iget source dest w) with
    | inr _ => k = length source
    | inl e => is_publication_error e = false
    end.
Proof.
  split; [exact (due_spec dest)|].
  split; [apply publish_phase_attempts | apply publish_phase_trace].
Qed.
End publish_phase_proofs.

(** ** The destination inventory *)

Lemma with_mtime_loop st es l acc lg :
  (forall x, In x l -> In x (names es)) ->
  foldM with_mtime l acc (mk_world (Dir st es) lg) =
  (inr (acc ++ map (fun x => (x, mtime_of x es)) l),
   mk_world (Dir st es) lg).
Proof.
  revert acc. induction l as [|x l IH]; intros acc Hl.
  - simpl. unfold ret. by rewrite app_nil_r.
  - rewrite foldM_cons. unfold with_mtime at 1, bind, lift_fs, ret.
    unfold os_path_getmtime, mtime_of. simpl.
    destruct (lookup_entry x es) as [n|] eqn:E.
    + rewrite IH by (intros y Hy; apply Hl; by right).
      by rewrite <- app_assoc.
    + apply lookup_entry_None in E. destruct E.
      apply list_elem_of_In, Hl. by left.
Qed.

Lemma scan_destination_run w :
  scan_destination w =
  (inr (destination_inventory (fs w)),
   log_append w
     [(INFO, MsgNumDestination (length (destination_inventory (fs w))))]).
Proof.
  unfold scan_destination, destination_inventory, log_append.
  destruct w as [[st d|st es] lg]; simpl.
  - done.
  - unfold bind, lift_fs, glob, logger. simpl.
    rewrite with_mtime_loop.
    + by rewrite length_map.
    + intros x Hx. by apply filter_In in Hx as [Hx _].
Qed.

Lemma destination_inventory_ids t :
  map fst (destination_inventory t) =
  List.filter (glob_match RESOURCE_ID_GLOB) (names (root_entries t)).
Proof.
  unfold destination_inventory. rewrite map_map. simpl. apply map_id.
Qed.

(** ** The removal phase *)

Lemma remove_resource_run x st es lg :
  remove_resource x (mk_world (Dir st es) lg) =
  match lookup_entry x es with
  | None => (inl FileNotFoundError, mk_world (Dir st es) lg)
  | Some (File _ _) => (inl NotADirectoryError, mk_world (Dir st es) lg)
  | Some (Dir _ _) =>
      (inr tt, mk_world (Dir st (remove_entry x es))
                        (lg ++ [(INFO, MsgRemoved x)]))
  end.
Proof.
  unfold remove_resource, bind, lift_fs, shutil_rmtree, syscall. simpl.
  by destruct (lookup_entry x es) as [[? ?|? ?]|].
Qed.

Lemma removed_ids_app l1 l2 :
  removed_ids (l1 ++ l2) = removed_ids l1 ++ removed_ids l2.
Proof. unfold removed_ids. apply flat_map_app. Qed.

Lemma remove_entry_filter x es :
  NoDup (names es) ->
  remove_entry x es =
  List.filter (fun e => negb (String.eqb (fst e) x)) es.
Proof.
  induction es as [|[y n] es IH]; simpl; intros Hnd; [done|].
  apply NoDup_cons in Hnd as [Hy Hnd].
  destruct (String.eqb_spec y x) as [->|Hne]; simpl.
  - symmetry. apply forallb_filter_id, forallb_forall. intros [z m] Hz. simpl.
    destruct (String.eqb_spec z x) as [->|]; [|done]. destruct Hy.
    apply list_elem_of_In, in_map_iff. by exists (x, m).
  - by rewrite IH.
Qed.

Lemma lookup_entry_filter (f : string -> bool) x es :
  f x = true ->
  lookup_entry x (List.filter (fun e => f (fst e)) es) = lookup_entry x es.
Proof.
  intros Hx. induction es as [|[y n] es IH]; simpl; [done|].
  destruct (f y) eqn:Hy; simpl.
  - by rewrite IH.
  - destruct (String.eqb_spec y x); [congruence | done].
Qed.

Lemma names_filter_NoDup (f : string * node -> bool) es :
  NoDup (names es) -> NoDup (names (List.filter f es)).
Proof.
  induction es as [|[y n] es IH]; simpl; intros Hnd; [done|].
  apply NoDup_cons in Hnd as [Hy Hnd].
  destruct (f (y, n)); simpl; [|auto].
  apply NoDup_cons. split; [|auto]. intros Hin. apply Hy.
  apply list_elem_of_In, in_map_iff in Hin as (e & He & Hin).
  apply filter_In in Hin as [Hin _].
  apply list_elem_of_In, in_map_iff. eauto.
Qed.

Lemma filter_twice {A} (f g : A -> bool) l :
  List.filter f (List.filter g l) = List.filter (fun a => g a && f a) l.
Proof.
  induction l as [|a l IH]; simpl; [done|].
  destruct (g a); simpl; [|done]. destruct (f a); by rewrite IH.
Qed.

Lemma remove_orphan_run src x ts st es lg :
  remove_orphan src tt (x, ts) (mk_world (Dir st es) lg) =
  if bool_decide (x ∈ src) then (inr tt, mk_world (Dir st es) lg)
  else
    let lg1 := lg ++ [(INFO, MsgNoLongerInSource x)] in
    match lookup_entry x es with
    | None => (inl FileNotFoundError, mk_world (Dir st es) lg1)
    | Some (File _ _) => (inl NotADirectoryError, mk_world (Dir st es) lg1)
    | Some (Dir _ _) =>
        (inr tt, mk_world (Dir st (remove_entry x es))
                          (lg1 ++ [(INFO, MsgRemoved x)]))
    end.
Proof.
  unfold remove_orphan. cbn [fst].
  destruct (bool_decide (x ∈ src)); cbn [negb]; [done|]. unfold bind at 1. rewrite logger_run. simpl fs.
  simpl logs. rewrite remove_resource_run.
  by destruct (lookup_entry x es) as [[? ?|? ?]|].
Qed.

(** The second loop, run on a catalog whose names are distinct. *)
Lemma remove_loop src st todo :
  forall es lg,
    NoDup (names es) -> NoDup (map fst todo) ->
    (forall x, In x (map fst todo) -> In x (names es)) ->
    exists k,
      let run := foldM (remove_orphan src) todo tt
                       (mk_world (Dir st es) lg) in
      let gone :=
        List.filter (fun x => negb (bool_decide (x ∈ src)))
                    (map fst (firstn k todo)) in
      fs (snd run) =
        Dir st (List.filter
                  (fun e => negb (bool_decide (fst e ∈ gone))) es) /\
      removed_ids (logs (snd run)) = removed_ids lg ++ gone /\
      match fst run with
      | inr _ => k = length todo
      | inl e =>
          e = NotADirectoryError /\
          exists bad ts n,
            todo !! k = Some (bad, ts) /\ ~ bad ∈ src /\
            lookup_entry bad es = Some n /\ is_dir n = false
      end.
Proof.
  induction todo as [|[x ts] todo IH]; intros es lg Hnd Htodo Hsub.
  - exists 0%nat. simpl. split_and!; [|by rewrite app_nil_r|done].
    f_equal. symmetry. apply forallb_filter_id, forallb_forall.
    by intros e _.
  - simpl in Htodo. apply NoDup_cons in Htodo as [Hx Htodo].
    rewrite foldM_cons, remove_orphan_run.
    case_bool_decide as Hsrc.
    + (* x is in the source: kept *)
      destruct (IH es lg) as (k & Hfs & Hlog & Hres); [done..| |].
      { intros y Hy. apply Hsub. by right. }
      exists (S k). simpl firstn. simpl map. simpl List.filter.
      rewrite bool_decide_eq_true_2 by done. simpl negb. cbv iota.
      split_and!; [done..|].
      revert Hres. destruct (fst (foldM _ _ _ _)); simpl; [done | congruence].
    + (* x is an orphan *)
      cbv zeta.
      destruct (lookup_entry x es) as [[s d|s sub]|] eqn:E.
      * exists 0%nat. simpl. split; [|split].
        -- f_equal. symmetry. apply forallb_filter_id, forallb_forall.
           by intros e _.
        -- rewrite removed_ids_app. simpl. by rewrite !app_nil_r.
        -- split; [done|]. exists x, ts, (File s d). done.
      * rewrite (remove_entry_filter _ _ Hnd).
        set (es1 := List.filter _ es).
        destruct (IH es1 ((lg ++ [(INFO, MsgNoLongerInSource x)]) ++
                          [(INFO, MsgRemoved x)]))
          as (k & Hfs & Hlog & Hres).
        { by apply names_filter_NoDup. }
        { done. }
        { intros y Hy. unfold es1, names.
          apply in_map_iff. specialize (Hsub y (or_intror Hy)).
          apply in_map_iff in Hsub as ([y' n] & <- & Hyn). exists (y', n).
          split; [done|]. apply filter_In. split; [done|]. simpl.
          destruct (String.eqb_spec y' x) as [->|]; [|done]. destruct Hx.
          by apply list_elem_of_In. }
        exists (S k). simpl firstn. simpl map. simpl List.filter.
        rewrite bool_decide_eq_false_2 by done. simpl negb. cbv iota.
        split_and!.
        -- rewrite Hfs. f_equal. unfold es1. rewrite filter_twice.
           apply List.filter_ext. intros [y n]. simpl.
           destruct (String.eqb_spec y x) as [->|Hne]; simpl.
           ++ symmetry. apply negb_false_iff.
              apply bool_decide_eq_true_2. left.
           ++ f_equal. apply bool_decide_ext.
              rewrite elem_of_cons. naive_solver.
        -- rewrite Hlog, !removed_ids_app. simpl.
           by rewrite <- !app_assoc.
        -- revert Hres. destruct (fst (foldM _ _ _ _)); simpl; [|congruence].
           intros (-> & bad & ts' & n & Hk & Hbad & Hl & Hd).
           split; [done|]. exists bad, ts', n. split_and!; try done.
           unfold es1 in Hl.
           destruct (decide (bad = x)) as [->|Hne].
           { assert (Hnone : lookup_entry x
                      (List.filter (fun e => negb (String.eqb (fst e) x)) es)
                      = None); [|congruence].
             apply lookup_entry_None. unfold names. intros Hin.
             apply list_elem_of_In, in_map_iff in Hin as ([z m] & Hz & Hin).
             apply filter_In in Hin as [_ Hin]. simpl in *. subst z.
             by rewrite String.eqb_refl in Hin. }
           rewrite (lookup_entry_filter (fun y => negb (String.eqb y x)))
             in Hl; [done|].
           by apply negb_true_iff, String.eqb_neq.
      * apply lookup_entry_None in E. destruct E.
        apply list_elem_of_In, Hsub. by left.
Qed.

Lemma sync_remove_phase_run source w :
  sync_remove_phase source w =
  foldM (remove_orphan (map fst source)) (destination_inventory (fs w)) tt
    (log_append w
       [(INFO, MsgNumDestination (length (destination_inventory (fs w))))]).
Proof.
  unfold sync_remove_phase, bind. by rewrite scan_destination_run.
Qed.

(** The second loop leaves alone every entry that it does not list or
    that the source lists. *)
Lemma remove_loop_keeps src x todo :
  forall w,
    ~ In x (map fst todo) \/ In x src ->
    lookup_entry x
      (root_entries (fs (snd (foldM (remove_orphan src) todo tt w)))) =
    lookup_entry x (root_entries (fs w)).
Proof.
  induction todo as [|[y ts] todo IH]; intros w Hx; [done|].
  rewrite foldM_cons. destruct w as [[st d|st es] lg].
  - (* the catalog root is not a directory: nothing can be removed *)
    unfold remove_orphan at 1. cbn [fst].
    destruct (bool_decide (y ∈ src)); cbn [negb].
    + unfold ret at 1. rewrite IH; [done|]. simpl in Hx. tauto.
    + done.
  - rewrite remove_orphan_run. case_bool_decide as Hy.
    + rewrite IH; [done|]. simpl in Hx. tauto.
    + cbv zeta. destruct (lookup_entry y es) as [[? ?|? ?]|]; [done| |done].
      rewrite IH; [|simpl in Hx; tauto]. simpl.
      apply lookup_remove_entry_ne. intros ->.
      destruct Hx as [Hx|Hx]; [apply Hx; by left|].
      by apply Hy, list_elem_of_In.
Qed.

Lemma fnmatch_wildcards pattern name :
  (forall c, In c (list_ascii_of_string pattern) -> c = "?"%char) ->
  fnmatch pattern name =
  Nat.eqb (String.length pattern) (String.length name).
Proof.
  revert name. induction pattern as [|c pattern IH]; intros name Hc.
  - by destruct name.
  - destruct name as [|d name]; simpl; [done|].
    rewrite (Hc c) by by left. simpl. apply IH.
    intros c' Hc'. apply Hc. by right.
Qed.

Lemma glob_match_spec x :
  glob_match RESOURCE_ID_GLOB x = true <->
  String.length x = 32%nat /\ ishidden x = false.
Proof.
  unfold glob_match. rewrite fnmatch_wildcards.
  - change (String.length RESOURCE_ID_GLOB) with 32%nat.
    change (ishidden RESOURCE_ID_GLOB) with false. simpl orb.
    rewrite andb_true_iff, negb_true_iff, Nat.eqb_eq. naive_solver.
  - intros c Hc. simpl in Hc. repeat (destruct Hc as [<-|Hc]; [done|]). done.
Qed.

Lemma inventory_ids_match t x :
  In x (map fst (destination_inventory t)) ->
  glob_match RESOURCE_ID_GLOB x = true.
Proof.
  rewrite destination_inventory_ids. by intros [_ ?]%filter_In.
Qed.

Lemma orphan_ids source t :
  List.filter (fun x => negb (bool_decide (x ∈ map fst source)))
              (map fst (destination_inventory t)) =
  List.filter (orphan source) (names (root_entries t)).
Proof. rewrite destination_inventory_ids. apply filter_twice. Qed.

Lemma inventory_NoDup t :
  NoDup (names (root_entries t)) -> NoDup (map fst (destination_inventory t)).
Proof.
  rewrite destination_inventory_ids. generalize (names (root_entries t)).
  intros l Hl. induction l as [|a l IH]; simpl; [done|].
  apply NoDup_cons in Hl as [Ha Hl].
  destruct (glob_match RESOURCE_ID_GLOB a); [|auto].
  apply NoDup_cons. split; [|auto].
  intros Hin%list_elem_of_In%filter_In. apply Ha, list_elem_of_In. tauto.
Qed.

(** The removal phase on a catalog whose names are distinct. *)
Lemma remove_phase_outcome source w :
  NoDup (names (root_entries (fs w))) ->
  exists k,
    let run := sync_remove_phase source w in
    let todo := destination_inventory (fs w) in
    let gone :=
      List.filter (fun x => negb (bool_decide (x ∈ map fst source)))
                  (map fst (firstn k todo)) in
    root_entries (fs (snd run)) =
      List.filter (fun e => negb (bool_decide (fst e ∈ gone)))
                  (root_entries (fs w)) /\
    removed_ids (logs (snd run)) = removed_ids (logs w) ++ gone /\
    match fst run with
    | inr _ => k = length todo
    | inl e =>
        e = NotADirectoryError /\
        exists bad ts n,
          todo !! k = Some (bad, ts) /\ ~ bad ∈ map fst source /\
          lookup_entry bad (root_entries (fs w)) = Some n /\
          is_dir n = false
    end.
Proof.
  intros Hnd. rewrite sync_remove_phase_run.
  destruct w as [[st d|st es] lg].
  - exists 0%nat. simpl. by rewrite removed_ids_app, !app_nil_r.
  - unfold log_append. cbn [fs logs root_entries] in *.
    destruct (remove_loop (map fst source) st
                (destination_inventory (Dir st es)) es
                (lg ++ [(INFO, MsgNumDestination
                           (length (destination_inventory (Dir st es))))]))
      as (k & Hfs & Hlog & Hres); [done| | |].
    { by apply (inventory_NoDup (Dir st es)). }
    { intros x Hx. rewrite destination_inventory_ids in Hx.
      by apply filter_In in Hx as [Hx _]. }
    exists k. cbv zeta in *. rewrite Hfs. split; [done|].
    split; [|done]. rewrite Hlog, removed_ids_app. simpl.
    by rewrite app_nil_r.
Qed.

Lemma wf_root_NoDup t : wf t -> NoDup (names (root_entries t)).
Proof.
  destruct t as [st d|st es]; simpl; [constructor|].
  by intros [? _]%wf_Dir.
Qed.

Lemma firstn_all_filter {A} (l : list A) : firstn (length l) l = l.
Proof. apply firstn_all. Qed.

(** What the removal phase does to a well-formed catalog. *)
Lemma remove_phase_spec source w :
  wf (fs w) ->
  let run := sync_remove_phase source w in
  (forall x n,
     In x (map fst source) ->
     lookup_entry x (root_entries (fs w)) = Some n ->
     lookup_entry x (root_entries (fs (snd run))) = Some n) /\
  (fst run = inr tt ->
   root_entries (fs (snd run)) =
     List.filter (fun e => negb (orphan source (fst e)))
                 (root_entries (fs w)) /\
   removed_ids (logs (snd run)) =
     removed_ids (logs w) ++
     List.filter (orphan source) (names (root_entries (fs w)))) /\
  ((forall x n,
      orphan source x = true ->
      lookup_entry x (root_entries (fs w)) = Some n -> is_dir n = true) ->
   fst run = inr tt).
Proof.
  intros Hwf. cbv zeta. split_and!.
  - intros x n Hx Hl. rewrite sync_remove_phase_run, remove_loop_keeps by auto.
    done.
  - destruct (remove_phase_outcome source w (wf_root_NoDup _ Hwf))
      as (k & Hfs & Hlog & Hres). cbv zeta in *.
    intros Hok. rewrite Hok in Hres. subst k.
    rewrite firstn_all in Hfs, Hlog. rewrite orphan_ids in Hfs, Hlog.
    split; [|done]. rewrite Hfs. apply filter_ext_in. intros [y n] Hy. simpl.
    f_equal. destruct (orphan source y) eqn:Ho.
    + apply bool_decide_eq_true_2, list_elem_of_In, filter_In.
      split; [|done]. apply in_map_iff. by exists (y, n).
    + apply bool_decide_eq_false_2. rewrite list_elem_of_In, filter_In.
      intros [_ ?]. congruence.
  - intros Hdirs.
    destruct (remove_phase_outcome source w (wf_root_NoDup _ Hwf))
      as (k & _ & _ & Hres). cbv zeta in *.
    destruct (fst (sync_remove_phase source w)) as [e|[]]; [|done].
    destruct Hres as (_ & bad & ts & n & Hk & Hbad & Hl & Hd).
    rewrite (Hdirs bad n) in Hd; [done| |done].
    unfold orphan. rewrite andb_true_iff, negb_true_iff. split.
    + apply inventory_ids_match with (fs w).
      apply in_map_iff. exists (bad, ts). split; [done|].
      apply list_elem_of_In. by eapply list_elem_of_lookup_2.
    + by apply bool_decide_eq_false.
Qed.

Lemma remove_loop_fails src x n todo :
  forall w,
    In x (map fst todo) -> ~ x ∈ src ->
    lookup_entry x (root_entries (fs w)) = Some n -> is_dir n = false ->
    exists e, fst (foldM (remove_orphan src) todo tt w) = inl e.
Proof.
  induction todo as [|[y ts] todo IH]; intros w Hin Hsrc Hl Hd; [done|].
  rewrite foldM_cons. destruct w as [[st d|st es] lg]; [done|].
  rewrite remove_orphan_run. simpl in Hl.
  case_bool_decide as Hy.
  - apply IH; [|done..]. destruct Hin as [Hin|Hin]; [|done].
    simpl in Hin. by subst.
  - cbv zeta. destruct (lookup_entry y es) as [[? ?|s sub]|] eqn:E; simpl;
      [eauto| |eauto].
    assert (x <> y). { intros ->. rewrite E in Hl. by injection Hl as <-. }
    apply IH; [|done| |done].
    + destruct Hin as [Hin|Hin]; [|done]. simpl in Hin. by subst.
    + simpl. by rewrite lookup_remove_entry_ne.
Qed.

Section driver_proofs.
Variable proxy : collection.
Variable iget : string -> node -> completed_process * node.

(** [sync_resources], phase by phase. *)
Lemma sync_resources_run w0 :
  sync_resources proxy iget w0 =
  match scan_source proxy (log_append w0 [(INFO, MsgSyncing)]) with
  | (inl e, wa) => (inl e, wa)
  | (inr source, wa) =>
      let dest := destination_inventory (fs wa) in
      match sync_publish_phase proxy iget source dest
              (log_append wa [(INFO, MsgNumDestination (length dest))]) with
      | (inl e, wc) => (inl e, wc)
      | (inr _, wc) =>
          match sync_remove_phase source wc with
          | (inl e, wd) => (inl e, wd)
          | (inr _, wd) => (inr tt, log_append wd [(INFO, MsgSynced)])
          end
      end
  end.
Proof.
  unfold sync_resources. unfold bind at 1. rewrite logger_run.
  fold (log_append w0 [(INFO, MsgSyncing)]). unfold bind at 1.
  destruct (scan_source proxy _) as [[e|source] wa]; [done|].
  unfold bind at 1. rewrite scan_destination_run. unfold bind at 1.
  cbv zeta.
  destruct (sync_publish_phase proxy iget source _ _) as [[e|[]] wc];
    [done|].
  unfold bind at 1.
  by destruct (sync_remove_phase source wc) as [[e|[]] wd].
Qed.

(** C3. Let [source] be the scan taken at the start of the run and [wc]
    the state after the publish phase.  An entry whose identifier is in
    [source] is still there at the end of the run; if the run returns,
    the catalog is what [wc] held less the inventoried entries whose
    identifier is not in [source], and exactly those were removed; and
    the run does return when each of them is a directory. *)
Theorem sync_removes_orphans w0 source wa wc :
  scan_source proxy (log_append w0 [(INFO, MsgSyncing)]) =
    (inr source, wa) ->
  sync_publish_phase proxy iget source (destination_inventory (fs wa))
    (log_append wa
       [(INFO, MsgNumDestination
                 (length (destination_inventory (fs wa))))]) =
    (inr tt, wc) ->
  wf (fs wc) ->
  let run := sync_resources proxy iget w0 in
  (forall x n,
     In x (map fst source) ->
     lookup_entry x (root_entries (fs wc)) = Some n ->
     lookup_entry x (root_entries (fs (snd run))) = Some n) /\
  (fst run = inr tt ->
   root_entries (fs (snd run)) =
     List.filter (fun e => negb (orphan source (fst e)))
                 (root_entries (fs wc)) /\
   removed_ids (logs (snd run)) =
     removed_ids (logs wc) ++
     List.filter (orphan source) (names (root_entries (fs wc)))) /\
  ((forall x n,
      orphan source x = true ->
      lookup_entry x (root_entries (fs wc)) = Some n -> is_dir n = true) ->
   fst run = inr tt).
Proof.
  intros Hscan Hpub Hwf. cbv zeta.
  rewrite sync_resources_run, Hscan. cbv zeta. rewrite Hpub.
  destruct (remove_phase_spec source wc Hwf) as (H1 & H2 & H3).
  cbv zeta in *.
  destruct (sync_remove_phase source wc) as [[e|[]] wd]; simpl in *.
  - split_and!; [done|done|]. intros Hd. by specialize (H3 Hd).
  - split_and!; [done| |done]. intros _.
    destruct (H2 eq_refl) as [Hr Hg]. split; [done|].
    rewrite removed_ids_app, Hg. simpl. by rewrite app_nil_r.
Qed.

(** C9. When the removal phase meets an inventoried entry that is not
    in [source] and is not a directory, [sync_resources] raises the error
    of [shutil.rmtree]; the entries removed are those listed before the
    failing one, and the failing one and those after it stay. *)
Theorem removal_failure_aborts w0 source wa wc :
  scan_source proxy (log_append w0 [(INFO, MsgSyncing)]) =
    (inr source, wa) ->
  sync_publish_phase proxy iget source (destination_inventory (fs wa))
    (log_append wa
       [(INFO, MsgNumDestination
                 (length (destination_inventory (fs wa))))]) =
    (inr tt, wc) ->
  wf (fs wc) ->
  (exists x n,
     orphan source x = true /\
     lookup_entry x (root_entries (fs wc)) = Some n /\ is_dir n = false) ->
  exists wd pre bad post,
    sync_resources proxy iget w0 = (inl NotADirectoryError, wd) /\
    List.filter (orphan source) (names (root_entries (fs wc))) =
      pre ++ bad :: post /\
    removed_ids (logs wd) = removed_ids (logs wc) ++ pre /\
    forall y, In y (bad :: post) ->
      lookup_entry y (root_entries (fs wd)) =
      lookup_entry y (root_entries (fs wc)).
Proof.
  intros Hscan Hpub Hwf (x & n & Ho & Hl & Hd).
  rewrite sync_resources_run, Hscan. cbv zeta. rewrite Hpub.
  apply andb_true_iff in Ho as [Hglob Hsrc].
  apply negb_true_iff, bool_decide_eq_false in Hsrc.
  assert (Hfail : exists e, fst (sync_remove_phase source wc) = inl e).
  { rewrite sync_remove_phase_run.
    apply remove_loop_fails with x n; [|done..].
    rewrite destination_inventory_ids. apply filter_In. split; [|done].
    apply list_elem_of_In. by eapply lookup_entry_Some_names. }
  destruct Hfail as [e He].
  pose proof (wf_root_NoDup _ Hwf) as Hnd.
  destruct (remove_phase_outcome source wc Hnd) as (k & Hfs & Hlog & Hres).
  cbv zeta in *. rewrite He in Hres.
  destruct Hres as (-> & bad & ts & m & Hk & Hbad & Hlb & Hdb).
  destruct (sync_remove_phase source wc) as [r wd]. simpl in *. subst r.
  set (todo := destination_inventory (fs wc)) in *.
  set (keep := fun y => negb (bool_decide (y ∈ map fst source))) in *.
  exists wd, (List.filter keep (map fst (firstn k todo))), bad,
    (List.filter keep (map fst (skipn (S k) todo))).
  pose proof (take_drop_middle _ _ _ Hk) as Hsplit.
  split_and!; [done| |done|].
  - rewrite <- orphan_ids. fold todo. fold keep. rewrite <- Hsplit at 1.
    rewrite map_app, List.filter_app. simpl.
    unfold keep at 2. by rewrite bool_decide_eq_false_2 by done.
  - intros y Hy. rewrite Hfs.
    set (gone := List.filter keep (map fst (firstn k todo))).
    pose (f := fun z : string => negb (bool_decide (z ∈ gone))).
    apply (lookup_entry_filter f). unfold f.
    apply negb_true_iff, bool_decide_eq_false. unfold gone.
    intros Hgone%list_elem_of_In%filter_In. destruct Hgone as [Hgone _].
    pose proof (inventory_NoDup _ Hnd) as Hnd'. fold todo in Hnd'.
    rewrite <- Hsplit, map_app in Hnd'.
    apply NoDup_app in Hnd' as (_ & Hdisj & _).
    apply (Hdisj y); [by apply list_elem_of_In|].
    apply list_elem_of_In. simpl. destruct Hy as [<-|Hy]; [by left|].
    right. by apply filter_In in Hy as [Hy _].
Qed.
End driver_proofs.

(** C10. A name that does not match [RESOURCE_ID_GLOB] (it has not 32
    characters, or begins with a dot) is never in the destination
    inventory; a source item of that name is published whatever the
    timestamps, no recorded timestamp being found for it; and the removal
    phase leaves the entry of that name as it was. *)
Theorem unmatched_entry_invisible source w x :
  glob_match RESOURCE_ID_GLOB x = false ->
  (String.length x <> 32%nat \/ ishidden x = true) /\
  ~ In x (map fst (destination_inventory (fs w))) /\
  recorded x (destination_inventory (fs w)) = None /\
  (forall ts, due (destination_inventory (fs w)) (x, ts) = true) /\
  lookup_entry x (root_entries (fs (snd (sync_remove_phase source w)))) =
  lookup_entry x (root_entries (fs w)).
Proof.
  intros Hx.
  assert (Hnot : ~ In x (map fst (destination_inventory (fs w)))).
  { intros Hin%inventory_ids_match. congruence. }
  split_and!.
  - destruct (Nat.eq_dec (String.length x) 32%nat) as [Hlen|]; [|by left].
    right. destruct (ishidden x) eqn:Hh; [done|].
    assert (glob_match RESOURCE_ID_GLOB x = true) by by apply glob_match_spec.
    congruence.
  - done.
  - by apply recorded_None.
  - intros ts. apply due_spec. by left.
  - rewrite sync_remove_phase_run, remove_loop_keeps; [done|]. by left.
Qed.

(** ** [rchmod] *)

Lemma chmod_all_Dir mode st es :
  chmod_all mode (Dir st es) =
  Dir (set_mode mode st) (map (fun e => (fst e, chmod_all mode (snd e))) es).
Proof.
  simpl. f_equal. induction es as [|[x c] es IH]; simpl; [done|].
  by rewrite IH.
Qed.

Lemma all_mode_Dir mode st es :
  all_mode mode (Dir st es) = true <->
  st_mode st = mode /\ Forall (fun e => all_mode mode (snd e) = true) es.
Proof.
  simpl. rewrite andb_true_iff, Z.eqb_eq. apply and_iff_compat_l.
  induction es as [|[x c] es IH]; simpl.
  - split; [constructor | done].
  - rewrite andb_true_iff, IH, Forall_cons. done.
Qed.

Lemma os_chmod_at p mode t c :
  get_node p t = Some c ->
  os_chmod p mode t = (inr tt, put p (with_stat (set_mode mode) c) t).
Proof.
  intros H. unfold os_chmod, syscall. by rewrite (update_at_get _ _ _ _ H).
Qed.

Lemma walk_with_stat f p c : walk p (with_stat f c) = walk p c.
Proof. by destruct c. Qed.

Lemma set_entry_map x (g : node -> node) es c :
  NoDup (names es) -> lookup_entry x es = Some c ->
  set_entry x (g c) es =
  map (fun e => (fst e, if String.eqb (fst e) x then g (snd e) else snd e)) es.
Proof.
  induction es as [|[y n] es IH]; simpl; [done|]. intros Hnd.
  apply NoDup_cons in Hnd as [Hy Hnd].
  destruct (String.eqb_spec y x) as [->|Hne].
  - intros [= ->]. f_equal. clear IH.
    induction es as [|[z m] es IH]; simpl; [done|].
    apply not_elem_of_cons in Hy as [Hz Hy]. simpl in Hz.
    apply NoDup_cons in Hnd as [_ Hnd].
    destruct (String.eqb_spec z x); [congruence|]. by rewrite <- IH.
  - intros H. by rewrite IH.
Qed.

(** One of the inner loops of [rchmod], seen from inside the directory. *)
Lemma chmod_names_at p mode st todo :
  forall t es,
    NoDup (names es) -> (forall x, In x todo -> In x (names es)) ->
    get_node p t = Some (Dir st es) ->
    foldM (fun (_ : unit) x => os_chmod (p ++ [x]) mode) todo tt t =
    (inr tt,
     put p (Dir st (map (fun e =>
                           (fst e,
                            if bool_decide (fst e ∈ todo)
                            then with_stat (set_mode mode) (snd e)
                            else snd e)) es)) t).
Proof.
  induction todo as [|x todo IH]; intros t es Hnd Hsub Hget.
  - simpl. unfold ret. f_equal. rewrite <- (put_get_id _ _ _ Hget) at 1.
    do 2 f_equal. symmetry. rewrite <- (map_id es) at 2.
    apply map_ext. by intros [y n].
  - rewrite foldM_cons.
    assert (Hx : In x (names es)) by (apply Hsub; by left).
    destruct (lookup_entry x es) as [c|] eqn:E.
    2:{ apply lookup_entry_None in E. destruct E. by apply list_elem_of_In. }
    rewrite (os_chmod_at _ _ _ c).
    2:{ rewrite get_node_app, Hget. simpl. by rewrite E. }
    rewrite (put_app _ _ _ _ _ Hget). simpl. rewrite E.
    rewrite (set_entry_map x (with_stat (set_mode mode)) es c Hnd E).
    set (es1 := map _ es).
    assert (Hn1 : names es1 = names es).
    { unfold es1, names. rewrite map_map. by apply map_ext. }
    rewrite (IH _ es1).
    + f_equal. rewrite put_put. do 2 f_equal. unfold es1. rewrite map_map.
      apply map_ext. intros [y n]. simpl. f_equal.
      destruct (String.eqb_spec y x) as [->|Hne].
      * rewrite (bool_decide_eq_true_2 (x ∈ x :: todo)) by left.
        case_bool_decide; [|done]. by destruct n.
      * do 2 case_bool_decide; try done; exfalso;
          rewrite elem_of_cons in *; naive_solver.
    + by rewrite Hn1.
    + intros y Hy. rewrite Hn1. apply Hsub. by right.
    + apply get_put. eauto.
Qed.

Lemma with_stat_idem f c :
  (forall st, f (f st) = f st) -> with_stat f (with_stat f c) = with_stat f c.
Proof. intros Hf. destruct c; simpl; by rewrite Hf. Qed.

Lemma chmod_all_below mode c :
  with_stat (set_mode mode) (chmod_below mode c) = chmod_all mode c.
Proof. destruct c as [st d|st es]; [done|]. by rewrite chmod_all_Dir. Qed.

Lemma chmod_below_with_stat mode f c :
  chmod_below mode (with_stat f c) = with_stat f (chmod_below mode c).
Proof. by destruct c. Qed.

Lemma rchmod_entry_at p mode st es t :
  NoDup (names es) -> get_node p t = Some (Dir st es) ->
  rchmod_entry mode tt (p, dirnames es, filenames es) t =
  (inr tt,
   put p (Dir st (map (fun e => (fst e, with_stat (set_mode mode) (snd e)))
                      es)) t).
Proof.
  intros Hnd Hget. unfold rchmod_entry, bind.
  rewrite (chmod_names_at p mode st (dirnames es) t es Hnd); [|
    by intros x Hx; apply list_elem_of_In, todo_names, elem_of_app; right;
       apply list_elem_of_In | done].
  set (es1 := map _ es).
  assert (Hn1 : names es1 = names es).
  { unfold es1, names. rewrite map_map. by apply map_ext. }
  rewrite (chmod_names_at p mode st (filenames es) _ es1).
  - f_equal. rewrite put_put. do 2 f_equal. unfold es1. rewrite map_map.
    apply map_ext_in. intros [y n] Hy. simpl. f_equal.
    assert (Hin : y ∈ filenames es ++ dirnames es).
    { apply names_split, list_elem_of_In, in_map_iff. by exists (y, n). }
    apply elem_of_app in Hin.
    do 2 case_bool_decide; try done; [|tauto].
    apply with_stat_idem. by intros [].
  - by rewrite Hn1.
  - intros x Hx. rewrite Hn1.
    apply list_elem_of_In, todo_names, elem_of_app. left.
    by apply list_elem_of_In.
  - apply get_put. eauto.
Qed.

Lemma rchmod_below mode p st es :
  Forall (fun e => wf (snd e) -> forall f p t,
            get_node p t = Some (with_stat f (snd e)) ->
            foldM (rchmod_entry mode) (walk p (snd e)) tt t =
            (inr tt, put p (with_stat f (chmod_below mode (snd e))) t)) es ->
  forall pre t,
    NoDup (names (pre ++ es)) ->
    Forall (fun e => wf (snd e)) es ->
    get_node p t =
      Some (Dir st (pre ++ map (fun e => (fst e,
                                  with_stat (set_mode mode) (snd e))) es)) ->
    foldM (rchmod_entry mode) (walk_entries p es) tt t =
    (inr tt,
     put p (Dir st (pre ++ map (fun e => (fst e, chmod_all mode (snd e))) es))
         t).
Proof.
  induction 1 as [|[x c] es Hc _ IH]; intros pre t Hnd Hwf Hget; simpl.
  - simpl in Hget. unfold ret. by rewrite (put_get_id _ _ _ Hget).
  - apply Forall_cons in Hwf as [Hwfc Hwf]. simpl in *.
    assert (Hx : x ∉ names pre).
    { unfold names in Hnd. rewrite map_app in Hnd. simpl in Hnd.
      apply NoDup_app in Hnd as (_ & Hnd & _). intros Hin.
      apply (Hnd _ Hin). left. }
    rewrite foldM_app.
    rewrite (Hc Hwfc (set_mode mode) (p ++ [x]) t).
    2:{ rewrite get_node_app, Hget. simpl.
        by rewrite lookup_entry_app_fresh. }
    rewrite <- chmod_below_with_stat, chmod_below_with_stat, chmod_all_below.
    rewrite (put_app _ _ _ _ _ Hget). simpl.
    rewrite lookup_entry_app_fresh, set_entry_app_fresh by done.
    rewrite (IH (pre ++ [(x, chmod_all mode c)])).
    + rewrite put_put, <- app_assoc. done.
    + rewrite <- app_assoc. simpl. unfold names in *.
      rewrite map_app in *. done.
    + done.
    + rewrite <- app_assoc. simpl. apply get_put. eauto.
Qed.

Lemma rchmod_walk mode c :
  wf c -> forall f p t,
    get_node p t = Some (with_stat f c) ->
    foldM (rchmod_entry mode) (walk p c) tt t =
    (inr tt, put p (with_stat f (chmod_below mode c)) t).
Proof.
  induction c as [st d|st es IH] using node_ind; intros Hwf f p t Hget.
  - simpl in *. unfold ret. by rewrite (put_get_id _ _ _ Hget).
  - apply wf_Dir in Hwf as [Hnd Hwf]. rewrite walk_Dir, foldM_cons.
    simpl in Hget.
    rewrite (rchmod_entry_at _ _ _ _ _ Hnd Hget).
    rewrite (rchmod_below mode p (f st) es IH []); try done.
    + by rewrite put_put.
    + apply get_put. eauto.
Qed.

(** [rchmod] sets the mode on the node at the path and on all below it. *)
Lemma rchmod_at p mode t c :
  get_node p t = Some c -> wf c ->
  rchmod p mode t = (inr tt, put p (chmod_all mode c) t).
Proof.
  intros Hget Hwf. unfold rchmod. unfold bind at 1.
  rewrite (os_chmod_at _ _ _ _ Hget). unfold bind at 1, os_walk.
  rewrite get_put by eauto. rewrite walk_with_stat.
  rewrite (rchmod_walk mode c Hwf (set_mode mode)) by (apply get_put; eauto).
  by rewrite put_put, chmod_all_below.
Qed.

Lemma rchmod_missing p mode t :
  get_node p t = None -> exists e, rchmod p mode t = (inl e, t).
Proof.
  intros Hget. unfold rchmod, bind, os_chmod, syscall.
  destruct (update_at_missing p (fun n => inr (with_stat (set_mode mode) n))
              t Hget) as [e ->]. eauto.
Qed.

(** ** Shape and modes under the two normalisations *)

Lemma names_map_snd (g : node -> node) es :
  names (map (fun e => (fst e, g (snd e))) es) = names es.
Proof. unfold names. rewrite map_map. by apply map_ext. Qed.

Lemma chmod_all_wf mode c : wf c -> wf (chmod_all mode c).
Proof.
  induction c as [st d|st es IH] using node_ind; [done|].
  rewrite chmod_all_Dir, !wf_Dir. intros [Hnd Hwf]. split.
  - by rewrite names_map_snd.
  - rewrite Forall_forall in IH, Hwf. apply Forall_forall.
    intros e (e0 & -> & He0)%list_elem_of_fmap. simpl. auto.
Qed.

Lemma chmod_all_collision_free mode c :
  collision_free c -> collision_free (chmod_all mode c).
Proof.
  induction c as [st d|st es IH] using node_ind; [done|].
  rewrite chmod_all_Dir, !collision_free_Dir. intros [Hnd Hcf]. split.
  - by rewrite names_map_snd.
  - rewrite Forall_forall in IH, Hcf. apply Forall_forall.
    intros e (e0 & -> & He0)%list_elem_of_fmap. simpl. auto.
Qed.

Lemma chmod_all_mode mode c : all_mode mode (chmod_all mode c) = true.
Proof.
  induction c as [st d|st es IH] using node_ind.
  - simpl. apply Z.eqb_refl.
  - rewrite chmod_all_Dir. apply all_mode_Dir. split; [done|].
    rewrite Forall_forall in IH. apply Forall_forall.
    intros e (e0 & -> & He0)%list_elem_of_fmap. simpl. auto.
Qed.

Lemma norm_all_mode mode c :
  wf c -> forall k k' c',
    norm c k = (inr k', c') ->
    all_mode mode c = true -> all_mode mode c' = true.
Proof.
  induction c as [st d|st es IH] using node_ind; intros Hwf k k' c'.
  - simpl. by intros [= <- <-].
  - apply wf_Dir in Hwf as [Hnd Hwf]. rewrite norm_Dir.
    intros Hrun [Hst Hall]%all_mode_Dir. revert Hrun.
    destruct (norm_below es k) as [[e|k1] es1] eqn:E1; [done|].
    assert (N : names es1 = names es /\
                Forall (fun e => all_mode mode (snd e) = true) es1).
    { clear -E1 IH Hwf Hall. revert k k1 es1 E1.
      induction es as [|[x c] es IHes]; intros k k1 es1; simpl.
      - by intros [= <- <-].
      - apply Forall_cons in IH as [IHc IH].
        apply Forall_cons in Hwf as [Hwfc Hwf].
        apply Forall_cons in Hall as [Hc Hall]. simpl in *.
        destruct (norm_below es k) as [[e|k0] es0] eqn:E; [done|].
        destruct (norm c k0) as [r c'] eqn:Ec. intros [= -> <-].
        destruct (IHes IH Hwf Hall _ _ _ E) as [N1 N2]. simpl.
        split; [by rewrite N1|]. apply Forall_cons. split; [|done].
        simpl. by eapply IHc. }
    destruct N as [N1 N2].
    pose proof (foldM_app rename_spaced_entry (filenames es) (dirnames es)
                  k1 es1) as Happ.
    destruct (foldM rename_spaced_entry (filenames es) k1 es1)
      as [[e|k2] es2]; [done|].
    destruct (foldM rename_spaced_entry (dirnames es) k2 es2) as [r3 es3].
    intros [= -> <-].
    apply (rename_loop_spec (fun c => all_mode mode c = true)) in Happ
      as (_ & R2 & _).
    + by apply all_mode_Dir.
    + by rewrite N1.
    + done.
    + rewrite N1. intros x Hx _. by apply names_split.
Qed.

Lemma rename_all_mode mode c :
  all_mode mode c = true -> all_mode mode (rename_all c) = true.
Proof.
  induction c as [st d|st es IH] using node_ind; [done|].
  rewrite rename_all_Dir, !all_mode_Dir. intros [Hst Hall]. split; [done|].
  rewrite Forall_forall in IH, Hall. apply Forall_forall.
  intros e (e0 & -> & He0)%list_elem_of_fmap. simpl. auto.
Qed.

Lemma rename_all_no_space c : no_spaceb (rename_all c) = true.
Proof.
  induction c as [st d|st es IH] using node_ind; [done|].
  rewrite rename_all_Dir. apply no_space_Dir.
  rewrite Forall_forall in IH. apply Forall_forall.
  intros e (e0 & -> & He0)%list_elem_of_fmap. simpl.
  split; [apply has_space_dunder | auto].
Qed.

Lemma set_times_keeps f c :
  (forall st, st_mode (f st) = st_mode st) ->
  forall mode, all_mode mode (with_stat f c) = all_mode mode c.
Proof. intros Hf mode. destruct c; simpl; by rewrite Hf. Qed.

Lemma with_stat_no_space f c : no_spaceb (with_stat f c) = no_spaceb c.
Proof. by destruct c. Qed.

(** ** Filesystem calls raise no publication error *)

Lemma update_entry_error x f es e :
  (forall n e, f n = inl e -> is_publication_error e = false) ->
  update_entry x f es = inl e -> is_publication_error e = false.
Proof.
  intros Hf. induction es as [|[y n] es IH]; simpl; [by intros [= <-]|].
  destruct (String.eqb y x).
  - destruct (f n) as [e'|] eqn:E; [|done]. intros [= <-]. eauto.
  - destruct (update_entry x f es); [|done]. intros [= <-]. auto.
Qed.

Lemma update_at_error p f t e :
  (forall n e, f n = inl e -> is_publication_error e = false) ->
  update_at p f t = inl e -> is_publication_error e = false.
Proof.
  intros Hf. revert t e. induction p as [|x p IH]; intros t e; simpl.
  - apply Hf.
  - destruct t as [|st es]; [by intros [= <-]|].
    destruct (update_entry x (update_at p f) es) as [e'|] eqn:E; [|done].
    intros [= <-]. eapply update_entry_error; [|exact E]. eauto.
Qed.

Lemma foldM_error {S A B} (f : B -> A -> ST S B) l b s e :
  (forall b a s e, fst (f b a s) = inl e -> is_publication_error e = false) ->
  fst (foldM f l b s) = inl e -> is_publication_error e = false.
Proof.
  intros Hf. revert b s. induction l as [|a l IH]; intros b s; [done|].
  rewrite foldM_cons. destruct (f b a s) as [[e'|b'] s'] eqn:E.
  - simpl. intros [= <-]. apply (Hf b a s). by rewrite E.
  - apply IH.
Qed.

Lemma syscall_error f t e :
  (forall t e, f t = inl e -> is_publication_error e = false) ->
  fst (syscall f t) = inl e -> is_publication_error e = false.
Proof.
  intros Hf. unfold syscall. destruct (f t) as [e'|] eqn:E; [|done].
  simpl. intros [= <-]. eauto.
Qed.

Lemma os_chmod_error p mode t e :
  fst (os_chmod p mode t) = inl e -> is_publication_error e = false.
Proof.
  apply syscall_error. intros t' e'. by apply update_at_error.
Qed.

Lemma os_utime_error p times t e :
  fst (os_utime p times t) = inl e -> is_publication_error e = false.
Proof.
  apply syscall_error. intros t' e'. by apply update_at_error.
Qed.

Lemma os_rename_error root old new t e :
  fst (os_rename root old new t) = inl e -> is_publication_error e = false.
Proof.
  apply syscall_error. intros t' e'. apply update_at_error.
  intros [st d|st es] e0; [by intros [= <-]|].
  unfold rename_entry.
  destruct (lookup_entry old es) as [src|]; [|by intros [= <-]].
  destruct (String.eqb old new); [done|].
  destruct (lookup_entry new es) as [[? ?|? [|? ?]]|]; destruct src;
    simpl; intros [= <-]; done.
Qed.

Lemma rchmod_error p mode t e :
  fst (rchmod p mode t) = inl e -> is_publication_error e = false.
Proof.
  unfold rchmod, bind.
  destruct (os_chmod p mode t) as [[e'|[]] t'] eqn:E.
  - simpl. intros [= <-]. apply (os_chmod_error p mode t). by rewrite E.
  - unfold os_walk. destruct (get_node p t'); [|done].
    apply foldM_error. intros [] [[root dirs] files] s e0.
    unfold rchmod_entry, bind.
    destruct (foldM _ dirs tt s) as [[e1|[]] s1] eqn:E1.
    + simpl. intros [= <-]. eapply foldM_error; [|by rewrite E1].
      intros. by eapply os_chmod_error.
    + apply foldM_error. intros. by eapply os_chmod_error.
Qed.

Lemma rename_spaced_error root k name t e :
  fst (rename_spaced root k name t) = inl e ->
  is_publication_error e = false.
Proof.
  unfold rename_spaced. destruct (has_space name); [|done]. unfold bind.
  destruct (os_rename root name (dunder name) t) as [[e'|[]] t'] eqn:E;
    [|done].
  simpl. intros [= <-]. eapply os_rename_error. by rewrite E.
Qed.

Lemma replace_spaces_loop_error p t e :
  fst (replace_spaces_loop p t) = inl e -> is_publication_error e = false.
Proof.
  unfold replace_spaces_loop, bind, os_walk.
  destruct (get_node p t); [|done].
  apply foldM_error. intros k [[root dirs] files] s e0.
  unfold replace_spaces_entry, bind.
  destruct (foldM (rename_spaced root) files k s) as [[e1|k1] s1] eqn:E1.
  - simpl. intros [= <-]. eapply foldM_error; [|by rewrite E1].
    intros. by eapply rename_spaced_error.
  - apply foldM_error. intros. by eapply rename_spaced_error.
Qed.

(** ** The outcome of [publish_resource] *)

Lemma get_latest_error proxy resource_id e :
  get_latest_resource_timestamp proxy resource_id = inl e ->
  is_publication_error e = false.
Proof.
  unfold get_latest_resource_timestamp.
  destruct (collections_get proxy resource_id); [|by intros [= <-]].
  match goal with |- py_max ?l = _ -> _ => destruct l end; simpl; [|done].
  by intros [= <-].
Qed.

Section publish_outcome.
Variable proxy : collection.
Variable iget : string -> node -> completed_process * node.

(** The branch of lines 144-152. *)
Lemma publish_resource_failure resource_id w ts :
  get_latest_resource_timestamp proxy resource_id = inr ts ->
  returncode (fst (iget resource_id (fs w))) <> 0 ->
  publish_resource proxy iget resource_id w =
  (inl (NetCDFPublicationError resource_id
          (returncode (fst (iget resource_id (fs w))))
          (stdout (fst (iget resource_id (fs w))))
          (stderr (fst (iget resource_id (fs w))))),
   mk_world (snd (iget resource_id (fs w)))
     (logs w ++
      [(INFO, MsgPublishing resource_id);
       (ERROR, MsgPublishFailed resource_id
                 (returncode (fst (iget resource_id (fs w))))
                 (stdout (fst (iget resource_id (fs w))))
                 (stderr (fst (iget resource_id (fs w)))))])).
Proof.
  intros Hts Hrc. rewrite publish_resource_run, Hts. cbv zeta.
  destruct (iget resource_id (fs w)) as [proc t1]. cbn [fst snd] in *.
  destruct (Z.eqb_spec (returncode proc) 0) as [|_]; [done|]. cbn [negb].
  by rewrite <- app_assoc.
Qed.

(** C4, as amended. [publish_resource] raises [NetCDFPublicationError]
    exactly when [iget] was run and exited non-zero; the error carries
    the exit code, stdout and stderr, the catalog is left as [iget] left
    it and none of the three later steps is taken.  When [iget] exits 0,
    [rchmod], then [replace_spaces_in_names], then [os.utime] are
    attempted in that order.  An error raised by the second, after the
    first has returned, leaves [publish_resource] as it is, with the
    catalog as the normalizer left it: [os.utime] is not reached.  A call
    that returns leaves the destination with mode [FILE_MODE] throughout,
    no space in a name, and both times equal to the source timestamp. *)
Theorem publish_resource_outcome resource_id w :
  let proc := fst (iget resource_id (fs w)) in
  let t1 := snd (iget resource_id (fs w)) in
  let run := publish_resource proxy iget resource_id w in
  let failure :=
    NetCDFPublicationError resource_id (returncode proc)
                           (stdout proc) (stderr proc) in
  ((exists e, fst run = inl e /\ is_publication_error e = true) <->
   (exists ts,
      get_latest_resource_timestamp proxy resource_id = inr ts) /\
   returncode proc <> 0) /\
  (forall ts,
     get_latest_resource_timestamp proxy resource_id = inr ts ->
     returncode proc <> 0 ->
     run =
     (inl failure,
      mk_world t1
        (logs w ++
         [(INFO, MsgPublishing resource_id);
          (ERROR, MsgPublishFailed resource_id (returncode proc)
                                   (stdout proc) (stderr proc))]))) /\
  (forall ts,
     get_latest_resource_timestamp proxy resource_id = inr ts ->
     returncode proc = 0 ->
     (forall t2 e,
        rchmod [resource_id] FILE_MODE t1 = (inr tt, t2) ->
        fst (replace_spaces_loop [resource_id] t2) = inl e ->
        is_publication_error e = false /\
        run =
        (inl e,
         mk_world (snd (replace_spaces_loop [resource_id] t2))
                  (logs w ++ [(INFO, MsgPublishing resource_id)]))) /\
     (under [resource_id] wfb t1 = true ->
      fst run = inr tt ->
      exists n,
        get_node [resource_id] (fs (snd run)) = Some n /\
        st_mtime (node_stat n) = ts /\ st_atime (node_stat n) = ts /\
        no_spaceb n = true /\ all_mode FILE_MODE n = true)).
Proof.
  cbv zeta. rewrite publish_resource_run. cbv zeta.
  destruct (get_latest_resource_timestamp proxy resource_id) as [e0|ts]
    eqn:Ets.
  { split_and!.
    - split.
      + intros (e & [= <-] & He). apply get_latest_error in Ets. congruence.
      + by intros [[ts ?] _].
    - done.
    - done. }
  destruct (iget resource_id (fs w)) as [proc t1]. cbn [fst snd].
  destruct (Z.eqb_spec (returncode proc) 0) as [Hrc|Hrc]; cbn [negb].
  - (* iget exited 0 *)
    split_and!.
    + split; [|by intros [_ ?]]. intros (e & He & Hpub). exfalso.
      destruct (rchmod [resource_id] FILE_MODE t1) as [[e1|[]] t2] eqn:E1.
      { injection He as <-.
        rewrite (rchmod_error [resource_id] FILE_MODE t1 e1) in Hpub;
          [done | by rewrite E1]. }
      destruct (replace_spaces_loop [resource_id] t2) as [[e2|k] t3] eqn:E2.
      { injection He as <-.
        rewrite (replace_spaces_loop_error [resource_id] t2 e2) in Hpub;
          [done | by rewrite E2]. }
      destruct (os_utime [resource_id] (ts, ts) t3) as [[e3|[]] t4] eqn:E3;
        [|done].
      injection He as <-.
      rewrite (os_utime_error [resource_id] (ts, ts) t3 e3) in Hpub;
        [done | by rewrite E3].
    + done.
    + intros ts' [= <-] _. split.
      * intros t2 e -> He.
        split; [by apply (replace_spaces_loop_error [resource_id] t2)|].
        destruct (replace_spaces_loop [resource_id] t2) as [[e2|k] t3];
          simpl in He; [|done].
        by injection He as ->.
      * unfold under. intros Hwf.
        destruct (get_node [resource_id] t1) as [c|] eqn:Hget.
        2:{ by destruct (rchmod_missing [resource_id] FILE_MODE t1 Hget)
              as [e ->]. }
        rewrite (rchmod_at _ _ _ _ Hget Hwf).
        set (c1 := chmod_all FILE_MODE c).
        set (t2 := put [resource_id] c1 t1).
        assert (Hget2 : get_node [resource_id] t2 = Some c1)
          by (apply get_put; eauto).
        assert (Hwf1 : wf c1) by by apply chmod_all_wf.
        rewrite (replace_spaces_loop_norm _ _ _ Hget2 Hwf1).
        destruct (norm c1 0) as [[e|k] c2] eqn:En; [done|].
        set (t3 := put [resource_id] c2 t2).
        assert (Hget3 : get_node [resource_id] t3 = Some c2)
          by (apply get_put; eauto).
        unfold os_utime, syscall. rewrite (update_at_get _ _ _ _ Hget3).
        intros _. exists (with_stat (set_times (ts, ts)) c2). cbn [snd fs].
        split_and!.
        -- apply get_put. eauto.
        -- by destruct c2.
        -- by destruct c2.
        -- rewrite with_stat_no_space. by eapply norm_no_space.
        -- rewrite set_times_keeps by done.
           eapply norm_all_mode; [exact Hwf1 | exact En |].
           apply chmod_all_mode.
  - (* iget exited non-zero *)
    split_and!.
    + split; [intros _; eauto|]. intros _. eauto.
    + intros ts' [= <-] _. by rewrite <- app_assoc.
    + intros ts' _ Hz. done.
Qed.

(** C2, as amended. A publish attempt that raises
    [NetCDFPublicationError], as it does when [iget] exits non-zero, is
    logged as an error by the publisher and as a warning by the loop, and
    the loop goes on with the next item; an attempt that raises anything
    else ends the loop with that exception. *)
Theorem publication_error_isolated dest id ts rest w :
  due dest (id, ts) = true ->
  let w0 := log_append w [(INFO, due_message dest (id, ts))] in
  let proc := fst (iget id (fs w)) in
  (forall latest,
     get_latest_resource_timestamp proxy id = inr latest ->
     returncode proc <> 0 ->
     sync_publish_phase proxy iget ((id, ts) :: rest) dest w =
     sync_publish_phase proxy iget rest dest
       (mk_world (snd (iget id (fs w)))
          (logs w ++
           [(INFO, due_message dest (id, ts));
            (INFO, MsgPublishing id);
            (ERROR, MsgPublishFailed id (returncode proc)
                                     (stdout proc) (stderr proc));
            (WARNING, MsgIncomplete)]))) /\
  (forall e w',
     publish_resource proxy iget id w0 = (inl e, w') ->
     is_publication_error e = true ->
     sync_publish_phase proxy iget ((id, ts) :: rest) dest w =
     sync_publish_phase proxy iget rest dest
       (log_append w' [(WARNING, MsgIncomplete)])) /\
  (forall e w',
     publish_resource proxy iget id w0 = (inl e, w') ->
     is_publication_error e = false ->
     sync_publish_phase proxy iget ((id, ts) :: rest) dest w = (inl e, w')).
Proof.
  intros Hdue. cbv zeta.
  assert (Hstep : forall e w',
    publish_resource proxy iget id
      (log_append w [(INFO, due_message dest (id, ts))]) = (inl e, w') ->
    sync_publish_phase proxy iget ((id, ts) :: rest) dest w =
    if is_publication_error e
    then sync_publish_phase proxy iget rest dest
           (log_append w' [(WARNING, MsgIncomplete)])
    else (inl e, w')).
  { intros e w' Hpub. unfold sync_publish_phase.
    rewrite foldM_cons, sync_source_item_run, Hdue. cbn [fst].
    rewrite Hpub. by destruct (is_publication_error e). }
  split_and!.
  - intros latest Hts Hrc.
    pose proof (publish_resource_failure id
                  (log_append w [(INFO, due_message dest (id, ts))])
                  latest Hts Hrc) as Hfail.
    cbn [fs log_append] in Hfail.
    rewrite (Hstep _ _ Hfail). simpl.
    unfold log_append. simpl. by rewrite <- !app_assoc.
  - intros e w' Hpub He. by rewrite (Hstep _ _ Hpub), He.
  - intros e w' Hpub He. by rewrite (Hstep _ _ Hpub), He.
Qed.
End publish_outcome.

(** ** The theorems at work on the examples *)

Example due_when_absent : due [(id_b, 70)] (id_a, 50) = true.
Proof. reflexivity. Qed.

Example due_when_newer : due [(id_b, 70)] (id_b, 71) = true.
Proof. reflexivity. Qed.

Example not_due_when_equal : due [(id_b, 70)] (id_b, 70) = false.
Proof. reflexivity. Qed.

Example not_due_when_older : due [(id_b, 70)] (id_b, 69) = false.
Proof. reflexivity. Qed.

(** With [iget] failing on the first resource, the second one is still
    published. *)
Lemma publication_error_isolated_witness :
  publishing_ids
    (logs (snd (sync_publish_phase example_proxy
                  (iget_failing_on id_a example_proxy)
                  [(id_a, 50); (id_b, 70)] []
                  (mk_world empty_catalog [])))) = [id_a; id_b] /\
  fst (sync_publish_phase example_proxy
         (iget_failing_on id_a example_proxy)
         [(id_a, 50); (id_b, 70)] []
         (mk_world empty_catalog [])) = inr tt.
Proof.
  pose proof (proj1 (publication_error_isolated example_proxy
                       (iget_failing_on id_a example_proxy)
                       [] id_a 50 [(id_b, 70)] (mk_world empty_catalog [])
                       eq_refl) 50 eq_refl) as Hnext.
  assert (Hrc : returncode
                  (fst (iget_failing_on id_a example_proxy id_a
                          (fs (mk_world empty_catalog [])))) <> 0)
    by (vm_compute; discriminate).
  specialize (Hnext Hrc). split.
  - etransitivity;
      [exact (f_equal (fun r => publishing_ids (logs (snd r))) Hnext)|].
    vm_compute. reflexivity.
  - etransitivity; [exact (f_equal fst Hnext)|].
    vm_compute. reflexivity.
Defined.

(** The claim of C2 fails where a publish attempt raises something else
    than a publication error: the copy of the first resource holds two
    folders whose names clash, [os.rename] raises, the run ends there, and
    the second resource, which is due, is never attempted. *)
Lemma publish_failure_aborts_run :
  fst (scan_source clash_proxy (mk_world empty_catalog [])) =
    inr [(id_a, 50); (id_b, 70)] /\
  due (destination_inventory empty_catalog) (id_b, 70) = true /\
  fst (publish_resource clash_proxy (iget_copy clash_proxy) id_a
         (mk_world empty_catalog [])) = inl DirectoryNotEmpty /\
  fst (sync_resources clash_proxy (iget_copy clash_proxy)
         (mk_world empty_catalog [])) = inl DirectoryNotEmpty /\
  publishing_ids
    (logs (snd (sync_resources clash_proxy (iget_copy clash_proxy)
                  (mk_world empty_catalog [])))) = [id_a] /\
  lookup_entry id_b
    (root_entries
       (fs (snd (sync_resources clash_proxy (iget_copy clash_proxy)
                   (mk_world empty_catalog []))))) = None.
Proof. repeat split; vm_compute; reflexivity. Qed.

(** The claim of C1 fails for a due item that stands behind an attempt
    which raises something else than a publication error: the second
    resource is in the source inventory and missing from the destination,
    and the run ends without having published it. *)
Lemma due_item_never_attempted :
  fst (scan_source clash_proxy (mk_world empty_catalog [])) =
    inr [(id_a, 50); (id_b, 70)] /\
  ~ In id_b (map fst (destination_inventory empty_catalog)) /\
  due (destination_inventory empty_catalog) (id_b, 70) = true /\
  fst (sync_publish_phase clash_proxy (iget_copy clash_proxy)
         [(id_a, 50); (id_b, 70)] (destination_inventory empty_catalog)
         (mk_world empty_catalog [])) = inl DirectoryNotEmpty /\
  ~ In id_b
      (publishing_ids
         (logs (snd (sync_resources clash_proxy (iget_copy clash_proxy)
                       (mk_world empty_catalog []))))) /\
  get_node [id_b]
    (fs (snd (sync_resources clash_proxy (iget_copy clash_proxy)
                (mk_world empty_catalog [])))) = None.
Proof.
  split; [vm_compute; reflexivity|]. split; [intros []|].
  split; [vm_compute; reflexivity|]. split; [vm_compute; reflexivity|].
  split; [|vm_compute; reflexivity].
  assert (H : publishing_ids
                (logs (snd (sync_resources clash_proxy
                              (iget_copy clash_proxy)
                              (mk_world empty_catalog [])))) = [id_a])
    by (vm_compute; reflexivity).
  rewrite H. intros [Heq|[]]. discriminate Heq.
Qed.

(** The claim of C4 fails where [iget] exits 0 and a later step raises:
    the copy holds two folders whose names clash, [os.rename] raises
    inside [replace_spaces_in_names], [os.utime] is not reached, and the
    destination keeps a name with a space and the times of the copy. *)
Lemma publish_copied_not_stamped :
  get_latest_resource_timestamp clash_proxy id_a = inr 50 /\
  returncode (fst (iget_copy clash_proxy id_a empty_catalog)) = 0 /\
  fst (publish_resource clash_proxy (iget_copy clash_proxy) id_a
         (mk_world empty_catalog [])) = inl DirectoryNotEmpty /\
  under [id_a] no_spaceb
    (fs (snd (publish_resource clash_proxy (iget_copy clash_proxy) id_a
                (mk_world empty_catalog [])))) = false /\
  st_mtime ∘ node_stat <$>
    get_node [id_a]
      (fs (snd (publish_resource clash_proxy (iget_copy clash_proxy) id_a
                  (mk_world empty_catalog [])))) = Some 1000.
Proof. repeat split; vm_compute; reflexivity. Qed.

Lemma sync_removes_orphans_witness :
  fst (sync_resources example_proxy (iget_copy example_proxy)
         (mk_world example_catalog [])) = inr tt /\
  lookup_entry id_c
    (root_entries
       (fs (snd (sync_resources example_proxy (iget_copy example_proxy)
                   (mk_world example_catalog []))))) = None /\
  is_Some
    (lookup_entry id_b
       (root_entries
          (fs (snd (sync_resources example_proxy (iget_copy example_proxy)
                      (mk_world example_catalog [])))))).
Proof.
  pose (w0 := mk_world example_catalog []).
  pose (source := [(id_a, 50); (id_b, 70)] : list (string * timestamp)).
  pose (wa := snd (scan_source example_proxy
                     (log_append w0 [(INFO, MsgSyncing)]))).
  pose (wc := snd (sync_publish_phase example_proxy (iget_copy example_proxy)
                     source (destination_inventory (fs wa))
                     (log_append wa
                        [(INFO, MsgNumDestination
                                  (length (destination_inventory (fs wa))))]))).
  destruct (sync_removes_orphans example_proxy (iget_copy example_proxy)
              w0 source wa wc) as (Hkeep & Hexact & _).
  - vm_compute. reflexivity.
  - vm_compute. reflexivity.
  - vm_compute. reflexivity.
  - assert (Hok : fst (sync_resources example_proxy (iget_copy example_proxy)
                         w0) = inr tt) by (vm_compute; reflexivity).
    split; [exact Hok|]. destruct (Hexact Hok) as [Hfs _]. split.
    + unfold w0 in Hfs. rewrite Hfs. vm_compute. reflexivity.
    + eexists. apply (Hkeep id_b); [vm_compute; tauto|].
      vm_compute. reflexivity.
Defined.

Lemma publish_resource_outcome_witness :
  fst (publish_resource example_proxy (iget_failing_on id_a example_proxy)
         id_a (mk_world empty_catalog [])) =
    inl (NetCDFPublicationError id_a 3 "" "remote addresses: ERROR") /\
  fst (publish_resource clash_proxy (iget_copy clash_proxy)
         id_a (mk_world empty_catalog [])) = inl DirectoryNotEmpty /\
  exists n,
    get_node [id_b]
      (fs (snd (publish_resource example_proxy (iget_copy example_proxy)
                  id_b (mk_world empty_catalog [])))) = Some n /\
    st_mtime (node_stat n) = 70 /\ no_spaceb n = true /\
    all_mode FILE_MODE n = true.
Proof.
  split; [|split].
  - destruct (publish_resource_outcome example_proxy
                (iget_failing_on id_a example_proxy) id_a
                (mk_world empty_catalog [])) as (_ & Hfail & _).
    cbv zeta in Hfail. rewrite (Hfail 50); [reflexivity| reflexivity |].
    vm_compute. discriminate.
  - destruct (publish_resource_outcome clash_proxy
                (iget_copy clash_proxy) id_a
                (mk_world empty_catalog [])) as (_ & _ & Hok).
    cbv zeta in Hok.
    destruct (Hok 50 eq_refl eq_refl) as [Hraise _].
    destruct (Hraise
                (snd (rchmod [id_a] FILE_MODE
                        (snd (iget_copy clash_proxy id_a empty_catalog))))
                DirectoryNotEmpty) as [_ ->].
    + vm_compute. reflexivity.
    + vm_compute. reflexivity.
    + reflexivity.
  - destruct (publish_resource_outcome example_proxy
                (iget_copy example_proxy) id_b
                (mk_world empty_catalog [])) as (_ & _ & Hok).
    cbv zeta in Hok.
    destruct (Hok 70 eq_refl eq_refl) as [_ Hret].
    destruct Hret as (n & Hn & Hm & _ & Hs & Ha).
    + reflexivity.
    + vm_compute. reflexivity.
    + exists n. by split_and!.
Defined.

Lemma scan_source_inventory_witness :
  exists inv w',
    scan_source example_proxy (mk_world empty_catalog []) = (inr inv, w') /\
    In id_a (map fst inv) /\ ~ In "bags" (map fst inv).
Proof.
  destruct (scan_source_inventory example_proxy (mk_world empty_catalog []))
    as (inv & w' & Hrun & _ & Hiff).
  - apply (bool_decide_unpack _). vm_compute. exact I.
  - exists inv, w'. split; [exact Hrun|]. split.
    + apply (Hiff (Collection id_a public_metadata []
                     [mk_data_object "flow.nc" 50])); [by left|].
      split; [|split].
      * simpl. intros [H|[H|[H|[]]]]; discriminate H.
      * vm_compute. reflexivity.
      * exists (mk_data_object "flow.nc" 50). split.
        -- apply contains_here. by left.
        -- exists "flow", ".nc". split; [reflexivity | by left].
    + intros Hin.
      apply (Hiff (Collection "bags" public_metadata []
                     [mk_data_object "old.nc" 10])) in Hin.
      * destruct Hin as [Hex _]. apply Hex. simpl. tauto.
      * simpl. tauto.
Defined.

Lemma latest_timestamp_empty_fails_witness :
  get_latest_resource_timestamp hollow_proxy id_a = inl ValueError /\
  exists ts, get_latest_resource_timestamp example_proxy id_b = inr ts.
Proof.
  split.
  - apply (proj1 (latest_timestamp_empty_fails hollow_proxy id_a
                    (Collection id_a public_metadata [] []) eq_refl)).
    intros o Ho. inversion Ho; simpl in *; done.
  - destruct (proj2 (latest_timestamp_empty_fails example_proxy id_b
               (Collection id_b public_metadata
                  [Collection "my data" ∅ [] [mk_data_object "run 1.NC" 70]]
                  [mk_data_object "readme.txt" 60]) eq_refl)
               (mk_data_object "readme.txt" 60)) as (ts & Hts & _).
    + apply contains_here. by left.
    + by exists ts.
Defined.

Lemma removal_failure_aborts_witness :
  exists wd,
    sync_resources example_proxy (iget_copy example_proxy)
      (mk_world file_catalog []) = (inl NotADirectoryError, wd).
Proof.
  pose (w0 := mk_world file_catalog []).
  pose (source := [(id_a, 50); (id_b, 70)] : list (string * timestamp)).
  pose (wa := snd (scan_source example_proxy
                     (log_append w0 [(INFO, MsgSyncing)]))).
  pose (wc := snd (sync_publish_phase example_proxy (iget_copy example_proxy)
                     source (destination_inventory (fs wa))
                     (log_append wa
                        [(INFO, MsgNumDestination
                                  (length (destination_inventory (fs wa))))]))).
  destruct (removal_failure_aborts example_proxy (iget_copy example_proxy)
              w0 source wa wc) as (wd & pre & bad & post & Hrun & _).
  - vm_compute. reflexivity.
  - vm_compute. reflexivity.
  - vm_compute. reflexivity.
  - exists id_c, (File example_stat "stray").
    split; [|split]; vm_compute; reflexivity.
  - exists wd. exact Hrun.
Defined.

Lemma unmatched_entry_invisible_witness :
  ~ In "lost+found" (map fst (destination_inventory example_catalog)) /\
  lookup_entry "lost+found"
    (root_entries
       (fs (snd (sync_remove_phase [(id_b, 70)]
                   (mk_world example_catalog []))))) =
  Some (Dir example_stat []).
Proof.
  destruct (unmatched_entry_invisible [(id_b, 70)]
              (mk_world example_catalog []) "lost+found" eq_refl)
    as (_ & Hnot & _ & _ & Hkeep).
  split; [exact Hnot|]. rewrite Hkeep. reflexivity.
Defined.

(** ** Paths that are apart *)

Lemma lookup_set_entry_ne x y c es :
  x <> y -> lookup_entry y (set_entry x c es) = lookup_entry y es.
Proof.
  intros Hne. induction es as [|[z n] es IH]; simpl; [done|].
  destruct (String.eqb_spec z x) as [->|Hzx]; simpl.
  - by destruct (String.eqb_spec x y).
  - by rewrite IH.
Qed.

Lemma get_put_apart p : forall q c t,
  apart p q -> get_node q (put p c t) = get_node q t.
Proof.
  induction p as [|x p IH]; intros q c t [Hpq Hqp].
  { destruct Hpq. apply prefix_nil. }
  destruct q as [|y q]; [destruct Hqp; apply prefix_nil|].
  simpl. destruct t as [st d|st es]; [done|].
  destruct (lookup_entry x es) as [ch|] eqn:E; [|done]. simpl.
  destruct (String.eqb_spec x y) as [<-|Hne].
  - rewrite lookup_set_entry by eauto. rewrite E. apply IH. split.
    + intros H. apply Hpq. by apply prefix_cons.
    + intros H. apply Hqp. by apply prefix_cons.
  - by rewrite lookup_set_entry_ne.
Qed.




Lemma update_at_missing_kind p f t :
  get_node p t = None ->
  update_at p f t = inl FileNotFoundError \/
  update_at p f t = inl NotADirectoryError.
Proof.
  revert t. induction p as [|x p IH]; intros t; simpl; [done|].
  destruct t as [|st es]; [eauto|].
  destruct (lookup_entry x es) as [ch|] eqn:E.
  - intros H. rewrite (update_entry_lookup _ _ _ _ E).
    destruct (IH _ H) as [-> | ->]; eauto.
  - rewrite update_entry_missing by done. eauto.
Qed.



(** X2. [rchmod] on a path that does not exist raises the error of the
    first [os.chmod] and leaves the tree as it was. *)
Theorem rchmod_missing_path p mode t :
  get_node p t = None ->
  rchmod p mode t = (inl FileNotFoundError, t) \/
  rchmod p mode t = (inl NotADirectoryError, t).
Proof.
  intros Hget. unfold rchmod, bind, os_chmod, syscall.
  destruct (update_at_missing_kind p
              (fun n => inr (with_stat (set_mode mode) n)) t Hget)
    as [-> | ->]; eauto.
Qed.

Lemma rchmod_missing_path_witness :
  rchmod [id_c] FILE_MODE spaced_catalog =
    (inl FileNotFoundError, spaced_catalog) \/
  rchmod [id_c] FILE_MODE spaced_catalog =
    (inl NotADirectoryError, spaced_catalog).
Proof. exact (rchmod_missing_path [id_c] FILE_MODE spaced_catalog eq_refl). Defined.



(** ** Counting the renamed names *)






Lemma norm_stat c k : node_stat (snd (norm c k)) = node_stat c.
Proof.
  destruct c as [st d|st es]; [done|]. rewrite norm_Dir_loops.
  destruct (norm_below es k) as [[e|k1] es1]; [done|].
  by destruct (foldM _ (filenames es ++ dirnames es) k1 es1).
Qed.



(** X5. Where the path does not exist, or is a regular file, there is
    nothing to walk: the normalizer returns, changes nothing and logs
    nothing, whatever the name of the path itself. *)
Theorem normalize_names_nothing_to_walk p w :
  get_node p (fs w) = None \/
  (exists st d, get_node p (fs w) = Some (File st d)) ->
  replace_spaces_in_names p w = (inr tt, w).
Proof.
  intros H. apply replace_spaces_in_names_clean. unfold under.
  by destruct H as [-> | (st & d & ->)].
Qed.

Lemma normalize_names_nothing_to_walk_witness :
  replace_spaces_in_names [id_c] (mk_world spaced_catalog []) =
    (inr tt, mk_world spaced_catalog []) /\
  replace_spaces_in_names [id_a; "read me.txt"] (mk_world spaced_catalog []) =
    (inr tt, mk_world spaced_catalog []).
Proof.
  split.
  - apply (normalize_names_nothing_to_walk [id_c]). left. reflexivity.
  - apply (normalize_names_nothing_to_walk [id_a; "read me.txt"]). right.
    exists example_stat, "text"%string. reflexivity.
Defined.

(** X6. The normalizer works below the given path only: whether it
    returns or raises, the node at the path is still there, of the kind
    and with the mode it had, and no path apart from the given one sees a
    change. *)
Theorem normalize_names_stays_below p w c :
  get_node p (fs w) = Some c -> wf c ->
  let run := replace_spaces_in_names p w in
  (exists c',
     get_node p (fs (snd run)) = Some c' /\
     is_dir c' = is_dir c /\
     st_mode (node_stat c') = st_mode (node_stat c)) /\
  (forall q, apart p q -> get_node q (fs (snd run)) = get_node q (fs w)).
Proof.
  intros Hget Hwf. cbv zeta. rewrite replace_spaces_in_names_run.
  rewrite (replace_spaces_loop_norm _ _ _ Hget Hwf).
  pose proof (norm_stat c 0) as Hst. pose proof (norm_is_dir c 0) as Hdir.
  destruct (norm c 0) as [[e|k] c']; cbn [fst snd fs] in *.
  all: split;
    [exists c'; split; [apply get_put; eauto|by rewrite Hst]|].
  all: intros q Hq; by apply get_put_apart.
Qed.

Lemma normalize_names_stays_below_witness :
  get_node [id_b] (fs (snd (replace_spaces_in_names [id_a]
                              (mk_world spaced_catalog [])))) =
  get_node [id_b] spaced_catalog.
Proof.
  destruct (normalize_names_stays_below [id_a] (mk_world spaced_catalog []) _
              eq_refl eq_refl) as [_ Hapart].
  apply Hapart. split; intros [k Hk]; discriminate Hk.
Defined.

(** ** Names without underscores *)






(** ** A file renamed onto another file *)




(** ** The source scan: order and timestamps *)

Lemma with_timestamp_values proxy ids : forall acc w inv w',
  foldM (with_timestamp proxy) ids acc w = (inr inv, w') ->
  w' = w /\
  exists new,
    inv = acc ++ new /\ map fst new = ids /\
    Forall (fun it => get_latest_resource_timestamp proxy (fst it) =
                      inr (snd it)) new.
Proof.
  induction ids as [|id ids IH]; intros acc w inv w'.
  - simpl. unfold ret. intros [= <- <-]. split; [done|].
    exists []. by rewrite app_nil_r.
  - rewrite foldM_cons. unfold with_timestamp at 1, bind, lift_result, ret.
    destruct (get_latest_resource_timestamp proxy id) as [e|ts] eqn:E; [done|].
    intros (-> & new & -> & Hids & Hts)%IH. split; [done|].
    exists ((id, ts) :: new). rewrite <- app_assoc. simpl.
    split; [done|]. split; [by rewrite Hids|]. by constructor.
Qed.

Lemma with_timestamp_frame proxy ids : forall acc w,
  snd (foldM (with_timestamp proxy) ids acc w) = w.
Proof.
  induction ids as [|id ids IH]; intros acc w; [done|].
  rewrite foldM_cons. unfold with_timestamp at 1, bind, lift_result, ret.
  destruct (get_latest_resource_timestamp proxy id); [done|apply IH].
Qed.

(** The scan is the last comprehension, run on the names that pass the
    three tests, after the counts have been logged. *)
Lemma scan_source_ids proxy w :
  exists lg,
    scan_source proxy w =
    foldM (with_timestamp proxy)
      (map coll_name (List.filter inventoried (coll_subcollections proxy)))
      [] (mk_world (fs w) (logs w ++ lg)).
Proof.
  unfold scan_source.
  set (included := List.filter _ (coll_subcollections proxy)).
  set (public := List.filter is_public included).
  unfold bind at 1. rewrite logger_run.
  unfold bind at 1. rewrite logger_run.
  unfold bind at 1.
  match goal with
  | |- context [foldM keep_netcdf public [] ?w'] =>
      destruct (keep_netcdf_loop public [] w') as [lg ->]
  end.
  simpl app. unfold bind at 1. rewrite logger_run. cbn [fs logs].
  unfold public, included. rewrite !filter_twice.
  rewrite (filter_ext _ inventoried)
    by (intros c; unfold inventoried; by rewrite andb_assoc).
  eexists. rewrite <- !app_assoc. reflexivity.
Qed.

(** [scan_source] reads the zone and writes the log: the catalog is not
    touched, whether the scan returns or raises. *)
Lemma scan_source_fs proxy w : fs (snd (scan_source proxy w)) = fs w.
Proof.
  destruct (scan_source_ids proxy w) as [lg ->].
  by rewrite with_timestamp_frame.
Qed.

Lemma filter_names_NoDup (f : collection -> bool) subs :
  NoDup (map coll_name subs) -> NoDup (map coll_name (List.filter f subs)).
Proof.
  induction subs as [|c subs IH]; simpl; [done|].
  intros [Hc Hnd]%NoDup_cons. specialize (IH Hnd).
  destruct (f c); [|done]. simpl. apply NoDup_cons. split; [|done].
  intros (c' & Hn & Hc')%list_elem_of_fmap. apply Hc.
  apply list_elem_of_fmap. exists c'. split; [done|].
  apply list_elem_of_In. apply list_elem_of_In in Hc'.
  by apply filter_In in Hc' as [? _].
Qed.

(** X8. With distinct collection names the source inventory lists the
    collections that pass the three tests in the order of the zone, each
    once, and pairs each with the latest modification time among all the
    data objects of that collection, at any depth and of any name. *)
Theorem scan_source_order proxy w :
  NoDup (map coll_name (coll_subcollections proxy)) ->
  exists inv w',
    scan_source proxy w = (inr inv, w') /\
    map fst inv =
      map coll_name (List.filter inventoried (coll_subcollections proxy)) /\
    NoDup (map fst inv) /\
    forall id ts, In (id, ts) inv ->
      exists c,
        In c (coll_subcollections proxy) /\ coll_name c = id /\
        (exists o, contains c o /\ modify_time o = ts) /\
        (forall o, contains c o -> modify_time o <= ts).
Proof.
  intros Hnd. destruct (scan_source_ids proxy w) as [lg Hrun].
  set (ids := map coll_name
                (List.filter inventoried (coll_subcollections proxy))) in *.
  assert (Hts : forall id, In id ids ->
            exists c, In c (coll_subcollections proxy) /\ coll_name c = id /\
              exists ts, get_latest_resource_timestamp proxy id = inr ts).
  { intros id (c & <- & Hc)%in_map_iff.
    apply filter_In in Hc as [Hc Hinv]. exists c. split; [done|].
    split; [done|]. apply has_netcdf_timestamp; [done..|].
    unfold inventoried in Hinv. by apply andb_true_iff in Hinv as [_ ?]. }
  destruct (with_timestamp_loop proxy ids []
              (mk_world (fs w) (logs w ++ lg))) as (inv & Hloop & Hinv).
  { intros id (c & _ & _ & H)%Hts. exact H. }
  rewrite Hloop in Hrun. simpl in Hrun.
  destruct (with_timestamp_values _ _ _ _ _ _ Hloop)
    as (_ & new & Hnew & _ & Hvals).
  simpl in Hnew. subst new.
  exists inv. eexists. split; [exact Hrun|]. split; [exact Hinv|].
  split; [rewrite Hinv; by apply filter_names_NoDup|].
  intros id ts Hin.
  destruct (Hts id) as (c & Hc & Hn & _).
  { rewrite <- Hinv. by apply (in_map fst) in Hin. }
  rewrite Forall_forall in Hvals.
  apply list_elem_of_In, Hvals in Hin. simpl in Hin.
  exists c. split; [done|]. split; [done|].
  unfold get_latest_resource_timestamp, collections_get in Hin.
  rewrite <- Hn in Hin. rewrite (find_by_name _ _ Hnd Hc) in Hin.
  fold (walked_objects c) in Hin.
  pose proof (py_max_spec (map modify_time (walked_objects c))) as Hmax.
  rewrite Hin in Hmax. destruct Hmax as [Hm Hle]. split.
  - apply in_map_iff in Hm as (o & Ho & Hin'). exists o.
    split; [by apply walked_objects_contains|done].
  - intros o Ho. apply Hle, in_map. by apply walked_objects_contains.
Qed.

Lemma scan_source_order_witness :
  exists inv w',
    scan_source example_proxy (mk_world empty_catalog []) = (inr inv, w') /\
    map fst inv = [id_a; id_b].
Proof.
  destruct (scan_source_order example_proxy (mk_world empty_catalog []))
    as (inv & w' & Hrun & Hids & _).
  { apply (bool_decide_unpack _). vm_compute. exact I. }
  exists inv, w'. split; [exact Hrun|]. rewrite Hids. vm_compute. reflexivity.
Defined.

(** ** The destination scan *)

Lemma lookup_entry_Some x es :
  In x (names es) <-> exists n, lookup_entry x es = Some n.
Proof.
  destruct (lookup_entry x es) as [n|] eqn:E.
  - split; [eauto|]. intros _.
    by apply list_elem_of_In, (lookup_entry_Some_names _ _ n).
  - split; [|by intros [n Hn]].
    intros Hin%list_elem_of_In. by apply lookup_entry_None in E.
Qed.

Lemma destination_inventory_spec t x ts :
  In (x, ts) (destination_inventory t) <->
  glob_match RESOURCE_ID_GLOB x = true /\
  exists n, lookup_entry x (root_entries t) = Some n /\
            st_mtime (node_stat n) = ts.
Proof.
  unfold destination_inventory. rewrite in_map_iff. split.
  - intros (y & [= -> <-] & Hy). apply filter_In in Hy as [Hy Hg].
    split; [done|]. apply lookup_entry_Some in Hy as [n Hn].
    exists n. split; [done|]. unfold mtime_of. by rewrite Hn.
  - intros (Hg & n & Hn & <-). exists x. split.
    + unfold mtime_of. by rewrite Hn.
    + apply filter_In. split; [|done]. apply lookup_entry_Some. eauto.
Qed.

(** X9. When [scan_destination] returns it has left the catalog as it
    was and logged the number of entries found.  An entry is listed, with
    its modification time, exactly when it stands directly below the
    catalog root under a name of 32 characters that does not start with a
    dot: any characters will do, and a regular file is listed like a
    directory. *)
Theorem scan_destination_inventory w inv w' :
  scan_destination w = (inr inv, w') ->
  w' = log_append w [(INFO, MsgNumDestination (length inv))] /\
  forall x ts,
    In (x, ts) inv <->
    String.length x = 32%nat /\ ishidden x = false /\
    exists n, lookup_entry x (root_entries (fs w)) = Some n /\
              st_mtime (node_stat n) = ts.
Proof.
  rewrite scan_destination_run. intros [= <- <-]. split; [done|].
  intros x ts. rewrite destination_inventory_spec, glob_match_spec. tauto.
Qed.

Lemma scan_destination_inventory_witness :
  exists inv w',
    scan_destination (mk_world file_catalog []) = (inr inv, w') /\
    In (id_c, 0) inv /\ In (id_b, 10) inv.
Proof.
  destruct (scan_destination (mk_world file_catalog [])) as [r w'] eqn:Hrun.
  assert (Hr : r = inr [(id_c, 0); (id_b, 10)]).
  { apply (f_equal fst) in Hrun. simpl in Hrun. subst r.
    vm_compute. reflexivity. }
  subst r. eexists _, w'. split; [reflexivity|].
  destruct (scan_destination_inventory _ _ _ Hrun) as [_ Hiff].
  split; apply Hiff; (split; [reflexivity|]); (split; [reflexivity|]);
    eexists; (split; [reflexivity|]); reflexivity.
Defined.

(** ** Removing one resource *)



(** ** More on the single-item publisher *)

Lemma get_node_single x t : get_node [x] t = lookup_entry x (root_entries t).
Proof.
  destruct t as [st d|st es]; simpl; [done|].
  by destruct (lookup_entry x es).
Qed.

Lemma os_utime_at p times t c :
  get_node p t = Some c ->
  os_utime p times t = (inr tt, put p (with_stat (set_times times) c) t).
Proof.
  intros Hget. unfold os_utime, syscall.
  by rewrite (update_at_get _ _ _ _ Hget).
Qed.

Lemma os_utime_returns p times t u t' :
  os_utime p times t = (inr u, t') ->
  exists c, get_node p t = Some c /\
            t' = put p (with_stat (set_times times) c) t.
Proof.
  destruct (get_node p t) as [c|] eqn:E.
  - rewrite (os_utime_at _ _ _ _ E). intros [= <-]. eauto.
  - unfold os_utime, syscall.
    by destruct (update_at_missing p
                   (fun n => inr (with_stat (set_times times) n)) t E)
      as [e ->].
Qed.

Lemma recorded_map (f : string -> timestamp) x l :
  recorded x (map (fun y => (y, f y)) l) =
  if bool_decide (x ∈ l) then Some (f x) else None.
Proof.
  induction l as [|y l IH]; simpl; [done|].
  destruct (String.eqb_spec y x) as [->|Hne].
  - by rewrite bool_decide_eq_true_2 by left.
  - rewrite IH. do 2 case_bool_decide; set_solver.
Qed.

(** The timestamp that the inventory of a catalog records for a name. *)
Lemma recorded_inventory x t :
  recorded x (destination_inventory t) =
  if glob_match RESOURCE_ID_GLOB x
  then st_mtime ∘ node_stat <$> lookup_entry x (root_entries t)
  else None.
Proof.
  unfold destination_inventory. rewrite recorded_map.
  case_bool_decide as Hin.
  - apply list_elem_of_In, filter_In in Hin as [Hin ->].
    apply lookup_entry_Some in Hin as [n Hn]. unfold mtime_of.
    by rewrite Hn.
  - destruct (glob_match RESOURCE_ID_GLOB x) eqn:Hg; [|done].
    destruct (lookup_entry x (root_entries t)) as [n|] eqn:Hn; [|done].
    destruct Hin. apply list_elem_of_In, filter_In. split; [|done].
    apply lookup_entry_Some. eauto.
Qed.

Section publisher_frame.
Variable proxy : collection.
Variable iget : string -> node -> completed_process * node.

(** X11. The timestamp is resolved before anything is copied: for a
    resource that is missing from the zone, or holds no data object,
    [publish_resource] raises the resolver's error, which is not a
    [NetCDFPublicationError]; [iget] is not run, the catalog is as it
    was, and the log has gained the announcement only. *)
Theorem publish_resource_unresolved resource_id w e :
  get_latest_resource_timestamp proxy resource_id = inl e ->
  publish_resource proxy iget resource_id w =
    (inl e, log_append w [(INFO, MsgPublishing resource_id)]) /\
  is_publication_error e = false /\
  match collections_get proxy resource_id with
  | None => e = CollectionDoesNotExist
  | Some c => e = ValueError /\ forall o, ~ contains c o
  end.
Proof.
  intros He. rewrite publish_resource_run, He. split; [done|].
  split; [by apply (get_latest_error proxy resource_id)|].
  unfold get_latest_resource_timestamp in He.
  destruct (collections_get proxy resource_id) as [c|]; [|by injection He].
  fold (walked_objects c) in He.
  pose proof (py_max_spec (map modify_time (walked_objects c))) as Hmax.
  rewrite He in Hmax. destruct Hmax as [-> Hnil]. split; [done|].
  intros o Ho%walked_objects_contains.
  apply (in_map modify_time) in Ho. by rewrite Hnil in Ho.
Qed.

(** X12. What a publication writes, the next scan reads: after
    [publish_resource] has returned for an identifier of the inventoried
    shape, the destination inventory records the resource with a
    timestamp that is not older than the latest timestamp of the source,
    so the resource is due again only for a strictly later timestamp. *)
Theorem published_is_up_to_date resource_id w ts :
  get_latest_resource_timestamp proxy resource_id = inr ts ->
  glob_match RESOURCE_ID_GLOB resource_id = true ->
  fst (publish_resource proxy iget resource_id w) = inr tt ->
  let inv :=
    destination_inventory
      (fs (snd (publish_resource proxy iget resource_id w))) in
  (exists recorded_ts,
     recorded resource_id inv = Some recorded_ts /\ ts <= recorded_ts) /\
  forall ts', due inv (resource_id, ts') = true -> ts < ts'.
Proof.
  intros Hts Hglob. rewrite publish_resource_run, Hts. cbv zeta.
  destruct (iget resource_id (fs w)) as [proc t1].
  destruct (negb (Z.eqb (returncode proc) 0)); [done|].
  destruct (rchmod [resource_id] FILE_MODE t1) as [[e|[]] t2]; [done|].
  destruct (replace_spaces_loop [resource_id] t2) as [[e|k] t3]; [done|].
  destruct (os_utime [resource_id] (ts, ts) t3) as [[e|[]] t4] eqn:Eut;
    [done|].
  intros _. cbn [fst snd fs].
  apply os_utime_returns in Eut as (c & Hc & ->).
  assert (Hrec : recorded resource_id
            (destination_inventory
               (put [resource_id] (with_stat (set_times (ts, ts)) c) t3)) =
            Some ts).
  { rewrite recorded_inventory, Hglob, <- get_node_single.
    rewrite get_put by eauto. by destruct c. }
  split; [exists ts; split; [done|lia]|].
  intros ts'. rewrite due_recorded. cbn [fst snd].
  rewrite Hrec. by rewrite Z.gtb_ltb, Z.ltb_lt.
Qed.

(** X13. Apart from what [iget] itself writes, [publish_resource] works
    on the resource's own entry only: whether it returns or raises, every
    other entry of the catalog root is as [iget] left it. *)
Theorem publish_resource_frame resource_id w ts y :
  get_latest_resource_timestamp proxy resource_id = inr ts ->
  under [resource_id] wfb (snd (iget resource_id (fs w))) = true ->
  y <> resource_id ->
  lookup_entry y
    (root_entries (fs (snd (publish_resource proxy iget resource_id w)))) =
  lookup_entry y (root_entries (snd (iget resource_id (fs w)))).
Proof.
  intros Hts Hwf Hy. rewrite publish_resource_run, Hts. cbv zeta.
  destruct (iget resource_id (fs w)) as [proc t1]. cbn [snd] in *.
  destruct (negb (Z.eqb (returncode proc) 0)); [done|].
  unfold under in Hwf.
  destruct (get_node [resource_id] t1) as [c|] eqn:Hc.
  2:{ destruct (rchmod_missing [resource_id] FILE_MODE t1 Hc) as [e ->].
      done. }
  rewrite (rchmod_at _ _ _ _ Hc Hwf).
  set (t2 := put [resource_id] (chmod_all FILE_MODE c) t1).
  assert (Hc2 : get_node [resource_id] t2 = Some (chmod_all FILE_MODE c))
    by (apply get_put; eauto).
  rewrite (replace_spaces_loop_norm _ _ _ Hc2 (chmod_all_wf _ _ Hwf)).
  assert (Hframe : forall v,
            lookup_entry y (root_entries (put [resource_id] v t2)) =
            lookup_entry y (root_entries t1)).
  { intros v. rewrite <- !get_node_single. unfold t2. rewrite put_put.
    apply get_put_apart. split; intros [k Hk]; simpl in Hk; congruence. }
  destruct (norm (chmod_all FILE_MODE c) 0) as [[e|k] c3]; [apply Hframe|].
  rewrite (os_utime_at _ _ _ c3) by (apply get_put; eauto).
  cbn [fst snd fs]. rewrite put_put. apply Hframe.
Qed.
End publisher_frame.

Lemma publish_resource_unresolved_witness :
  publish_resource hollow_proxy (iget_copy hollow_proxy) id_a
    (mk_world empty_catalog []) =
  (inl ValueError, mk_world empty_catalog [(INFO, MsgPublishing id_a)]).
Proof.
  exact (proj1 (publish_resource_unresolved hollow_proxy
                  (iget_copy hollow_proxy) id_a (mk_world empty_catalog [])
                  ValueError eq_refl)).
Defined.

Lemma published_is_up_to_date_witness :
  (exists recorded_ts,
     recorded id_b
       (destination_inventory
          (fs (snd (publish_resource example_proxy (iget_copy example_proxy)
                      id_b (mk_world empty_catalog []))))) =
       Some recorded_ts /\ 70 <= recorded_ts) /\
  due (destination_inventory
         (fs (snd (publish_resource example_proxy (iget_copy example_proxy)
                     id_b (mk_world empty_catalog [])))))
      (id_b, 70) <> true.
Proof.
  destruct (published_is_up_to_date example_proxy (iget_copy example_proxy)
              id_b (mk_world empty_catalog []) 70 eq_refl eq_refl eq_refl)
    as [Hrec Hdue].
  split; [exact Hrec|]. intros H. apply Hdue in H. lia.
Defined.

Lemma publish_resource_frame_witness :
  lookup_entry id_c
    (root_entries
       (fs (snd (publish_resource example_proxy (iget_copy example_proxy)
                   id_b (mk_world example_catalog []))))) =
  Some (Dir example_stat [("hidden.nc", File example_stat "")]).
Proof.
  exact (publish_resource_frame example_proxy (iget_copy example_proxy)
           id_b (mk_world example_catalog []) 70 id_c
           eq_refl eq_refl ltac:(discriminate)).
Defined.

(** ** More on the sync driver *)

Lemma rmtree_at_error p : forall t e,
  rmtree_at p t = inl e -> is_publication_error e = false.
Proof.
  induction p as [|x p IH]; intros t e; simpl; [by intros [= <-]|].
  destruct t as [|st es]; [by intros [= <-]|].
  destruct p as [|y p].
  - destruct (lookup_entry x es) as [[? ?|? ?]|]; by intros [= <-].
  - destruct (update_entry x (rmtree_at (y :: p)) es) as [e'|] eqn:E; [|done].
    intros [= <-]. eapply update_entry_error; [|exact E]. eauto.
Qed.

Lemma remove_orphan_error src u d w e :
  fst (remove_orphan src u d w) = inl e -> is_publication_error e = false.
Proof.
  unfold remove_orphan.
  destruct (negb (bool_decide (fst d ∈ src))); [|done].
  unfold bind at 1. rewrite logger_run.
  unfold remove_resource, bind, lift_fs, shutil_rmtree, syscall. cbn [fs].
  destruct (rmtree_at [fst d] (fs w)) as [e'|t'] eqn:E; [|done].
  simpl. intros [= <-]. by apply rmtree_at_error in E.
Qed.

Lemma scan_source_error proxy w e :
  fst (scan_source proxy w) = inl e -> is_publication_error e = false.
Proof.
  destruct (scan_source_ids proxy w) as [lg ->].
  apply foldM_error. intros acc id s e'.
  unfold with_timestamp, bind, lift_result, ret.
  destruct (get_latest_resource_timestamp proxy id) as [e0|ts] eqn:E; [|done].
  simpl. intros [= <-]. by apply get_latest_error in E.
Qed.

Lemma remove_loop_idle src todo : forall w,
  (forall d, In d todo -> In (fst d) src) ->
  foldM (remove_orphan src) todo tt w = (inr tt, w).
Proof.
  induction todo as [|d todo IH]; intros w Hin; [done|].
  rewrite foldM_cons. unfold remove_orphan at 1.
  rewrite bool_decide_eq_true_2
    by (apply list_elem_of_In, Hin; by left).
  simpl. apply IH. intros d' Hd'. apply Hin. by right.
Qed.

Section driver_outcomes.
Variable proxy : collection.
Variable iget : string -> node -> completed_process * node.

Lemma publish_phase_idle source dest : forall w,
  (forall s, In s source -> due dest s = false) ->
  sync_publish_phase proxy iget source dest w = (inr tt, w).
Proof.
  unfold sync_publish_phase.
  induction source as [|s source IH]; intros w Hdue; [done|].
  rewrite foldM_cons, sync_source_item_run.
  rewrite (Hdue s) by (by left). apply IH. intros s' Hs'. apply Hdue.
  by right.
Qed.

(** With nothing due and nothing to remove, the run is the scan of the
    source and three lines of the log. *)
Lemma sync_idle w0 source wa :
  scan_source proxy (log_append w0 [(INFO, MsgSyncing)]) = (inr source, wa) ->
  (forall s, In s source -> due (destination_inventory (fs w0)) s = false) ->
  (forall x, In x (map fst (destination_inventory (fs w0))) ->
             In x (map fst source)) ->
  let n := length (destination_inventory (fs w0)) in
  sync_resources proxy iget w0 =
  (inr tt,
   mk_world (fs w0)
     (logs wa ++ [(INFO, MsgNumDestination n); (INFO, MsgNumDestination n);
                  (INFO, MsgSynced)])).
Proof.
  intros Hscan Hdue Horph. cbv zeta.
  assert (Hfs : fs wa = fs w0).
  { pose proof (scan_source_fs proxy (log_append w0 [(INFO, MsgSyncing)]))
      as H. by rewrite Hscan in H. }
  rewrite sync_resources_run, Hscan. cbv zeta. rewrite Hfs.
  rewrite publish_phase_idle by done.
  rewrite sync_remove_phase_run. cbn [fs log_append]. rewrite Hfs.
  rewrite remove_loop_idle.
  - unfold log_append. cbn [fs logs]. by rewrite Hfs, <- !app_assoc.
  - intros d Hd. apply Horph. by apply in_map.
Qed.

(** X14. A catalog that is up to date is left as it is: when no item of
    the source inventory is due and every inventoried entry of the
    catalog is in the source inventory, [sync_resources] returns without
    running [iget] and without removing anything; after the scan of the
    source it only logs the two counts of the destination and the closing
    line. *)
Theorem sync_up_to_date w0 source wa :
  scan_source proxy (log_append w0 [(INFO, MsgSyncing)]) = (inr source, wa) ->
  (forall s, In s source -> due (destination_inventory (fs w0)) s = false) ->
  (forall x, In x (map fst (destination_inventory (fs w0))) ->
             In x (map fst source)) ->
  let n := length (destination_inventory (fs w0)) in
  sync_resources proxy iget w0 =
  (inr tt,
   mk_world (fs w0)
     (logs wa ++ [(INFO, MsgNumDestination n); (INFO, MsgNumDestination n);
                  (INFO, MsgSynced)])).
Proof. apply sync_idle. Qed.

Lemma sync_resources_error w0 e :
  fst (sync_resources proxy iget w0) = inl e ->
  is_publication_error e = false.
Proof.
  rewrite sync_resources_run.
  destruct (scan_source proxy _) as [[e0|source] wa] eqn:Escan.
  { simpl. intros [= <-]. apply (scan_source_error proxy
      (log_append w0 [(INFO, MsgSyncing)])). by rewrite Escan. }
  cbv zeta.
  match goal with
  | |- context [sync_publish_phase proxy iget source ?d ?w] =>
      destruct (publish_phase_trace proxy iget source d w) as (k & _ & _ & Hp);
      destruct (sync_publish_phase proxy iget source d w) as [[e1|[]] wc]
  end.
  { simpl in *. by intros [= <-]. }
  rewrite sync_remove_phase_run.
  match goal with
  | |- context [foldM ?f ?l tt ?w] =>
      pose proof (foldM_error f l tt w) as Hr;
      destruct (foldM f l tt w) as [[e2|[]] wd]
  end; [|done].
  simpl in *. intros [= <-]. apply Hr; [|done].
  intros u d s e'. apply remove_orphan_error.
Qed.
(** X15. [sync_resources] never raises [NetCDFPublicationError]: the
    failures of [iget] are caught item by item, and whatever else ends
    the run is an error of another kind. *)
Theorem sync_never_raises_publication_error w0 e :
  fst (sync_resources proxy iget w0) = inl e ->
  is_publication_error e = false.
Proof. apply sync_resources_error. Qed.
End driver_outcomes.

Lemma sync_up_to_date_witness :
  fs (snd (sync_resources example_proxy (iget_copy example_proxy)
             (mk_world
                (Dir example_stat
                   [(id_b, Dir (mk_stat 493 70 70) []);
                    (id_a, Dir (mk_stat 493 99 99) []);
                    ("lost+found", Dir example_stat [])]) []))) =
  Dir example_stat
    [(id_b, Dir (mk_stat 493 70 70) []);
     (id_a, Dir (mk_stat 493 99 99) []);
     ("lost+found", Dir example_stat [])].
Proof.
  set (w0 := mk_world _ []).
  destruct (scan_source example_proxy (log_append w0 [(INFO, MsgSyncing)]))
    as [r wa] eqn:Escan.
  assert (Hr : r = inr [(id_a, 50); (id_b, 70)]).
  { apply (f_equal fst) in Escan. simpl in Escan. subst r.
    vm_compute. reflexivity. }
  subst r.
  rewrite (sync_up_to_date example_proxy (iget_copy example_proxy) w0
             _ wa Escan).
  - reflexivity.
  - intros s [<-|[<-|[]]]; vm_compute; reflexivity.
  - vm_compute. tauto.
Defined.

Lemma sync_never_raises_publication_error_witness :
  fst (sync_resources example_proxy (iget_copy example_proxy)
         (mk_world file_catalog [])) = inl NotADirectoryError /\
  is_publication_error NotADirectoryError = false.
Proof.
  assert (H : fst (sync_resources example_proxy (iget_copy example_proxy)
                     (mk_world file_catalog [])) = inl NotADirectoryError)
    by (vm_compute; reflexivity).
  split; [exact H|].
  exact (sync_never_raises_publication_error example_proxy
           (iget_copy example_proxy) (mk_world file_catalog []) _ H).
Defined.

(** ** A second run finds nothing to do *)

Lemma names_set_entry x c es : names (set_entry x c es) = names es.
Proof.
  induction es as [|[y n] es IH]; simpl; [done|].
  destruct (String.eqb y x); simpl; [done|]. unfold names in *. by rewrite IH.
Qed.

Lemma Forall_set_entry (Q : node -> Prop) x c es :
  Forall (fun e => Q (snd e)) es -> Q c ->
  Forall (fun e => Q (snd e)) (set_entry x c es).
Proof.
  intros Hes Hc. induction Hes as [|[y n] es Hn Hes IH]; simpl; [done|].
  destruct (String.eqb y x); constructor; done.
Qed.

Lemma wf_put_entry x c t : wf t -> wf c -> wf (put [x] c t).
Proof.
  destruct t as [st d|st es]; [done|]. simpl.
  destruct (lookup_entry x es) as [ch|]; [|done].
  rewrite !wf_Dir. intros [Hnd Hwf] Hc. split.
  - by rewrite names_set_entry.
  - by apply Forall_set_entry.
Qed.

Lemma is_dir_put_entry x c t : is_dir (put [x] c t) = is_dir t.
Proof.
  destruct t as [st d|st es]; [done|]. simpl.
  by destruct (lookup_entry x es).
Qed.

Lemma wf_entry x t c : wf t -> get_node [x] t = Some c -> wf c.
Proof.
  destruct t as [st d|st es]; [done|]. simpl.
  destruct (lookup_entry x es) as [ch|] eqn:E; [|done].
  intros Hwf [= <-]. by apply (lookup_entry_wf x ch st es).
Qed.

Lemma wf_with_stat f c : wf (with_stat f c) = wf c.
Proof. by destruct c. Qed.

(** The result of the source scan does not depend on the catalog or on
    the log. *)
Lemma with_timestamp_result proxy ids : forall acc w w',
  fst (foldM (with_timestamp proxy) ids acc w) =
  fst (foldM (with_timestamp proxy) ids acc w').
Proof.
  induction ids as [|id ids IH]; intros acc w w'; [done|].
  rewrite !foldM_cons. unfold with_timestamp at 1 3, bind, lift_result, ret.
  destruct (get_latest_resource_timestamp proxy id); [done|apply IH].
Qed.

Lemma scan_source_result proxy w w' :
  fst (scan_source proxy w) = fst (scan_source proxy w').
Proof.
  destruct (scan_source_ids proxy w) as [lg ->].
  destruct (scan_source_ids proxy w') as [lg' ->].
  apply with_timestamp_result.
Qed.

(** What a returned scan lists: names that pass the three tests, each
    once when the names of the zone are distinct, with the timestamp that
    the resolver gives. *)
Lemma scan_source_items proxy w source wa :
  scan_source proxy w = (inr source, wa) ->
  map fst source =
    map coll_name (List.filter inventoried (coll_subcollections proxy)) /\
  forall id ts, In (id, ts) source ->
    get_latest_resource_timestamp proxy id = inr ts.
Proof.
  destruct (scan_source_ids proxy w) as [lg ->].
  intros (_ & new & Hnew & Hids & Hts)%with_timestamp_values.
  simpl in Hnew. subst new. split; [done|].
  intros id ts Hin. rewrite Forall_forall in Hts.
  by apply list_elem_of_In, Hts in Hin.
Qed.

Lemma recorded_lookup x t t' :
  lookup_entry x (root_entries t') = lookup_entry x (root_entries t) ->
  recorded x (destination_inventory t') = recorded x (destination_inventory t).
Proof. intros H. by rewrite !recorded_inventory, H. Qed.

Section convergence.
Variable proxy : collection.
Variable iget : string -> node -> completed_process * node.
Variable ids : list string.
Hypothesis Higet : well_behaved ids iget.

(** One publication that returns, on a well-formed catalog directory. *)
Lemma publish_resource_returns id ts w w' :
  In id ids -> wf (fs w) -> is_dir (fs w) = true ->
  get_latest_resource_timestamp proxy id = inr ts ->
  publish_resource proxy iget id w = (inr tt, w') ->
  wf (fs w') /\ is_dir (fs w') = true /\
  (exists n, lookup_entry id (root_entries (fs w')) = Some n /\
             st_mtime (node_stat n) = ts) /\
  forall y, y <> id ->
    lookup_entry y (root_entries (fs w')) =
    lookup_entry y (root_entries (fs w)).
Proof.
  intros Hid Hwf Hdir Hts.
  destruct (Higet id (fs w) Hid Hwf Hdir) as (Hrc & Hwf1 & Hdir1 & Hframe).
  rewrite publish_resource_run, Hts. cbv zeta.
  destruct (iget id (fs w)) as [proc t1]. cbn [fst snd] in *.
  rewrite Hrc. cbn [Z.eqb negb].
  destruct (get_node [id] t1) as [c|] eqn:Hc.
  2:{ by destruct (rchmod_missing [id] FILE_MODE t1 Hc) as [e ->]. }
  pose proof (wf_entry _ _ _ Hwf1 Hc) as Hwfc.
  rewrite (rchmod_at _ _ _ _ Hc Hwfc).
  set (t2 := put [id] (chmod_all FILE_MODE c) t1).
  assert (Hc2 : get_node [id] t2 = Some (chmod_all FILE_MODE c))
    by (apply get_put; eauto).
  rewrite (replace_spaces_loop_norm _ _ _ Hc2 (chmod_all_wf _ _ Hwfc)).
  destruct (norm (chmod_all FILE_MODE c) 0) as [[e|k] c3] eqn:En; [done|].
  destruct (norm_twice _ (chmod_all_wf FILE_MODE _ Hwfc) _ _ _ En)
    as [Hwf3 _].
  rewrite (os_utime_at _ _ _ c3) by (apply get_put; eauto).
  intros Heq. apply (f_equal snd) in Heq. cbn [snd] in Heq. subst w'.
  cbn [fs]. unfold t2. rewrite !put_put.
  split; [apply wf_put_entry; [done|by rewrite wf_with_stat]|].
  split; [by rewrite is_dir_put_entry|]. split.
  - exists (with_stat (set_times (ts, ts)) c3).
    rewrite <- get_node_single, get_put by eauto. split; [done|].
    by destruct c3.
  - intros y Hy. rewrite <- Hframe by done. rewrite <- !get_node_single.
    apply get_put_apart. split; intros [q Hq]; simpl in Hq; congruence.
Qed.

(** The first loop, when it returns: the catalog is still a well-formed
    directory, each item that was due is recorded with its timestamp, and
    the entries of the other names are as they were. *)
Lemma publish_phase_returns dest source : forall w w',
  (forall id ts, In (id, ts) source ->
     In id ids /\ glob_match RESOURCE_ID_GLOB id = true /\
     get_latest_resource_timestamp proxy id = inr ts) ->
  NoDup (map fst source) ->
  wf (fs w) -> is_dir (fs w) = true ->
  sync_publish_phase proxy iget source dest w = (inr tt, w') ->
  wf (fs w') /\ is_dir (fs w') = true /\
  (forall id ts, In (id, ts) source -> due dest (id, ts) = true ->
     recorded id (destination_inventory (fs w')) = Some ts) /\
  (forall y, (forall ts, In (y, ts) source -> due dest (y, ts) = false) ->
     lookup_entry y (root_entries (fs w')) =
     lookup_entry y (root_entries (fs w))).
Proof.
  unfold sync_publish_phase.
  induction source as [|[id ts] source IH]; intros w w' Hsrc Hnd Hwf Hdir.
  { simpl. unfold ret. intros [= <-]. by split_and!. }
  apply NoDup_cons in Hnd as [Hfresh Hnd].
  assert (Hsrc' : forall id' ts', In (id', ts') source ->
            In id' ids /\ glob_match RESOURCE_ID_GLOB id' = true /\
            get_latest_resource_timestamp proxy id' = inr ts').
  { intros id' ts' H. apply Hsrc. by right. }
  destruct (Hsrc id ts) as (Hid & Hglob & Hts); [by left|].
  rewrite foldM_cons, sync_source_item_run.
  destruct (due dest (id, ts)) eqn:Hdue.
  - cbn [fst].
    destruct (publish_resource proxy iget id _) as [[e|[]] w1] eqn:Hpub.
    + pose proof (publish_resource_run proxy iget id
                    (log_append w [(INFO, due_message dest (id, ts))])) as Hrun.
      rewrite Hpub, Hts in Hrun. cbv zeta in Hrun. cbn [fs log_append] in Hrun.
      destruct (Higet id (fs w) Hid Hwf Hdir) as (Hrc & _).
      destruct (iget id (fs w)) as [proc t1]. cbn [fst] in Hrc.
      rewrite Hrc in Hrun. cbn [Z.eqb negb] in Hrun.
      assert (He : is_publication_error e = false).
      { destruct (rchmod [id] FILE_MODE t1) as [[e1|[]] t2] eqn:E1.
        { injection Hrun as -> _.
          apply (rchmod_error [id] FILE_MODE t1). by rewrite E1. }
        destruct (replace_spaces_loop [id] t2) as [[e2|k] t3] eqn:E2.
        { injection Hrun as -> _.
          apply (replace_spaces_loop_error [id] t2). by rewrite E2. }
        destruct (os_utime [id] (ts, ts) t3) as [[e3|[]] t4] eqn:E3; [|done].
        injection Hrun as -> _.
        apply (os_utime_error [id] (ts, ts) t3). by rewrite E3. }
      by rewrite He.
    + destruct (publish_resource_returns id ts
                  (log_append w [(INFO, due_message dest (id, ts))]) w1
                  Hid Hwf Hdir Hts Hpub)
        as (Hwf1 & Hdir1 & (n & Hn & Hmt) & Hframe1).
      cbn [fs log_append] in Hframe1.
      intros Hrest.
      destruct (IH w1 w' Hsrc' Hnd Hwf1 Hdir1 Hrest)
        as (Hwf' & Hdir' & Hrec & Hframe).
      split; [done|]. split; [done|]. split.
      * intros id' ts' [[= <- <-]|Hin] Hdue'; [|by apply Hrec].
        assert (Hkeep : lookup_entry id (root_entries (fs w')) =
                        lookup_entry id (root_entries (fs w1))).
        { apply Hframe. intros ts' Hin. destruct Hfresh.
          apply list_elem_of_In. by apply (in_map fst) in Hin. }
        rewrite recorded_inventory, Hglob, Hkeep, Hn. simpl. by rewrite Hmt.
      * intros y Hy. rewrite Hframe by (intros ts' H; apply Hy; by right).
        apply Hframe1. intros ->. specialize (Hy ts (or_introl eq_refl)).
        congruence.
  - intros Hrest.
    destruct (IH w w' Hsrc' Hnd Hwf Hdir Hrest)
      as (Hwf' & Hdir' & Hrec & Hframe).
    split; [done|]. split; [done|]. split.
    + intros id' ts' [[= <- <-]|Hin] Hdue'; [congruence|by apply Hrec].
    + intros y Hy. apply Hframe. intros ts' H. apply Hy. by right.
Qed.
End convergence.

Lemma fst_NoDup_functional {A B} (l : list (A * B)) x a b :
  NoDup (map fst l) -> In (x, a) l -> In (x, b) l -> a = b.
Proof.
  induction l as [|[y c] l IH]; simpl; [done|].
  intros [Hy Hnd]%NoDup_cons [[= -> ->]|Ha] [[= ->]|Hb]; try done.
  - destruct Hy. apply list_elem_of_In. by apply (in_map fst) in Hb.
  - simplify_eq. destruct Hy. apply list_elem_of_In.
    by apply (in_map fst) in Ha.
  - by apply IH.
Qed.

Section second_run.
Variable proxy : collection.
Variable iget : string -> node -> completed_process * node.

(** The state that a returned run leaves: no item of the source scan is
    due, and every inventoried entry is in the source scan. *)
Lemma sync_settles w0 source wa :
  NoDup (map coll_name (coll_subcollections proxy)) ->
  Forall (fun id => glob_match RESOURCE_ID_GLOB id = true) (map fst source) ->
  well_behaved (map fst source) iget ->
  wf (fs w0) -> is_dir (fs w0) = true ->
  scan_source proxy (log_append w0 [(INFO, MsgSyncing)]) = (inr source, wa) ->
  fst (sync_resources proxy iget w0) = inr tt ->
  let w1 := snd (sync_resources proxy iget w0) in
  (forall s, In s source -> due (destination_inventory (fs w1)) s = false) /\
  (forall x, In x (map fst (destination_inventory (fs w1))) ->
             In x (map fst source)).
Proof.
  intros Hnames Hglob Higet Hwf Hdir Hscan. cbv zeta.
  destruct (scan_source_items _ _ _ _ Hscan) as [Hids Hts].
  assert (Hnd : NoDup (map fst source)).
  { rewrite Hids. by apply filter_names_NoDup. }
  assert (Hfs : fs wa = fs w0).
  { pose proof (scan_source_fs proxy (log_append w0 [(INFO, MsgSyncing)]))
      as H. by rewrite Hscan in H. }
  rewrite sync_resources_run, Hscan. cbv zeta.
  set (dest := destination_inventory (fs wa)).
  destruct (sync_publish_phase proxy iget source dest _)
    as [[e|[]] wc] eqn:Hpub; [done|].
  assert (Hsrc : forall id ts, In (id, ts) source ->
            In id (map fst source) /\
            glob_match RESOURCE_ID_GLOB id = true /\
            get_latest_resource_timestamp proxy id = inr ts).
  { intros id ts Hin. split; [by apply (in_map fst) in Hin|].
    split; [|by apply Hts]. rewrite Forall_forall in Hglob.
    apply Hglob, list_elem_of_In. by apply (in_map fst) in Hin. }
  rewrite <- Hfs in Hwf, Hdir.
  destruct (publish_phase_returns proxy iget (map fst source) Higet
              dest source
              (log_append wa [(INFO, MsgNumDestination (length dest))]) wc
              Hsrc Hnd Hwf Hdir Hpub)
    as (Hwfc & Hdirc & Hrec & Hframe).
  cbn [fs log_append] in Hframe.
  assert (Hsettled : forall id ts, In (id, ts) source ->
            due (destination_inventory (fs wc)) (id, ts) = false).
  { intros id ts Hin. destruct (due dest (id, ts)) eqn:Hdue.
    - rewrite due_recorded. cbn [fst snd]. rewrite (Hrec id ts Hin Hdue).
      rewrite Z.gtb_ltb. apply Z.ltb_irrefl.
    - rewrite due_recorded in *. cbn [fst snd] in *.
      rewrite (recorded_lookup id (fs wa) (fs wc)); [done|].
      apply Hframe. intros ts' Hin'.
      by rewrite (fst_NoDup_functional _ _ _ _ Hnd Hin' Hin), due_recorded. }
  destruct (remove_phase_spec source wc Hwfc) as (Hkeep & Hgone & _).
  cbv zeta in Hkeep, Hgone.
  destruct (sync_remove_phase source wc) as [[e|[]] wd]; [done|].
  intros _. cbn [fst snd fs log_append] in *.
  destruct (Hgone eq_refl) as [Hroot _]. split.
  - intros [id ts] Hin. specialize (Hsettled id ts Hin).
    rewrite due_recorded in *. cbn [fst snd] in *.
    rewrite (recorded_lookup id (fs wc) (fs wd)); [done|].
    destruct (lookup_entry id (root_entries (fs wc))) as [n|] eqn:Hn.
    + apply Hkeep; [|done]. by apply (in_map fst) in Hin.
    + rewrite recorded_inventory, Hn in Hsettled.
      by destruct (glob_match RESOURCE_ID_GLOB id).
  - intros x Hx. rewrite destination_inventory_ids, Hroot in Hx.
    apply filter_In in Hx as [Hx Hg].
    apply in_map_iff in Hx as ([y n] & <- & Hy). cbn [fst] in *.
    apply filter_In in Hy as [_ Hy]. cbn [fst] in Hy.
    unfold orphan in Hy. rewrite Hg in Hy. cbn [andb] in Hy.
    apply negb_true_iff, negb_false_iff, bool_decide_eq_true in Hy.
    by apply list_elem_of_In.
Qed.

(** X21. What a run that returns has achieved, under the conditions of
    X19: every item of the source scan is recorded in the destination
    inventory with a timestamp that is not older than the source's, and
    the destination inventory lists no identifier that the source scan
    does not list. *)
Theorem sync_mirrors_source w0 source wa :
  NoDup (map coll_name (coll_subcollections proxy)) ->
  Forall (fun id => glob_match RESOURCE_ID_GLOB id = true) (map fst source) ->
  well_behaved (map fst source) iget ->
  wf (fs w0) -> is_dir (fs w0) = true ->
  scan_source proxy (log_append w0 [(INFO, MsgSyncing)]) = (inr source, wa) ->
  fst (sync_resources proxy iget w0) = inr tt ->
  let w1 := snd (sync_resources proxy iget w0) in
  (forall id ts, In (id, ts) source ->
     exists ts', recorded id (destination_inventory (fs w1)) = Some ts' /\
                 ts <= ts') /\
  (forall x, In x (map fst (destination_inventory (fs w1))) ->
             In x (map fst source)).
Proof.
  intros Hnames Hglob Higet Hwf Hdir Hscan Hrun.
  destruct (sync_settles w0 source wa Hnames Hglob Higet Hwf Hdir Hscan Hrun)
    as [Hdue Horph].
  cbv zeta in *. split; [|done]. intros id ts Hin.
  specialize (Hdue _ Hin). rewrite due_recorded in Hdue. cbn [fst snd] in Hdue.
  destruct (recorded id _) as [ts'|]; [|done].
  exists ts'. split; [done|]. rewrite Z.gtb_ltb in Hdue.
  by apply Z.ltb_ge in Hdue.
Qed.

(** X19. A run that has returned leaves nothing for the next one.  When
    the names of the zone are distinct, the inventoried ones have the
    shape of an identifier, the catalog is a well-formed directory and
    the transfer is well behaved, a second [sync_resources] on the state
    that a returned run left publishes nothing and removes nothing: it
    returns, the catalog is as the first run left it, and after the scan
    of the source the log gains the two counts of the destination and the
    closing line only. *)
Theorem sync_second_run_idle w0 :
  let ids :=
    map coll_name (List.filter inventoried (coll_subcollections proxy)) in
  NoDup (map coll_name (coll_subcollections proxy)) ->
  Forall (fun id => glob_match RESOURCE_ID_GLOB id = true) ids ->
  well_behaved ids iget ->
  wf (fs w0) -> is_dir (fs w0) = true ->
  fst (sync_resources proxy iget w0) = inr tt ->
  let w1 := snd (sync_resources proxy iget w0) in
  let wa := snd (scan_source proxy (log_append w1 [(INFO, MsgSyncing)])) in
  let n := length (destination_inventory (fs w1)) in
  sync_resources proxy iget w1 =
  (inr tt,
   mk_world (fs w1)
     (logs wa ++ [(INFO, MsgNumDestination n); (INFO, MsgNumDestination n);
                  (INFO, MsgSynced)])).
Proof.
  intros ids Hnames Hglob Higet Hwf Hdir Hrun w1 wa n.
  destruct (scan_source proxy (log_append w0 [(INFO, MsgSyncing)]))
    as [[e|source] wa0] eqn:Hscan.
  { rewrite sync_resources_run, Hscan in Hrun. done. }
  destruct (scan_source_items _ _ _ _ Hscan) as [Hids _].
  fold ids in Hids. rewrite <- Hids in Hglob, Higet.
  destruct (sync_settles w0 source wa0 Hnames Hglob Higet Hwf Hdir Hscan Hrun)
    as [Hdue Horph].
  fold w1 in Hdue, Horph.
  pose proof (scan_source_result proxy (log_append w1 [(INFO, MsgSyncing)])
                (log_append w0 [(INFO, MsgSyncing)])) as Hsame.
  rewrite Hscan in Hsame. cbn [fst] in Hsame.
  apply sync_idle with (source := source); [|done|done].
  unfold wa. destruct (scan_source proxy _) as [r wa1].
  cbn [fst snd] in *. by subst r.
Qed.
End second_run.

Lemma lookup_entry_app_ne x y c es :
  y <> x -> lookup_entry y (es ++ [(x, c)]) = lookup_entry y es.
Proof.
  intros Hne. induction es as [|[z n] es IH]; simpl.
  - by destruct (String.eqb_spec x y); [subst|].
  - by destruct (String.eqb z y).
Qed.

(** [iget_copy] is well behaved on the resources that the zone holds with
    distinct names inside. *)
Lemma iget_copy_well_behaved proxy ids :
  (forall id, In id ids ->
     exists c,
       List.find (fun c => String.eqb (coll_name c) id)
                 (coll_subcollections proxy) = Some c /\
       wf (node_of_collection fresh_stat c)) ->
  well_behaved ids (iget_copy proxy).
Proof.
  intros Hids id t Hid Hwf Hdir. destruct (Hids id Hid) as (c & Hc & Hwfc).
  destruct t as [st d|st es]; [done|]. unfold iget_copy. rewrite Hc.
  cbn [fst snd returncode is_dir root_entries].
  apply wf_Dir in Hwf as [Hnd Hwf].
  split; [done|]. split; [|split; [done|]].
  - apply wf_Dir. destruct (lookup_entry id es) as [n|] eqn:Hn.
    + split; [by rewrite names_set_entry | by apply Forall_set_entry].
    + split.
      * unfold names. rewrite map_app. simpl. apply NoDup_app.
        split; [done|]. split; [|apply NoDup_singleton].
        intros x Hx ->%list_elem_of_singleton.
        by apply lookup_entry_None in Hn.
      * apply Forall_app. split; [done|]. by constructor.
  - intros y Hy. destruct (lookup_entry id es) as [n|].
    + by apply lookup_set_entry_ne.
    + by apply lookup_entry_app_ne.
Qed.

Lemma sync_second_run_idle_witness :
  fst (sync_resources example_proxy (iget_copy example_proxy)
         (mk_world example_catalog [])) = inr tt /\
  fs (snd (sync_resources example_proxy (iget_copy example_proxy)
             (snd (sync_resources example_proxy (iget_copy example_proxy)
                     (mk_world example_catalog []))))) =
  fs (snd (sync_resources example_proxy (iget_copy example_proxy)
             (mk_world example_catalog []))).
Proof.
  assert (Hrun : fst (sync_resources example_proxy (iget_copy example_proxy)
                        (mk_world example_catalog [])) = inr tt)
    by (vm_compute; reflexivity).
  split; [exact Hrun|].
  rewrite (sync_second_run_idle example_proxy (iget_copy example_proxy)
             (mk_world example_catalog [])).
  - reflexivity.
  - apply (bool_decide_unpack _). vm_compute. exact I.
  - apply Forall_forall. intros id Hid. apply list_elem_of_In in Hid.
    vm_compute in Hid. destruct Hid as [<-|[<-|[]]]; reflexivity.
  - apply iget_copy_well_behaved. intros id Hid. vm_compute in Hid.
    destruct Hid as [<-|[<-|[]]]; eexists; (split; [reflexivity|]);
      vm_compute; reflexivity.
  - reflexivity.
  - reflexivity.
  - exact Hrun.
Defined.

Lemma sync_mirrors_source_witness :
  (exists ts',
     recorded id_a
       (destination_inventory
          (fs (snd (sync_resources example_proxy (iget_copy example_proxy)
                      (mk_world example_catalog []))))) = Some ts' /\
     50 <= ts') /\
  ~ In id_c
      (map fst
         (destination_inventory
            (fs (snd (sync_resources example_proxy (iget_copy example_proxy)
                        (mk_world example_catalog [])))))).
Proof.
  destruct (scan_source example_proxy
              (log_append (mk_world example_catalog []) [(INFO, MsgSyncing)]))
    as [r wa] eqn:Hscan.
  assert (Hr : r = inr [(id_a, 50); (id_b, 70)]).
  { apply (f_equal fst) in Hscan. simpl in Hscan. subst r.
    vm_compute. reflexivity. }
  subst r.
  assert (H1 : NoDup (map coll_name (coll_subcollections example_proxy))).
  { apply (bool_decide_unpack _). vm_compute. exact I. }
  assert (H2 : Forall (fun id => glob_match RESOURCE_ID_GLOB id = true)
                      (map fst [(id_a, 50); (id_b, 70)]))
    by (repeat constructor).
  assert (H3 : well_behaved (map fst [(id_a, 50); (id_b, 70)])
                            (iget_copy example_proxy)).
  { apply iget_copy_well_behaved. intros id [<-|[<-|[]]];
      eexists; (split; [reflexivity|]); vm_compute; reflexivity. }
  assert (H7 : fst (sync_resources example_proxy (iget_copy example_proxy)
                      (mk_world example_catalog [])) = inr tt)
    by (vm_compute; reflexivity).
  destruct (sync_mirrors_source example_proxy (iget_copy example_proxy)
              (mk_world example_catalog []) [(id_a, 50); (id_b, 70)] wa
              H1 H2 H3 eq_refl eq_refl Hscan H7) as [Hrec Hin].
  split.
  - apply (Hrec id_a 50). by left.
  - intros H. apply Hin in H. simpl in H.
    destruct H as [H|[H|[]]]; discriminate H.
Defined.

(** ** The script *)

Section script_proofs.
Variable proxy : collection.
Variable iget : string -> node -> completed_process * node.

Lemma main_run environ args s :
  Forall (fun key => is_Some (environ !! key)) REQUIRED ->
  main proxy iget environ args s =
  if negb (String.eqb (args_resource_id args) "") then
    script_try
      (call (publish_resource proxy iget (args_resource_id args)))
      (script_bind (getattr args "resource_id") (fun resource_id =>
       script_bind (getattr args "src_path") (fun src_path =>
       script_bind (getattr args "dest_path") (fun dest_path =>
       script_warning
         (MsgResourceIncomplete resource_id src_path dest_path))))) s
  else call (sync_resources proxy iget) s.
Proof.
  intros Henv. unfold REQUIRED in Henv.
  repeat (apply Forall_cons in Henv as [[? ?] Henv]).
  unfold main.
  do 4 (unfold script_bind at 1; unfold environ_get at 1;
        match goal with
        | H : environ !! ?k = Some _ |- context [environ !! ?k] => rewrite H
        end).
  by destruct (negb _).
Qed.

Lemma main_first_missing environ args s key :
  List.find (fun key => negb (bool_decide (is_Some (environ !! key))))
            REQUIRED = Some key ->
  main proxy iget environ args s = (inl (KeyError key), s).
Proof.
  unfold REQUIRED, main, script_bind, environ_get. simpl.
  repeat
    match goal with
    | |- context [environ !! ?k] =>
        let v := fresh "v" in
        destruct (environ !! k) as [v|] eqn:?;
        [rewrite (bool_decide_eq_true_2 (is_Some (Some v))) by done
        |rewrite (bool_decide_eq_false_2 (is_Some None))
           by (by intros [? ?]);
         simpl; by intros [= <-]];
        simpl
    end.
  done.
Qed.

(** X16. The script reads four variables from the environment, in the
    order of [REQUIRED]; the first one that is not set ends the script
    with a [KeyError] that names it, before anything is published,
    removed or logged. *)
Theorem main_missing_variable environ args s key :
  List.find (fun key => negb (bool_decide (is_Some (environ !! key))))
            REQUIRED = Some key ->
  main proxy iget environ args s = (inl (KeyError key), s).
Proof. apply main_first_missing. Qed.

(** X17. When the script is given a resource and [iget] exits non-zero,
    the handler of the [NetCDFPublicationError] fails itself: it asks
    [args] for [src_path], which the parser never defined, so the script
    ends with an [AttributeError] and the warning is not written; the log
    ends with the error line of [publish_resource]. *)
Theorem main_publication_failure_unreported environ args s ts :
  Forall (fun key => is_Some (environ !! key)) REQUIRED ->
  args_resource_id args <> "" ->
  get_latest_resource_timestamp proxy (args_resource_id args) = inr ts ->
  returncode (fst (iget (args_resource_id args) (catalog s))) <> 0 ->
  let resource_id := args_resource_id args in
  let proc := fst (iget resource_id (catalog s)) in
  main proxy iget environ args s =
  (inl (AttributeError "src_path"),
   mk_script (snd (iget resource_id (catalog s)))
     (log_file s ++
      [(INFO, Logged (MsgPublishing resource_id));
       (ERROR, Logged (MsgPublishFailed resource_id (returncode proc)
                                        (stdout proc) (stderr proc)))])).
Proof.
  intros Henv Hid Hts Hrc. cbv zeta. rewrite main_run by done.
  apply String.eqb_neq in Hid. rewrite Hid. cbn [negb].
  unfold script_try, call.
  rewrite (publish_resource_failure proxy iget _
             (mk_world (catalog s) []) ts Hts Hrc).
  cbn [is_publication_error fs logs]. reflexivity.
Qed.

(** X18. The script never ends with a [NetCDFPublicationError]: without
    a resource argument it is [sync_resources], which catches it item by
    item; with one, the handler takes over. *)
Theorem main_never_raises_publication_error environ args s e :
  fst (main proxy iget environ args s) = inl (Uncaught e) ->
  is_publication_error e = false.
Proof.
  destruct (List.find (fun key => negb (bool_decide (is_Some (environ !! key))))
              REQUIRED) as [key|] eqn:Hfind.
  { by rewrite (main_first_missing _ _ _ _ Hfind). }
  assert (Henv : Forall (fun key => is_Some (environ !! key)) REQUIRED).
  { apply Forall_forall. intros key Hkey.
    apply list_elem_of_In in Hkey.
    apply (find_none _ _ Hfind) in Hkey.
    apply negb_false_iff, bool_decide_eq_true in Hkey. done. }
  rewrite main_run by done.
  destruct (String.eqb (args_resource_id args) ""); cbn [negb].
  - unfold call.
    pose proof (sync_resources_error proxy iget
                  (mk_world (catalog s) []) e) as Hsync.
    destruct (sync_resources proxy iget _) as [[e'|[]] w]; [|done].
    simpl in *. intros [= ->]. by apply Hsync.
  - unfold script_try, call.
    destruct (publish_resource proxy iget _ _) as [[e'|[]] w]; [|done].
    destruct (is_publication_error e') eqn:He'.
    + unfold script_bind, getattr. simpl. done.
    + simpl. by intros [= <-].
Qed.
End script_proofs.

Lemma main_missing_variable_witness :
  main example_proxy (iget_copy example_proxy)
       (delete "PUBLIC_NETCDF_IRODS_PROXY_PATH" example_environ)
       (mk_args ".env" "") (mk_script example_catalog []) =
  (inl (KeyError "PUBLIC_NETCDF_IRODS_PROXY_PATH"),
   mk_script example_catalog []).
Proof.
  apply main_missing_variable. vm_compute. reflexivity.
Defined.

Lemma main_publication_failure_unreported_witness :
  fst (main example_proxy (iget_failing_on id_a example_proxy)
         example_environ (mk_args ".env" id_a)
         (mk_script empty_catalog [])) =
  inl (AttributeError "src_path").
Proof.
  rewrite (main_publication_failure_unreported example_proxy
             (iget_failing_on id_a example_proxy) example_environ
             (mk_args ".env" id_a) (mk_script empty_catalog []) 50).
  - reflexivity.
  - apply (bool_decide_unpack _). vm_compute. exact I.
  - discriminate.
  - reflexivity.
  - discriminate.
Defined.

Lemma main_never_raises_publication_error_witness :
  fst (main example_proxy (iget_copy example_proxy) example_environ
         (mk_args ".env" "") (mk_script file_catalog [])) =
    inl (Uncaught NotADirectoryError) /\
  is_publication_error NotADirectoryError = false.
Proof.
  assert (H : fst (main example_proxy (iget_copy example_proxy)
                     example_environ (mk_args ".env" "")
                     (mk_script file_catalog [])) =
              inl (Uncaught NotADirectoryError))
    by (vm_compute; reflexivity).
  split; [exact H|].
  exact (main_never_raises_publication_error example_proxy
           (iget_copy example_proxy) example_environ (mk_args ".env" "")
           (mk_script file_catalog []) NotADirectoryError H).
Defined.

